(** * A shallow embedding of the diet-tracking core (nutrient ledger and meal scaler)

    The TypeScript application keeps its numbers as ECMAScript Numbers, that is
    IEEE 754 binary64 values, and its nutrient magnitudes as unit-suffixed
    strings ("120kcal", "10g").  The embedding keeps both: numbers are the
    [spec_float] values of the standard library's IEEE 754 specification at
    precision 53 and maximal exponent 1024, strings are byte strings (the UTF-8
    encoding of the JavaScript string), the ledger is a finite map from date
    keys to day records. *)

From Stdlib Require Import ZArith NArith QArith Qabs Qpower Qfield Qround.
From Stdlib Require Import List String Ascii Bool Lia Lqa.
From Stdlib Require Import Floats.SpecFloat.
From Stdlib Require Import DecimalString DecimalN.
From stdpp Require Import base gmap strings.

Local Open Scope Z_scope.

(** * ECMAScript built-ins used by the source *)

Module JS.

(** *** Number values: IEEE 754 binary64 *)

Definition number : Type := spec_float.

Definition prec : Z := 53.
Definition emax : Z := 1024.

Definition add : number -> number -> number := SFadd prec emax.
Definition mul : number -> number -> number := SFmul prec emax.
Definition div : number -> number -> number := SFdiv prec emax.

Definition pos_zero : number := S754_zero false.
Definition neg_zero : number := S754_zero true.
Definition NaN : number := S754_nan.

(** [isNaN(n)], [Number.isFinite(n)] and the truthiness test behind
    [n || d] and [!n]: a Number is falsy exactly when it is +0, -0 or NaN. *)
Definition isNaN (n : number) : bool :=
  match n with S754_nan => true | _ => false end.

Definition isFinite (n : number) : bool :=
  match n with S754_zero _ | S754_finite _ _ _ => true | _ => false end.

Definition truthy (n : number) : bool :=
  match n with S754_zero _ | S754_nan => false | _ => true end.

(** The Number for an integer literal such as [100] or [1]. *)
Definition of_Z (z : Z) : number := binary_normalize prec emax z 0 false.

(** The Number value for the decimal [(-1)^neg * m * 10^e]: the nearest
    binary64 value, ties to even; a zero keeps the sign it was written
    with.  A quotient of two integers is rounded once, by the division of
    the IEEE specification run on the exact numerator and denominator. *)
Definition of_decimal (neg : bool) (m : N) (e : Z) : number :=
  match m with
  | N0 => S754_zero neg
  | Npos p =>
      match e with
      | Zneg k => SFdiv prec emax (S754_finite neg p 0)
                    (S754_finite false (Pos.pow 10 k) 0)
      | _ => binary_round prec emax neg (p * Z.to_pos (10 ^ e))%positive 0
      end
  end.

(** *** Characters and digit strings *)

Definition digit_of (c : ascii) : option N :=
  let n := N_of_ascii c in
  if ((48 <=? n) && (n <=? 57))%N then Some (n - 48)%N else None.

Definition is_digit (c : ascii) : bool :=
  match digit_of c with Some _ => true | None => false end.

(** The ASCII members of the WhiteSpace and LineTerminator classes (the
    other members are multi-byte sequences in this encoding). *)
Definition is_space (c : ascii) : bool :=
  match c with
  | " "%char | "009"%char | "010"%char | "011"%char | "012"%char
  | "013"%char => true
  | _ => false
  end.

(** The longest prefix of digits, and what follows it. *)
Fixpoint span_digits (s : list ascii) : list ascii * list ascii :=
  match s with
  | c :: r =>
      if is_digit c
      then let '(ds, rest) := span_digits r in (c :: ds, rest)
      else ([], s)
  | [] => ([], [])
  end.

(** The value of a digit string read left to right, from [acc]. *)
Fixpoint digits_value (acc : N) (ds : list ascii) : N :=
  match ds with
  | c :: r =>
      digits_value (10 * acc + match digit_of c with Some d => d | None => 0 end)%N r
  | [] => acc
  end.

Fixpoint drop_spaces (s : list ascii) : list ascii :=
  match s with
  | c :: r => if is_space c then drop_spaces r else s
  | [] => []
  end.

Definition trim (s : list ascii) : list ascii :=
  rev (drop_spaces (rev (drop_spaces s))).

(** *** Numeric literals (StrDecimalLiteral) *)

Inductive literal : Type :=
| LitInfinity (neg : bool)
| LitDecimal (neg : bool) (mantissa : N) (exp10 : Z).

Definition literal_value (l : literal) : number :=
  match l with
  | LitInfinity neg => S754_infinity neg
  | LitDecimal neg m e => of_decimal neg m e
  end.

Definition scan_sign (s : list ascii) : bool * list ascii :=
  match s with
  | c :: r =>
      if Ascii.eqb c "-" then (true, r)
      else if Ascii.eqb c "+" then (false, r)
      else (false, s)
  | [] => (false, [])
  end.

(** An ExponentPart, when one is there: [e] or [E], an optional sign and
    at least one digit. *)
Definition scan_exponent (s : list ascii) : Z * list ascii :=
  match s with
  | c :: r =>
      if (Ascii.eqb c "e" || Ascii.eqb c "E")%bool then
        let '(neg, r1) := scan_sign r in
        match span_digits r1 with
        | ([], _) => (0, s)
        | (ds, rest) =>
            let v := Z.of_N (digits_value 0 ds) in
            (if neg then - v else v, rest)
        end
      else (0, s)
  | [] => (0, [])
  end.

Definition infinity_chars : list ascii := list_ascii_of_string "Infinity".

Fixpoint strip_prefix (p s : list ascii) : option (list ascii) :=
  match p, s with
  | [], _ => Some s
  | a :: p', b :: s' => if Ascii.eqb a b then strip_prefix p' s' else None
  | _ :: _, [] => None
  end.

(** The longest prefix of [s] that is a StrDecimalLiteral, as a literal,
    with the characters left over. *)
Definition scan_literal (s : list ascii) : option (literal * list ascii) :=
  let '(neg, r) := scan_sign s in
  match strip_prefix infinity_chars r with
  | Some rest => Some (LitInfinity neg, rest)
  | None =>
      let '(ip, r1) := span_digits r in
      let '(fp, r3) :=
        match r1 with
        | c :: r2 => if Ascii.eqb c "." then span_digits r2 else ([], r1)
        | [] => ([], [])
        end in
      match ip, fp with
      | [], [] => None
      | _, _ =>
          let '(e, rest) := scan_exponent r3 in
          Some (LitDecimal neg (digits_value 0 (ip ++ fp))
                  (e - Z.of_nat (length fp)), rest)
      end
  end.

(** [parseFloat(string)]: leading white space is skipped, the longest
    prefix that is a decimal literal is converted, NaN when there is none. *)
Definition parseFloat (s : string) : number :=
  match scan_literal (drop_spaces (list_ascii_of_string s)) with
  | Some (l, _) => literal_value l
  | None => NaN
  end.

(** *** [Number(string)] *)

(** [Number(string)]: white space is trimmed on both sides; the empty
    string is +0; otherwise the whole string must be one numeric literal, a
    decimal one or an unsigned binary, octal or hexadecimal integer. *)
Definition radix_digit (radix : N) (c : ascii) : option N :=
  let n := N_of_ascii c in
  let v :=
    if ((48 <=? n) && (n <=? 57))%N then Some (n - 48)%N
    else if ((97 <=? n) && (n <=? 102))%N then Some (n - 87)%N
    else if ((65 <=? n) && (n <=? 70))%N then Some (n - 55)%N
    else None in
  match v with
  | Some d => if (d <? radix)%N then Some d else None
  | None => None
  end.

Fixpoint radix_value (radix acc : N) (ds : list ascii) : option N :=
  match ds with
  | c :: r =>
      match radix_digit radix c with
      | Some d => radix_value radix (radix * acc + d)%N r
      | None => None
      end
  | [] => Some acc
  end.

Definition scan_nondecimal (s : list ascii) : option number :=
  match s with
  | c0 :: c :: (_ :: _) as ds =>
      if Ascii.eqb c0 "0" then
        let radix :=
          if (Ascii.eqb c "x" || Ascii.eqb c "X")%bool then Some 16%N
          else if (Ascii.eqb c "o" || Ascii.eqb c "O")%bool then Some 8%N
          else if (Ascii.eqb c "b" || Ascii.eqb c "B")%bool then Some 2%N
          else None in
        match radix with
        | Some b =>
            match radix_value b 0 ds with
            | Some v => Some (of_decimal false v 0)
            | None => None
            end
        | None => None
        end
      else None
  | _ => None
  end.

Definition Number (s : string) : number :=
  match trim (list_ascii_of_string s) with
  | [] => pos_zero
  | t =>
      match scan_nondecimal t with
      | Some v => v
      | None =>
          match scan_literal t with
          | Some (l, []) => literal_value l
          | _ => NaN
          end
      end
  end.

(** *** Number to string *)

Definition digit_char (d : N) : ascii := ascii_of_N (48 + d).

(** The decimal digits of [n], most significant first, in front of [acc]. *)
Fixpoint show_digits (fuel : nat) (n : N) (acc : list ascii) : list ascii :=
  match fuel with
  | O => acc
  | S f =>
      let acc' := digit_char (n mod 10) :: acc in
      if (n <? 10)%N then acc' else show_digits f (n / 10) acc'
  end.

Definition show_N (n : N) : list ascii :=
  show_digits (S (N.to_nat (N.log2 n))) n [].

Definition same (x y : number) : bool :=
  match x, y with
  | S754_zero a, S754_zero b => Bool.eqb a b
  | S754_infinity a, S754_infinity b => Bool.eqb a b
  | S754_nan, S754_nan => true
  | S754_finite a m e, S754_finite b m' e' =>
      Bool.eqb a b && Pos.eqb m m' && Z.eqb e e'
  | _, _ => false
  end.

(** [Number::toString] picks, for a finite nonzero value, the shortest
    digit string [s] (with [k] digits) and the exponent [n] such that
    [s * 10^(n-k)] converts back to the value; among several of the same
    length the closest, then the even one.  [shortest] searches [k]
    upwards for the integer [X >= 10^21] of [d] digits whose Number is [x]:
    at each length the two multiples of [10^(d-k)] around [X] are the only
    candidates. *)
Fixpoint shortest (fuel k : nat) (x : number) (X : N) (d : nat) : N * nat :=
  match fuel with
  | O => (X, d)
  | S f =>
      let p := (10 ^ N.of_nat (d - k))%N in
      let lo := (X / p)%N in
      let hi := (lo + 1)%N in
      let up := if (hi =? 10 ^ N.of_nat k)%N
                then ((10 ^ N.of_nat (k - 1))%N, S d) else (hi, d) in
      match same (of_decimal false (lo * p) 0) x,
            same (of_decimal false (hi * p) 0) x with
      | true, true =>
          match (X - lo * p ?= hi * p - X)%N with
          | Lt => (lo, d)
          | Gt => up
          | Eq => if N.even lo then (lo, d) else up
          end
      | true, false => (lo, d)
      | false, true => up
      | false, false => shortest f (S k) x X d
      end
  end.

(** The exponential notation of [Number::toString] for an integer value
    [X >= 10^21]: [d.ddde+n]. *)
Definition show_exponential (x : number) (X : N) : list ascii :=
  let d := length (show_N X) in
  let '(s, n) := shortest d 1 x X d in
  let e := show_N (N.of_nat (n - 1)) in
  match show_N s with
  | [c] => c :: "e"%char :: "+"%char :: e
  | c :: cs => c :: "."%char :: cs ++ "e"%char :: "+"%char :: e
  | [] => []
  end.

(** [toFixed]: the integer [n] for which [n / 10^d] is closest to
    [m * 2^e], the larger one of two. *)
Definition toFixed_int (m : positive) (e : Z) (d : nat) : N :=
  let a := Zpos m * 10 ^ Z.of_nat d in
  Z.to_N match e with
         | Zneg k => (2 * a + 2 ^ Zpos k) / 2 ^ (Zpos k + 1)
         | _ => a * 2 ^ e
         end.

Definition insert_point (ds : list ascii) (d : nat) : list ascii :=
  match d with
  | O => ds
  | _ =>
      let ds' := repeat "0"%char (S d - length ds) ++ ds in
      let k := length ds' in
      firstn (k - d) ds' ++ "."%char :: skipn (k - d) ds'
  end.

Definition at_least_1e21 (m : positive) (e : Z) : bool :=
  match e with
  | Zneg k => 10 ^ 21 * 2 ^ Zpos k <=? Zpos m
  | _ => 10 ^ 21 <=? Zpos m * 2 ^ e
  end.

(** [n.toFixed(d)] for [0 <= d <= 100] (every call of the source passes 1). *)
Definition toFixed (x : number) (d : nat) : string :=
  string_of_list_ascii
    match x with
    | S754_nan => list_ascii_of_string "NaN"
    | S754_infinity false => list_ascii_of_string "Infinity"
    | S754_infinity true => list_ascii_of_string "-Infinity"
    | S754_zero _ => insert_point (show_N 0) d
    | S754_finite neg m e =>
        (if neg then ["-"%char] else []) ++
        if at_least_1e21 m e
        then show_exponential (S754_finite false m e) (Z.to_N (Zpos m * 2 ^ e))
        else insert_point (show_N (toFixed_int m e d)) d
    end.

End JS.

(** * The application *)

(** ** Types of the application *)

Abbreviation number := JS.number.

Inductive MealTime : Type := 朝 | 昼 | 夜.

Record NutrientItem : Type := {
  材料名 : string;
  数量 : option string;
  重量 : option string;
  カロリー : option string;
  たんぱく質 : option string;
  脂質 : option string;
  炭水化物 : option string
}.

Record CalorieSplit : Type := {
  morning : number;
  lunch : number;
  dinner : number
}.

Record Totals : Type := {
  kcal : number;
  protein : number;
  fat : number;
  carbs : number
}.

(** [DayRecord = Record<MealTime, NutrientItem[][]>]: for each of the three
    slots the meals recorded there, each meal a list of items. *)
Record DayRecord : Type := {
  meals朝 : list (list NutrientItem);
  meals昼 : list (list NutrientItem);
  meals夜 : list (list NutrientItem)
}.

(** [record[mealTime]]. *)
Definition slot (r : DayRecord) (t : MealTime) : list (list NutrientItem) :=
  match t with
  | 朝 => meals朝 r
  | 昼 => meals昼 r
  | 夜 => meals夜 r
  end.

(** [Object.values(record)]: the three slots in the order the record was
    created with. *)
Definition values (r : DayRecord) : list (list (list NutrientItem)) :=
  [meals朝 r; meals昼 r; meals夜 r].

(** [DailyRecords = Record<string, DayRecord>], keyed by the date. *)
Abbreviation DailyRecords := (gmap string DayRecord).

(** ** Utils *)

Definition keep_char (c : ascii) : bool :=
  (JS.is_digit c || Ascii.eqb c "." || Ascii.eqb c "-")%bool.

(** [v.replace(/[^\d.\-]+/g, "")]: every run of characters other than
    digits, [.] and [-] is removed. *)
Definition strip_units (v : string) : string :=
  string_of_list_ascii (List.filter keep_char (list_ascii_of_string v)).

Definition numFromUnitString (v : option string) : number :=
  match v with
  | None => JS.pos_zero
  | Some EmptyString => JS.pos_zero
  | Some s =>
      let n := JS.parseFloat (strip_units s) in
      if JS.isNaN n then JS.pos_zero else n
  end.

Definition toFixedSafe (n : number) (d : nat) : string :=
  if JS.isFinite n then JS.toFixed n d else "0.0"%string.

(** ** The daily totals *)

Definition zeroTotals : Totals :=
  {| kcal := JS.pos_zero; protein := JS.pos_zero;
     fat := JS.pos_zero; carbs := JS.pos_zero |}.

(** One step of the four running sums ([totalKcal += ...] and the like). *)
Definition addItem (acc : Totals) (item : NutrientItem) : Totals :=
  {| kcal := JS.add (kcal acc) (numFromUnitString (カロリー item));
     protein := JS.add (protein acc) (numFromUnitString (たんぱく質 item));
     fat := JS.add (fat acc) (numFromUnitString (脂質 item));
     carbs := JS.add (carbs acc) (numFromUnitString (炭水化物 item)) |}.

(** [Number(toFixedSafe(x, 1))] on each sum. *)
Definition roundTotals (t : Totals) : Totals :=
  {| kcal := JS.Number (toFixedSafe (kcal t) 1);
     protein := JS.Number (toFixedSafe (protein t) 1);
     fat := JS.Number (toFixedSafe (fat t) 1);
     carbs := JS.Number (toFixedSafe (carbs t) 1) |}.

Definition getTotalForDate (dailyRecords : DailyRecords) (date : string) : Totals :=
  match dailyRecords !! date with
  | None => zeroTotals
  | Some records =>
      roundTotals
        (fold_left
           (fun acc mealTimes =>
              fold_left (fun acc meal => fold_left addItem meal acc) mealTimes acc)
           (values records) zeroTotals)
  end.

(** ** The meal scaler, as [callGPT] runs it on an array *)

(** [kcalSum], [proteinSum], [fatSum], [carbSum] after the [forEach]. *)
Definition rawSums (arr : list NutrientItem) : Totals :=
  fold_left addItem arr zeroTotals.

Definition mealRatiosCalc (calorieSplit : CalorieSplit) (t : MealTime) : number :=
  match t with
  | 朝 => JS.div (morning calorieSplit) (JS.of_Z 100)
  | 昼 => JS.div (lunch calorieSplit) (JS.of_Z 100)
  | 夜 => JS.div (dinner calorieSplit) (JS.of_Z 100)
  end.

(** [mealRatiosCalc[mealTime] * goalCalories], the calorie budget of the slot. *)
Definition slotBudget (goalCalories : number) (calorieSplit : CalorieSplit)
    (t : MealTime) : number :=
  JS.mul (mealRatiosCalc calorieSplit t) goalCalories.

(** [kcalSum || 1]. *)
Definition scaleBase (kcalSum : number) : number :=
  if JS.truthy kcalSum then kcalSum else JS.of_Z 1.

Definition scaleFactor (budget kcalSum : number) : number :=
  JS.div budget (scaleBase kcalSum).

(** The item built by the [map] callback: the spread keeps every field, the
    four magnitudes are replaced. *)
Definition scaleItem (factor : number) (item : NutrientItem) : NutrientItem :=
  let kcal := numFromUnitString (カロリー item) in
  let protein := numFromUnitString (たんぱく質 item) in
  let fat := numFromUnitString (脂質 item) in
  let carb := numFromUnitString (炭水化物 item) in
  {| 材料名 := 材料名 item;
     数量 := 数量 item;
     重量 := 重量 item;
     カロリー := Some (toFixedSafe (JS.mul kcal factor) 1 +:+ "kcal");
     たんぱく質 := Some (toFixedSafe (JS.mul protein factor) 1 +:+ "g");
     脂質 := Some (toFixedSafe (JS.mul fat factor) 1 +:+ "g");
     炭水化物 := Some (toFixedSafe (JS.mul carb factor) 1 +:+ "g") |}.

Definition scaledIngredients (factor : number) (arr : list NutrientItem)
  : list NutrientItem :=
  map (scaleItem factor) arr.

(** The four totals handed to [setTotalCalories] ... [setTotalCarbs]. *)
Definition scaledTotals (factor : number) (sums : Totals) : Totals :=
  {| kcal := JS.Number (toFixedSafe (JS.mul (kcal sums) factor) 1);
     protein := JS.Number (toFixedSafe (JS.mul (protein sums) factor) 1);
     fat := JS.Number (toFixedSafe (JS.mul (fat sums) factor) 1);
     carbs := JS.Number (toFixedSafe (JS.mul (carbs sums) factor) 1) |}.

(** The scaler as one function of the items and the budget of the slot. *)
Definition scaleMeal (items : list NutrientItem) (targetBudget : number)
  : list NutrientItem * Totals :=
  let sums := rawSums items in
  let factor := scaleFactor targetBudget (kcal sums) in
  (scaledIngredients factor items, scaledTotals factor sums).

(** ** The ledger update *)

Definition emptyDay : DayRecord :=
  {| meals朝 := []; meals昼 := []; meals夜 := [] |}.

(** [record[mealTime].push(meal)]. *)
Definition push (r : DayRecord) (t : MealTime) (meal : list NutrientItem)
  : DayRecord :=
  match t with
  | 朝 => {| meals朝 := meals朝 r ++ [meal]; meals昼 := meals昼 r; meals夜 := meals夜 r |}
  | 昼 => {| meals朝 := meals朝 r; meals昼 := meals昼 r ++ [meal]; meals夜 := meals夜 r |}
  | 夜 => {| meals朝 := meals朝 r; meals昼 := meals昼 r; meals夜 := meals夜 r ++ [meal] |}
  end.

(** The updater given to [setDailyRecords], on the ledger as a value: the
    day is created with three empty slots when the key is missing, then the
    meal is pushed.  This is the ledger the component holds after the update;
    [setDailyRecordsUpdater] below is the same update on shared objects. *)
Definition append (prev : DailyRecords) (dateKey : string) (mealTime : MealTime)
    (meal : list NutrientItem) : DailyRecords :=
  let day := match prev !! dateKey with Some r => r | None => emptyDay end in
  <[dateKey := push day mealTime meal]> prev.

(** The same updater on the objects it works on.  The copy [{ ...prev }] is
    shallow: it is a new top-level object whose properties hold the day
    records of [prev] themselves, and [push] changes the slot array inside
    such a record in place.  The day records live in a heap; a ledger object
    maps a date to the address of its record. *)
Abbreviation loc := positive.
Abbreviation Heap := (gmap loc DayRecord).
Abbreviation LedgerObject := (gmap string loc).

(** The ledger a ledger object stands for in a heap. *)
Definition deref (h : Heap) (o : LedgerObject) : DailyRecords :=
  omap (fun a => h !! a) o.

Definition setDailyRecordsUpdater (h : Heap) (prev : LedgerObject)
    (dateKey : string) (mealTime : MealTime) (meal : list NutrientItem)
  : Heap * LedgerObject :=
  let updated := prev in
  let '(h1, updated1) :=
    match updated !! dateKey with
    | Some _ => (h, updated)
    | None =>
        let a := fresh (dom h) in
        (<[a := emptyDay]> h, <[dateKey := a]> updated)
    end in
  match updated1 !! dateKey with
  | Some a => (alter (fun r => push r mealTime meal) a h1, updated1)
  | None => (h1, updated1)
  end.

(** Every date of the object has its record in the heap, and no record is
    shared by two dates. *)
Definition well_formed (h : Heap) (o : LedgerObject) : Prop :=
  (forall d a, o !! d = Some a -> is_Some (h !! a)) /\
  (forall d1 d2 a, o !! d1 = Some a -> o !! d2 = Some a -> d1 = d2).

(** ** The component state and [callGPT] *)

(** The state variables the extraction reads or writes.  The recipe
    bookkeeping ([recipeName], [registeredRecipes], the editing fields),
    [goalType] and [pfcGrams] are read by no function modelled here. *)
Record AppState : Type := {
  inputText : string;
  ingredients : list NutrientItem;
  totalCalories : number;
  totalProtein : number;
  totalFat : number;
  totalCarbs : number;
  goalCalories : number;
  calorieSplit : CalorieSplit;
  mealTime : MealTime;
  dailyRecords : DailyRecords;
  loading : bool
}.

(** A parsed message in which every value has the type the casts of the
    source give it: an array of items; an object that is not an array, with
    its [ingredients] property when that is an array of items and with the
    object itself as an item; or [null].  [parsedJSON] below gives the value
    it stands for; a message of any other content is a [json] value, and
    [handleReply] covers them all. *)
Inductive Parsed : Type :=
| ParsedArray (arr : list NutrientItem)
| ParsedObject (ingredientsProp : option (list NutrientItem)) (obj : NutrientItem)
| ParsedOther.

(** How a request ended whose message, if any, has the declared types. *)
Inductive Extraction : Type :=
| FetchFailed
| NoMessage
| NotJSON
| Message (parsed : Parsed).

Inductive Notice : Type :=
| AskForInput
| NoApiResponse
| NotJSONReply
| UnexpectedShape
| RequestError.

Definition withResult (st : AppState) (shown : list NutrientItem)
    (t : Totals) (records : DailyRecords) : AppState :=
  {| inputText := inputText st;
     ingredients := shown;
     totalCalories := kcal t;
     totalProtein := protein t;
     totalFat := fat t;
     totalCarbs := carbs t;
     goalCalories := goalCalories st;
     calorieSplit := calorieSplit st;
     mealTime := mealTime st;
     dailyRecords := records;
     loading := false |}.

Definition shownTotals (st : AppState) : Totals :=
  {| kcal := totalCalories st; protein := totalProtein st;
     fat := totalFat st; carbs := totalCarbs st |}.

(** The branches on a parsed message of the declared types, where every
    magnitude is a string or is missing and no read throws.  [dateKey] is
    [todayISO()]. *)
Definition handleParsed (st : AppState) (dateKey : string) (parsed : Parsed)
  : AppState * option Notice :=
  match parsed with
  | ParsedArray arr =>
      let sums := rawSums arr in
      let factor :=
        scaleFactor (slotBudget (goalCalories st) (calorieSplit st) (mealTime st))
          (kcal sums) in
      let scaled := scaledIngredients factor arr in
      (withResult st scaled (scaledTotals factor sums)
         (append (dailyRecords st) dateKey (mealTime st) scaled), None)
  | ParsedObject (Some arr) _ =>
      let total :=
        fold_left (fun sum item => JS.add sum (numFromUnitString (カロリー item)))
          arr JS.pos_zero in
      (withResult st arr
         {| kcal := total; protein := totalProtein st;
            fat := totalFat st; carbs := totalCarbs st |}
         (dailyRecords st), None)
  | ParsedObject None obj =>
      (withResult st [obj]
         {| kcal := numFromUnitString (カロリー obj); protein := totalProtein st;
            fat := totalFat st; carbs := totalCarbs st |}
         (dailyRecords st), None)
  | ParsedOther =>
      (withResult st (ingredients st) (shownTotals st) (dailyRecords st),
       Some UnexpectedShape)
  end.

(** *** The message as [JSON.parse] gives it *)

(** The values of JSON.  An object lists its properties, each key once. *)
#[warnings="-register-all"]
Inductive json : Type :=
| JNull
| JBool (b : bool)
| JNum (n : number)
| JStr (s : string)
| JArr (items : list json)
| JObj (properties : list (string * json)).

(** [o[k]]: the value of the property [k], none ([undefined]) when the object
    has no such property. *)
Fixpoint get (k : string) (properties : list (string * json)) : option json :=
  match properties with
  | (k', v) :: r => if String.eqb k k' then Some v else get k r
  | [] => None
  end.

(** [v.k] for one of the keys the page reads: no result when [v] is [null]
    and the read throws; [undefined] (no value) when [v] has no such
    property, as for an array, a string, a number and a boolean. *)
Definition property (k : string) (v : json) : option (option json) :=
  match v with
  | JNull => None
  | JObj properties => Some (get k properties)
  | _ => Some None
  end.

(** [!v] is [negb (truthyValue v)]. *)
Definition truthyValue (v : json) : bool :=
  match v with
  | JNull => false
  | JBool b => b
  | JNum n => JS.truthy n
  | JStr EmptyString => false
  | JStr _ | JArr _ | JObj _ => true
  end.

(** [numFromUnitString(v)] at run time, where [v] may be a value of any
    type: 0 for [undefined] and for a falsy value; the parsed magnitude for a
    string; no result for a truthy value that is not a string, which has no
    [replace] method, so that the call throws. *)
Definition numFromUnitStringOf (v : option json) : option number :=
  match v with
  | None => Some (numFromUnitString None)
  | Some (JStr s) => Some (numFromUnitString (Some s))
  | Some v' => if truthyValue v' then None else Some JS.pos_zero
  end.

(** [numFromUnitString(item.k)]; no result when the read or the call
    throws. *)
Definition magnitude (k : string) (item : json) : option number :=
  match property k item with
  | Some v => numFromUnitStringOf v
  | None => None
  end.

Definition stringProperty (k : string) (item : json) : option string :=
  match property k item with
  | Some (Some (JStr s)) => Some s
  | _ => None
  end.

(** The item a value is when read through the type [NutrientItem]: the
    seven properties that are strings.  A property of another type is not
    kept: the page does not compute with it. *)
Definition asItem (item : json) : NutrientItem :=
  {| 材料名 := match stringProperty "材料名" item with Some s => s | None => "" end;
     数量 := stringProperty "数量" item;
     重量 := stringProperty "重量" item;
     カロリー := stringProperty "カロリー" item;
     たんぱく質 := stringProperty "たんぱく質" item;
     脂質 := stringProperty "脂質" item;
     炭水化物 := stringProperty "炭水化物" item |}.

(** The four magnitudes of the item can be read. *)
Definition readable (item : json) : bool :=
  match magnitude "カロリー" item, magnitude "たんぱく質" item,
        magnitude "脂質" item, magnitude "炭水化物" item with
  | Some _, Some _, Some _, Some _ => true
  | _, _, _, _ => false
  end.

(** [arr.reduce((sum, item) => sum + numFromUnitString(item.カロリー), 0)];
    no result when a read throws. *)
Definition sumCalories (items : list json) : option number :=
  fold_left
    (fun sum item =>
       match sum, magnitude "カロリー" item with
       | Some s, Some v => Some (JS.add s v)
       | _, _ => None
       end)
    items (Some JS.pos_zero).

(** How the request for an extraction ended: the fetch or the decoding of
    the response threw; there was no message; the message was not JSON; or
    the message parsed to a value. *)
Inductive Reply : Type :=
| RequestThrew
| NoContent
| NotParsable
| Content (parsed : json).

(** The branches on the parsed message, for a message of any content.  An
    exception thrown by a read ends in the [catch] of the inner [try]: the
    notice is the one for a message that is not JSON, and what was set before
    the throw stays set.  In the array branch the sums are computed first, so
    nothing is set; in the two object branches the list shown is set before
    the calories are read. *)
Definition handleReply (st : AppState) (dateKey : string) (parsed : json)
  : AppState * option Notice :=
  let unchanged :=
    withResult st (ingredients st) (shownTotals st) (dailyRecords st) in
  match parsed with
  | JArr items =>
      if forallb readable items
      then handleParsed st dateKey (ParsedArray (map asItem items))
      else (unchanged, Some NotJSONReply)
  | JObj properties =>
      match get "ingredients" properties with
      | Some (JArr items) =>
          match sumCalories items with
          | Some _ =>
              handleParsed st dateKey
                (ParsedObject (Some (map asItem items)) (asItem parsed))
          | None =>
              (withResult st (map asItem items) (shownTotals st) (dailyRecords st),
               Some NotJSONReply)
          end
      | _ =>
          match magnitude "カロリー" parsed with
          | Some _ => handleParsed st dateKey (ParsedObject None (asItem parsed))
          | None =>
              (withResult st [asItem parsed] (shownTotals st) (dailyRecords st),
               Some NotJSONReply)
          end
      end
  | JNull | JBool _ | JNum _ | JStr _ => (unchanged, Some UnexpectedShape)
  end.

(** [callGPT], from the click to the end of the [finally] block; the fetch
    is the outcome [reply]. *)
Definition callGPT (st : AppState) (dateKey : string) (reply : Reply)
  : AppState * option Notice :=
  match inputText st with
  | EmptyString => (st, Some AskForInput)
  | _ =>
      let unchanged :=
        withResult st (ingredients st) (shownTotals st) (dailyRecords st) in
      match reply with
      | RequestThrew => (unchanged, Some RequestError)
      | NoContent => (unchanged, Some NoApiResponse)
      | NotParsable => (unchanged, Some NotJSONReply)
      | Content parsed => handleReply st dateKey parsed
      end
  end.

(** *** Messages of the declared types as values *)

Definition optionalProperty (k : string) (v : option string)
  : list (string * json) :=
  match v with
  | Some s => [(k, JStr s)]
  | None => []
  end.

Definition itemProperties (item : NutrientItem) : list (string * json) :=
  ("材料名"%string, JStr (材料名 item)) ::
  optionalProperty "数量" (数量 item) ++
  optionalProperty "重量" (重量 item) ++
  optionalProperty "カロリー" (カロリー item) ++
  optionalProperty "たんぱく質" (たんぱく質 item) ++
  optionalProperty "脂質" (脂質 item) ++
  optionalProperty "炭水化物" (炭水化物 item).

Definition itemJSON (item : NutrientItem) : json := JObj (itemProperties item).

Definition parsedJSON (parsed : Parsed) : json :=
  match parsed with
  | ParsedArray arr => JArr (map itemJSON arr)
  | ParsedObject ingredientsProp obj =>
      JObj (itemProperties obj ++
            match ingredientsProp with
            | Some arr => [("ingredients"%string, JArr (map itemJSON arr))]
            | None => []
            end)
  | ParsedOther => JNull
  end.

Definition replyOf (ext : Extraction) : Reply :=
  match ext with
  | FetchFailed => RequestThrew
  | NoMessage => NoContent
  | NotJSON => NotParsable
  | Message parsed => Content (parsedJSON parsed)
  end.

Coercion replyOf : Extraction >-> Reply.

(** The events that change the modelled state: the input handlers of the
    form and the extraction. *)
Inductive Event : Type :=
| SetInputText (v : string)
| SetGoalCalories (v : number)
| SetCalorieSplit (v : CalorieSplit)
| SetMealTime (v : MealTime)
| CallGPT (dateKey : string) (reply : Reply).

Definition step (st : AppState) (ev : Event) : AppState :=
  match ev with
  | SetInputText v =>
      {| inputText := v; ingredients := ingredients st;
         totalCalories := totalCalories st; totalProtein := totalProtein st;
         totalFat := totalFat st; totalCarbs := totalCarbs st;
         goalCalories := goalCalories st; calorieSplit := calorieSplit st;
         mealTime := mealTime st; dailyRecords := dailyRecords st;
         loading := loading st |}
  | SetGoalCalories v =>
      {| inputText := inputText st; ingredients := ingredients st;
         totalCalories := totalCalories st; totalProtein := totalProtein st;
         totalFat := totalFat st; totalCarbs := totalCarbs st;
         goalCalories := v; calorieSplit := calorieSplit st;
         mealTime := mealTime st; dailyRecords := dailyRecords st;
         loading := loading st |}
  | SetCalorieSplit v =>
      {| inputText := inputText st; ingredients := ingredients st;
         totalCalories := totalCalories st; totalProtein := totalProtein st;
         totalFat := totalFat st; totalCarbs := totalCarbs st;
         goalCalories := goalCalories st; calorieSplit := v;
         mealTime := mealTime st; dailyRecords := dailyRecords st;
         loading := loading st |}
  | SetMealTime v =>
      {| inputText := inputText st; ingredients := ingredients st;
         totalCalories := totalCalories st; totalProtein := totalProtein st;
         totalFat := totalFat st; totalCarbs := totalCarbs st;
         goalCalories := goalCalories st; calorieSplit := calorieSplit st;
         mealTime := v; dailyRecords := dailyRecords st;
         loading := loading st |}
  | CallGPT dateKey reply => fst (callGPT st dateKey reply)
  end.

(** The state the component starts in. *)
Definition initialState : AppState :=
  {| inputText := ""; ingredients := [];
     totalCalories := JS.pos_zero; totalProtein := JS.pos_zero;
     totalFat := JS.pos_zero; totalCarbs := JS.pos_zero;
     goalCalories := JS.of_Z 1200;
     calorieSplit := {| morning := JS.of_Z 30; lunch := JS.of_Z 40;
                        dinner := JS.of_Z 30 |};
     mealTime := 朝; dailyRecords := ∅; loading := false |}.

(** ** The proxy handler ([api/chat.ts]) *)

Module Proxy.

(** The values a request body or a reply can hold. *)
#[warnings="-register-all"]
Inductive value : Type :=
| VUndefined
| VNull
| VBool (b : bool)
| VNum (n : number)
| VStr (s : string)
| VArr (items : list value)
| VObj (fields : list (string * value)).

(** [!v] is [negb (truthy v)]. *)
Definition truthy (v : value) : bool :=
  match v with
  | VUndefined | VNull => false
  | VBool b => b
  | VNum n => JS.truthy n
  | VStr EmptyString => false
  | VStr _ | VArr _ | VObj _ => true
  end.

Fixpoint lookup_field (k : string) (fields : list (string * value)) : value :=
  match fields with
  | (k', v) :: r => if String.eqb k k' then v else lookup_field k r
  | [] => VUndefined
  end.

(** [const { prompt } = req.body ?? {}]: a missing or [null] body reads as
    the empty object, and only an object has a [prompt] of its own. *)
Definition prompt_of (body : value) : value :=
  match body with
  | VObj fields => lookup_field "prompt" fields
  | _ => VUndefined
  end.

Record Request : Type := {
  method : string;
  body : value
}.

(** What the call to the upstream API does: it throws (the fetch or the
    decoding of the reply), or it replies with a status and a body. *)
Inductive Upstream : Type :=
| Throws (message : string)
| Replies (status : Z) (data : value).

Inductive Payload : Type :=
| End_
| Json (v : value).

Record Response : Type := {
  status : Z;
  payload : Payload;
  headers : list (string * string)
}.

Definition cors : list (string * string) :=
  [("Access-Control-Allow-Origin", "*");
   ("Access-Control-Allow-Methods", "POST, OPTIONS");
   ("Access-Control-Allow-Headers", "Content-Type")]%string.

Definition reply (code : Z) (p : Payload) : Response :=
  {| status := code; payload := p; headers := cors |}.

Definition error (msg : string) : value := VObj [("error", VStr msg)]%string.

(** [apiKey] is [process.env.OPENAI_API_KEY]. *)
Definition handler (req : Request) (apiKey : option string) (up : Upstream)
  : Response :=
  if String.eqb (method req) "OPTIONS" then reply 200 End_
  else if negb (String.eqb (method req) "POST")
  then reply 405 (Json (error "Method not allowed"))
  else if negb (truthy (prompt_of (body req)))
  then reply 400 (Json (error "Missing prompt"))
  else
    match apiKey with
    | None | Some EmptyString =>
        reply 500 (Json (error "Server misconfig: OPENAI_API_KEY missing"))
    | Some _ =>
        match up with
        | Replies code data => reply code (Json data)
        | Throws message =>
            reply 500 (Json (VObj [("error", VStr "Server error");
                                   ("detail", VStr message)]%string))
        end
    end.

End Proxy.

(** ** The recipe list *)

(** The component state after the [finally] block of a request, when
    nothing else was changed. *)
Definition doneLoading (st : AppState) : AppState :=
  withResult st (ingredients st) (shownTotals st) (dailyRecords st).

Module Recipes.

Record RegisteredRecipe : Type := {
  name : string;
  ingredients : list NutrientItem
}.

(** The state variables of the recipe bookkeeping; [inputText] and
    [loading] are those of [AppState]. *)
Record State : Type := {
  recipeName : string;
  registeredRecipes : list RegisteredRecipe;
  editingIndex : option nat;
  editedName : string;
  editedIngredients : string
}.

Inductive Notice : Type :=
| AskForNameAndText
| NoReply
| NotAnArray
| ReplyNotJSON
| RequestFailed.

(** The prompt of [registerRecipe]: the template holds the string literal
    ["${inputText}"] between two line feeds, not the state variable. *)
Definition registerPrompt : string :=
  String "010" ("${inputText}" +:+ String "010" EmptyString).

Definition withRecipes (rs : State) (l : list RegisteredRecipe) : State :=
  {| recipeName := recipeName rs; registeredRecipes := l;
     editingIndex := editingIndex rs; editedName := editedName rs;
     editedIngredients := editedIngredients rs |}.

(** [registerRecipe], from the click to the end of the [finally] block;
    [gpt] is what the request gives for a prompt. *)
Definition registerRecipe (app : AppState) (rs : State)
    (gpt : string -> Extraction) : AppState * State * option Notice :=
  match recipeName rs, inputText app with
  | EmptyString, _ | _, EmptyString => (app, rs, Some AskForNameAndText)
  | _, _ =>
      match gpt registerPrompt with
      | FetchFailed => (doneLoading app, rs, Some RequestFailed)
      | NoMessage => (doneLoading app, rs, Some NoReply)
      | NotJSON => (doneLoading app, rs, Some ReplyNotJSON)
      | Message (ParsedArray parsed) =>
          let newRecipe := {| name := recipeName rs; ingredients := parsed |} in
          (doneLoading app,
           withRecipes rs (registeredRecipes rs ++ [newRecipe]), None)
      | Message _ => (doneLoading app, rs, Some NotAnArray)
      end
  end.

(** The text shown for one ingredient: the name, and the quantity after a
    space when there is one. *)
Definition ingredientText (ing : NutrientItem) : string :=
  材料名 ing +:+
  match 数量 ing with
  | Some (String _ _ as q) => " " +:+ q
  | _ => ""
  end.

(** [startEditRecipe(index)]; no result when [registeredRecipes[index]] is
    undefined and reading its [name] throws. *)
Definition startEditRecipe (rs : State) (index : nat) : option State :=
  match registeredRecipes rs !! index with
  | Some r =>
      Some {| recipeName := recipeName rs;
              registeredRecipes := registeredRecipes rs;
              editingIndex := Some index;
              editedName := name r;
              editedIngredients :=
                String.concat "、" (map ingredientText (ingredients r)) |}
  | None => None
  end.

(** What [saveEditedRecipe] does: nothing when no recipe is edited; an alert
    when the name or the ingredients text is empty; the recipe at the index
    renamed; or, for an index past the end, an array extended by empty slots
    and an entry that has a name and no ingredients. *)
Inductive SaveOutcome : Type :=
| NotEditing
| Refused
| Saved (rs' : State)
| PastTheEnd (emptySlots : nat) (entryName : string).

Definition saveEditedRecipe (rs : State) : SaveOutcome :=
  match editingIndex rs with
  | None => NotEditing
  | Some i =>
      match editedName rs, editedIngredients rs with
      | EmptyString, _ | _, EmptyString => Refused
      | _, _ =>
          match registeredRecipes rs !! i with
          | Some r =>
              Saved {| recipeName := recipeName rs;
                       registeredRecipes :=
                         <[i := {| name := editedName rs;
                                   ingredients := ingredients r |}]>
                           (registeredRecipes rs);
                       editingIndex := None;
                       editedName := editedName rs;
                       editedIngredients := editedIngredients rs |}
          | None => PastTheEnd (i - length (registeredRecipes rs)) (editedName rs)
          end
      end
  end.

(** [deleteRecipe(index)]: [splice(index, 1)] on a copy. *)
Definition deleteRecipe (rs : State) (index : nat) : State :=
  withRecipes rs (delete index (registeredRecipes rs)).

(** The controls of the page: those of the recipe part, and the events of
    the rest of the component. *)
Inductive Action : Type :=
| SetRecipeName (v : string)
| OnApp (ev : Event)
| Register (gpt : string -> Extraction)
| StartEdit (idx : nat)
| SetEditedName (v : string)
| SetEditedIngredients (v : string)
| Save
| Cancel
| Delete (idx : nat).

(** The row [idx] is on the page and shows its recipe (not the form). *)
Definition shown (rs : State) (idx : nat) : bool :=
  (idx <? length (registeredRecipes rs))%nat &&
  negb (bool_decide (editingIndex rs = Some idx)).

(** The form is on the page: a row of the list is the one edited. *)
Definition editing (rs : State) : bool :=
  match editingIndex rs with
  | Some i => (i <? length (registeredRecipes rs))%nat
  | None => false
  end.

(** One action on a control that is on the page; none for a control that
    is not there. *)
Definition act (c : AppState * State) (a : Action) : option (AppState * State) :=
  let '(app, rs) := c in
  match a with
  | SetRecipeName v =>
      Some (app, {| recipeName := v; registeredRecipes := registeredRecipes rs;
                    editingIndex := editingIndex rs; editedName := editedName rs;
                    editedIngredients := editedIngredients rs |})
  | OnApp ev => Some (step app ev, rs)
  | Register gpt =>
      if loading app then None else Some (fst (registerRecipe app rs gpt))
  | StartEdit idx => if shown rs idx then pair app <$> startEditRecipe rs idx else None
  | SetEditedName v =>
      if editing rs then
        Some (app, {| recipeName := recipeName rs;
                      registeredRecipes := registeredRecipes rs;
                      editingIndex := editingIndex rs; editedName := v;
                      editedIngredients := editedIngredients rs |})
      else None
  | SetEditedIngredients v =>
      if editing rs then
        Some (app, {| recipeName := recipeName rs;
                      registeredRecipes := registeredRecipes rs;
                      editingIndex := editingIndex rs; editedName := editedName rs;
                      editedIngredients := v |})
      else None
  | Save =>
      if editing rs then
        match saveEditedRecipe rs with
        | Saved rs' => Some (app, rs')
        | NotEditing | Refused => Some (app, rs)
        | PastTheEnd _ _ => None
        end
      else None
  | Cancel =>
      if editing rs then
        Some (app, {| recipeName := recipeName rs;
                      registeredRecipes := registeredRecipes rs;
                      editingIndex := None; editedName := editedName rs;
                      editedIngredients := editedIngredients rs |})
      else None
  | Delete idx => if shown rs idx then Some (app, deleteRecipe rs idx) else None
  end.

Fixpoint acts (c : AppState * State) (l : list Action) : option (AppState * State) :=
  match l with
  | [] => Some c
  | a :: r => match act c a with Some c' => acts c' r | None => None end
  end.

Definition initial : State :=
  {| recipeName := ""; registeredRecipes := []; editingIndex := None;
     editedName := ""; editedIngredients := "" |}.

(** Every registered recipe has a name. *)
Definition named (rs : State) : Prop :=
  Forall (fun r => name r <> ""%string) (registeredRecipes rs).

(** The ingredient lists of the registered recipes, in order. *)
Definition ingredientLists (rs : State) : list (list NutrientItem) :=
  map ingredients (registeredRecipes rs).

Definition rename (v : string) (r : RegisteredRecipe) : RegisteredRecipe :=
  {| name := v; ingredients := ingredients r |}.

End Recipes.

(** ** The request the proxy sends on *)

Module ProxyCall.
Import Proxy.

(** What the handler passes to [fetch]: the [Authorization] header, the
    model, and the role and the content of the one message. *)
Record UpstreamRequest : Type := {
  authorization : string;
  model : string;
  role : string;
  content : value
}.

Definition upstreamRequest (apiKey : string) (prompt : value) : UpstreamRequest :=
  {| authorization := "Bearer " +:+ apiKey;
     model := "gpt-4.1-mini";
     role := "user";
     content := prompt |}.

(** The handler with the upstream service as a function of the request it
    is sent. *)
Definition serve (req : Request) (apiKey : option string)
    (fetch : UpstreamRequest -> Upstream) : Response :=
  if String.eqb (method req) "OPTIONS" then reply 200 End_
  else if negb (String.eqb (method req) "POST")
  then reply 405 (Json (error "Method not allowed"))
  else
    let prompt := prompt_of (body req) in
    if negb (truthy prompt)
    then reply 400 (Json (error "Missing prompt"))
    else
      match apiKey with
      | None | Some EmptyString =>
          reply 500 (Json (error "Server misconfig: OPENAI_API_KEY missing"))
      | Some key =>
          match fetch (upstreamRequest key prompt) with
          | Replies code data => reply code (Json data)
          | Throws message =>
              reply 500 (Json (VObj [("error", VStr "Server error");
                                     ("detail", VStr message)]%string))
          end
      end.

(** The requests that are passed on. *)
Definition passedOn (req : Request) (apiKey : option string) : bool :=
  String.eqb (method req) "POST" && truthy (prompt_of (body req)) &&
  match apiKey with Some (String _ _) => true | _ => false end.

End ProxyCall.

(** ** The bars of the page *)

(** [Math.min(a, b)]: NaN when one of the two is, the smaller one
    otherwise, and -0 for the two zeros. *)
Definition Math_min (a b : number) : number :=
  match SFcompare a b with
  | Some Lt => a
  | Some Gt => b
  | Some Eq =>
      match a, b with
      | S754_zero true, _ => a
      | _, S754_zero true => b
      | _, _ => a
      end
  | None => JS.NaN
  end.

(** The width, in percent, of the bar of a total:
    [Math.min((total / 100) * 100, 100)]. *)
Definition totalBarWidth (total : number) : number :=
  Math_min (JS.mul (JS.div total (JS.of_Z 100)) (JS.of_Z 100)) (JS.of_Z 100).

(** The width, in percent, of the bar of one item: [(v / max) * 100] with
    [max = 100]. *)
Definition itemBarWidth (v : number) : number :=
  let max := JS.of_Z 100 in
  JS.mul (JS.div v max) (JS.of_Z 100).

(** * Definitions of the statements *)

(** ** The ledger *)

(** The meals recorded for a date and a slot, none when the date is absent. *)
Definition mealsAt (L : DailyRecords) (d : string) (t : MealTime)
  : list (list NutrientItem) :=
  match L !! d with
  | Some r => slot r t
  | None => []
  end.

(** Every item of every meal of every slot of a day, in the order the
    totals visit them. *)
Definition dayItems (r : DayRecord) : list NutrientItem :=
  concat (concat (values r)).

Definition itemsOn (L : DailyRecords) (d : string) : list NutrientItem :=
  match L !! d with
  | Some r => dayItems r
  | None => []
  end.

(** The steps [getTotalForDate] runs on the items of a day: the items are
    parsed and summed, each sum is then rounded to one decimal.  The source
    has no function for them; the specification calls them the aggregator,
    and [aggregate] below is the aggregator in the specification's words. *)
Definition sumItems (items : list NutrientItem) : Totals :=
  roundTotals (fold_left addItem items zeroTotals).

(** The same meal appended [n] times to one date and slot. *)
Fixpoint appendTimes (n : nat) (L : DailyRecords) (d : string) (t : MealTime)
    (meal : list NutrientItem) : DailyRecords :=
  match n with
  | O => L
  | S k => append (appendTimes k L d t meal) d t meal
  end.

(** The ledgers the application can hold: the empty one and what [append]
    makes of them; [appended] lists the keys appended to. *)
Inductive Ledger : DailyRecords -> list string -> Prop :=
| Ledger_empty : Ledger ∅ []
| Ledger_append L ds d t meal :
    Ledger L ds -> Ledger (append L d t meal) (d :: ds).

(** ** The budget of a slot *)

(** The percentage a split gives to a slot. *)
Definition percentage (split : CalorieSplit) (t : MealTime) : number :=
  match t with
  | 朝 => morning split
  | 昼 => lunch split
  | 夜 => dinner split
  end.

Definition splitOf (a b c : Z) : CalorieSplit :=
  {| morning := JS.of_Z a; lunch := JS.of_Z b; dinner := JS.of_Z c |}.

(** ** The token [parseFloat] reads from the kept characters *)

(** What [parseFloat] finds at the start of a string of kept characters: an
    optional leading minus sign, the run of digits that follows and, after
    an optional decimal point, a second run of digits; no token when both
    runs are empty. *)
Definition keptToken (s : list ascii)
  : option (bool * list ascii * list ascii) :=
  let '(neg, r) :=
    match s with
    | c :: r => if Ascii.eqb c "-" then (true, r) else (false, s)
    | [] => (false, [])
    end in
  let '(ip, r1) := JS.span_digits r in
  let fp :=
    match r1 with
    | c :: r2 => if Ascii.eqb c "." then fst (JS.span_digits r2) else []
    | [] => []
    end in
  match ip, fp with
  | [], [] => None
  | _, _ => Some (neg, ip, fp)
  end.

Definition keptMagnitude (v : option string) : number :=
  match v with
  | None => JS.pos_zero
  | Some s =>
      match keptToken (List.filter keep_char (list_ascii_of_string s)) with
      | None => JS.pos_zero
      | Some (neg, ip, fp) =>
          JS.of_decimal neg (JS.digits_value 0 (ip ++ fp)) (- Z.of_nat (length fp))
      end
  end.

(** ** The unit parser of the specification *)

(** The specification on its own terms.  The ten digits in order: a
    character is a digit when it is one of them, and stands for its place. *)
Definition digitCharacters : list ascii := list_ascii_of_string "0123456789".

Fixpoint placeIn (l : list ascii) (c : ascii) : option N :=
  match l with
  | d :: r => if Ascii.eqb c d then Some 0%N else option_map N.succ (placeIn r c)
  | [] => None
  end.

Definition digitOf (c : ascii) : option N := placeIn digitCharacters c.

(** Every character other than a digit, the point and the minus sign is
    discarded. *)
Definition discarded (c : ascii) : bool :=
  match digitOf c with
  | Some _ => false
  | None => negb (Ascii.eqb c "." || Ascii.eqb c "-")
  end.

(** The digits a string starts with, and what follows them. *)
Fixpoint leadingDigits (s : list ascii) : list N * list ascii :=
  match s with
  | c :: r =>
      match digitOf c with
      | Some d => let '(ds, rest) := leadingDigits r in (d :: ds, rest)
      | None => ([], s)
      end
  | [] => ([], [])
  end.

(** The number a run of digits writes. *)
Definition decimal (ds : list N) : N :=
  fold_left (fun acc d => (10 * acc + d)%N) ds 0%N.

(** The token of the specification, in what is left after discarding: an
    optional leading minus sign, the first run of digits and, after an
    optional decimal point, the digits that follow it; no token when there is
    no digit. *)
Definition magnitudeToken (s : list ascii) : option (bool * list N * list N) :=
  let '(neg, r) :=
    match s with
    | c :: r => if Ascii.eqb c "-" then (true, r) else (false, s)
    | [] => (false, [])
    end in
  let '(ip, r1) := leadingDigits r in
  let fp :=
    match r1 with
    | c :: r2 => if Ascii.eqb c "." then fst (leadingDigits r2) else []
    | [] => []
    end in
  match ip, fp with
  | [], [] => None
  | _, _ => Some (neg, ip, fp)
  end.

(** [parseMagnitude] of the specification: 0 for an absent input and for an
    input without a token; otherwise the Number nearest to the decimal the
    token writes, [ip.fp] with its sign. *)
Definition parseMagnitude (v : option string) : number :=
  match v with
  | None => JS.pos_zero
  | Some s =>
      match magnitudeToken
              (List.filter (fun c => negb (discarded c)) (list_ascii_of_string s)) with
      | None => JS.pos_zero
      | Some (neg, ip, fp) =>
          JS.of_decimal neg (decimal (ip ++ fp)) (- Z.of_nat (length fp))
      end
  end.

(** The character that writes a digit. *)
Definition digitCharacter (d : N) : ascii :=
  nth (N.to_nat d) digitCharacters "0"%char.

(** A magnitude as the extraction writes it: discarded characters, an
    optional minus sign, digits, a point and further digits when there are
    any, and discarded characters. *)
Definition writtenMagnitude (pre : list ascii) (neg : bool) (ip fp : list N)
    (post : list ascii) : string :=
  string_of_list_ascii
    (pre ++ (if neg then ["-"%char] else []) ++ map digitCharacter ip ++
     match fp with
     | [] => []
     | _ => "."%char :: map digitCharacter fp
     end ++ post).

(** The decimal a written magnitude stands for, as a rational. *)
Definition writtenValue (ip fp : list N) : Q :=
  (inject_Z (Z.of_N (decimal (ip ++ fp))) /
   inject_Z (10 ^ Z.of_nat (length fp)))%Q.

(** The digits a run of digit characters writes. *)
Definition digitsOf (ds : list ascii) : list N :=
  map (fun c => match digitOf c with Some d => d | None => 0%N end) ds.

(** ** Numbers and strings *)

(** [x > 0] on Numbers. *)
Definition positive_number (x : number) : bool := SFltb JS.pos_zero x.

(** A finite Number below [10^21] in magnitude, or a Number that is not
    finite: the cases in which [toFixedSafe] writes decimal notation. *)
Definition below_1e21 (x : number) : bool :=
  match x with
  | S754_finite _ m e => negb (JS.at_least_1e21 m e)
  | _ => true
  end.

(** An optional minus sign, at least one digit, a point and one digit. *)
Definition oneDecimal (s : string) : Prop :=
  exists (neg : bool) (ip : list ascii) (c : ascii),
    ip <> [] /\ Forall (fun a => JS.is_digit a = true) ip /\
    JS.is_digit c = true /\
    s = string_of_list_ascii
          ((if neg then ["-"%char] else []) ++ ip ++ ["."%char; c]).

(** The rational a Number stands for (0 for the zeros and for what is not
    finite). *)
Definition exact (x : number) : Q :=
  match x with
  | S754_finite s m e => ((if s then -1 else 1) * inject_Z (Zpos m) * 2 ^ e)%Q
  | _ => 0%Q
  end.

Definition is_zero (x : number) : bool :=
  match x with S754_zero _ => true | _ => false end.

(** ** Rounding in binary64 *)

(** The exponent of the last place of a value with [x] as the exponent of
    its leading bit plus one ([fexp] at precision 53, maximal exponent 1024). *)
Definition fe (x : Z) : Z := Z.max (x - 53) (-1074).

(** [a / b] lies in [[m, m+1)] at the place [l] says. *)
Definition located (a b m : Z) (l : location) : Prop :=
  0 < b /\
  match l with
  | loc_Exact => a = m * b
  | loc_Inexact Lt => m * b < a /\ 2 * (a - m * b) < b
  | loc_Inexact Eq => 2 * (a - m * b) = b
  | loc_Inexact Gt => b < 2 * (a - m * b) /\ a < (m + 1) * b
  end.

(** The magnitude and the sign of a Number. *)
Definition mag (x : number) : Q :=
  match x with
  | S754_finite _ m e => (inject_Z (Zpos m) * 2 ^ e)%Q
  | _ => 0%Q
  end.

Definition sign_of (x : number) : bool :=
  match x with
  | S754_zero s | S754_infinity s | S754_finite s _ _ => s
  | S754_nan => false
  end.

(** [r] is what rounding the rational [v >= 0] with the sign [s] may give:
    an infinity only from [2^1023] on, otherwise a valid Number within half a
    unit in the last place, that is within [v * 2^-53] or, in the subnormal
    range, within [2^-1075]. *)
Definition rounded (r : number) (s : bool) (v : Q) : Prop :=
  valid_binary JS.prec JS.emax r = true /\
  sign_of r = s /\
  match r with
  | S754_nan => False
  | S754_infinity _ => (2 ^ 1023 <= v)%Q
  | _ => (Qabs (mag r - v) <= v * 2 ^ (-53) \/ Qabs (mag r - v) <= 2 ^ (-1075))%Q
  end.

(** ** The aggregator of the specification *)

(** The aggregator as the specification describes it, over the unit parser
    of the specification: for each item the four magnitudes are parsed and
    accumulated, and each accumulator is rounded to one decimal.  One
    accumulator: the magnitudes of a field, parsed by the unit parser
    and added up in the order of the items. *)
Definition accumulate (field : NutrientItem -> option string)
    (items : list NutrientItem) : number :=
  fold_left (fun sum item => JS.add sum (parseMagnitude (field item))) items
    JS.pos_zero.

(** An accumulator rounded to one decimal; one that is not finite is
    reported as 0. *)
Definition oneDecimalOf (x : number) : number :=
  if JS.isFinite x then JS.Number (JS.toFixed x 1) else JS.pos_zero.

(** Half away from zero at the tenths place: the number of tenths nearest
    to a magnitude, the larger of two. *)
Definition nearestTenths (q : Q) : N := Z.to_N (Qfloor (q * 10 + (1 # 2))).

Definition aggregate (items : list NutrientItem) : Totals :=
  {| kcal := oneDecimalOf (accumulate カロリー items);
     protein := oneDecimalOf (accumulate たんぱく質 items);
     fat := oneDecimalOf (accumulate 脂質 items);
     carbs := oneDecimalOf (accumulate 炭水化物 items) |}.

(** ** The appends made to a ledger *)

(** One append: the date, the slot and the meal. *)
Definition Append : Type := string * MealTime * list NutrientItem.

(** The ledger after a sequence of appends, the first one first. *)
Definition afterAppends (L : DailyRecords) (appends : list Append) : DailyRecords :=
  fold_left (fun L '(d, t, meal) => append L d t meal) appends L.

Definition sameSlot (t t' : MealTime) : bool :=
  match t, t' with
  | 朝, 朝 | 昼, 昼 | 夜, 夜 => true
  | _, _ => false
  end.

(** The meals appended to a date and a slot, in the order of the appends. *)
Definition appendedTo (appends : list Append) (d : string) (t : MealTime)
  : list (list NutrientItem) :=
  flat_map (fun '(d', t', meal) =>
              if (String.eqb d' d && sameSlot t' t)%bool then [meal] else [])
    appends.

(** Every item appended to a date: slot by slot, each slot in the order of
    its appends. *)
Definition appendedItems (appends : list Append) (d : string) : list NutrientItem :=
  concat (appendedTo appends d 朝) ++ concat (appendedTo appends d 昼) ++
  concat (appendedTo appends d 夜).

(** ** Totals in tenths *)

(** The Number written as the decimal [k / 10]. *)
Definition tenths (k : Z) : number := JS.of_decimal (k <? 0)%Z (Z.abs_N k) (-1).

(** [many] is [n] times [one] as decimals with one digit: they are the
    Numbers ([===]) written [k / 10] and [n * k / 10] for some integer [k]. *)
Definition timesInTenths (n : nat) (one many : number) : Prop :=
  exists k : Z,
    SFeqb one (tenths k) = true /\ SFeqb many (tenths (Z.of_nat n * k)) = true.

(** The four totals, in the order of the record. *)
Definition fields (t : Totals) : list number := [kcal t; protein t; fat t; carbs t].

(** A magnitude as the scaler writes it, [toFixedSafe] of a value and the
    unit, for a value of at most [bound] in absolute value (one that is not
    finite is written as 0.0). *)
Definition writtenWithin (bound : Q) (unit : string) (v : option string) : Prop :=
  exists x, (Qabs (exact x) <= bound)%Q /\ v = Some (toFixedSafe x 1 +:+ unit).

Definition scalerOutputWithin (bound : Q) (item : NutrientItem) : Prop :=
  writtenWithin bound "kcal" (カロリー item) /\
  writtenWithin bound "g" (たんぱく質 item) /\
  writtenWithin bound "g" (脂質 item) /\
  writtenWithin bound "g" (炭水化物 item).

(** ** Objects among the messages *)

(** The array under the [ingredients] property of an object, when there is
    one. *)
Definition ingredientsArray (properties : list (string * json))
  : option (list json) :=
  match get "ingredients" properties with
  | Some (JArr items) => Some items
  | _ => None
  end.

(** The list an object is shown as: the items of the array under
    [ingredients], or the object itself as one item. *)
Definition shownFor (properties : list (string * json)) : list NutrientItem :=
  match ingredientsArray properties with
  | Some items => map asItem items
  | None => [asItem (JObj properties)]
  end.

(** Every magnitude the branch of the message reads can be parsed: the four
    magnitudes of every item of an array, the calories of every item of the
    array under [ingredients], the calories of any other object. *)
Definition parses (parsed : json) : bool :=
  match parsed with
  | JArr items => forallb readable items
  | JObj properties =>
      match ingredientsArray properties with
      | Some items => match sumCalories items with Some _ => true | None => false end
      | None =>
          match magnitude "カロリー" parsed with Some _ => true | None => false end
      end
  | _ => false
  end.

(** ** The ledger over a run of the component *)

(** The state after a sequence of events. *)
Definition run (st : AppState) (evs : list Event) : AppState :=
  fold_left step evs st.

(** The four magnitudes of an item. *)
Definition magnitudes (item : NutrientItem) : list (option string) :=
  [カロリー item; たんぱく質 item; 脂質 item; 炭水化物 item].

(** One step of the four running sums over the values the scaled strings
    stand for: each product is written with one digit and read back. *)
Definition addRounded (factor : number) (acc : Totals) (item : NutrientItem)
  : Totals :=
  let rounded v := JS.Number (toFixedSafe (JS.mul (numFromUnitString v) factor) 1) in
  {| kcal := JS.add (kcal acc) (rounded (カロリー item));
     protein := JS.add (protein acc) (rounded (たんぱく質 item));
     fat := JS.add (fat acc) (rounded (脂質 item));
     carbs := JS.add (carbs acc) (rounded (炭水化物 item)) |}.

(** A magnitude written by [toFixedSafe] and followed by its unit. *)
Definition written (unit : string) (v : option string) : Prop :=
  exists x, v = Some (toFixedSafe x 1 +:+ unit).

(** An item as the scaler writes it. *)
Definition scalerOutput (item : NutrientItem) : Prop :=
  written "kcal" (カロリー item) /\ written "g" (たんぱく質 item) /\
  written "g" (脂質 item) /\ written "g" (炭水化物 item).

(** The meals of a day, over its three slots. *)
Definition dayMeals (r : DayRecord) : list (list NutrientItem) :=
  concat (values r).

(** Every day of the ledger holds a meal, and every item is one the
    scaler wrote. *)
Definition soundLedger (L : DailyRecords) : Prop :=
  forall d r, L !! d = Some r ->
    dayMeals r <> [] /\ Forall scalerOutput (dayItems r).

(** A scaled item whose four magnitudes are written as zero. *)
Definition blankItem (item' : NutrientItem) : Prop :=
  カロリー item' = Some "0.0kcal"%string /\
  たんぱく質 item' = Some "0.0g"%string /\
  脂質 item' = Some "0.0g"%string /\
  炭水化物 item' = Some "0.0g"%string.

(** The handler of the goal field: [setGoalCalories(Number(e.target.value))]. *)
Definition onGoalChange (st : AppState) (value : string) : AppState :=
  step st (SetGoalCalories (JS.Number value)).

Definition noNaN (t : Totals) : Prop :=
  JS.isNaN (kcal t) = false /\ JS.isNaN (protein t) = false /\
  JS.isNaN (fat t) = false /\ JS.isNaN (carbs t) = false.

(** The three totals that have a bar are Numbers other than NaN. *)
Definition barTotalsDefined (st : AppState) : Prop :=
  JS.isNaN (totalProtein st) = false /\ JS.isNaN (totalFat st) = false /\
  JS.isNaN (totalCarbs st) = false.

(** The characters of an exponential notation: one digit, further digits
    after a point when there are any, [e+] and the digits of the exponent. *)
Definition exponential (c : ascii) (cs ed : list ascii) : list ascii :=
  match cs with
  | [] => c :: "e"%char :: "+"%char :: ed
  | _ => c :: "."%char :: cs ++ "e"%char :: "+"%char :: ed
  end.

(** ** Sample data *)

Definition sampleItem (name : string) (c p f cb : option string) : NutrientItem :=
  {| 材料名 := name; 数量 := None; 重量 := None;
     カロリー := c; たんぱく質 := p; 脂質 := f; 炭水化物 := cb |}.

Definition chicken : NutrientItem :=
  sampleItem "chicken breast" (Some "200kcal") (Some "40g") (Some "5g") (Some "0g")%string.

Definition rice : NutrientItem :=
  sampleItem "rice" (Some "168kcal") (Some "2.5g") (Some "0.3g") (Some "37.1g").

Definition eggs : NutrientItem :=
  sampleItem "egg" (Some "80kcal") (Some "6g") (Some "5g") (Some "1g")%string.

Definition tea : NutrientItem :=
  sampleItem "green tea" (Some "0kcal") (Some "10g") None None.

Definition caloriesOnly (c : string) : NutrientItem :=
  sampleItem "x" (Some c) None None None.

Definition typing : AppState :=
  {| inputText := "chicken and egg"; ingredients := [];
     totalCalories := JS.pos_zero; totalProtein := JS.pos_zero;
     totalFat := JS.pos_zero; totalCarbs := JS.pos_zero;
     goalCalories := JS.of_Z 1200; calorieSplit := splitOf 30 40 30;
     mealTime := 朝; dailyRecords := ∅; loading := false |}.

Definition promptBody (p : string) : Proxy.value :=
  Proxy.VObj [("prompt"%string, Proxy.VStr p)].

Definition recordRice : list Event :=
  [SetInputText "rice"; CallGPT "2026-01-01" (Message (ParsedArray [rice]))].

Definition salad : Recipes.RegisteredRecipe :=
  {| Recipes.name := "salad"; Recipes.ingredients := [chicken] |}.

Definition omelette : Recipes.RegisteredRecipe :=
  {| Recipes.name := "omelette"; Recipes.ingredients := [eggs] |}.

Definition curry : Recipes.RegisteredRecipe :=
  {| Recipes.name := "curry"; Recipes.ingredients := [rice; chicken] |}.

Definition water : Recipes.RegisteredRecipe :=
  {| Recipes.name := "water"; Recipes.ingredients := [] |}.

Definition threeRecipes : Recipes.State :=
  Recipes.withRecipes Recipes.initial [salad; omelette; curry].

(** A service that gives the same reply to every prompt. *)
Definition replies (parsed : Parsed) : string -> Extraction :=
  fun _ => Message parsed.

Definition registerSalad : list Recipes.Action :=
  [Recipes.SetRecipeName "salad"; Recipes.OnApp (SetInputText "chicken");
   Recipes.Register (replies (ParsedArray [chicken]))].

(** The entry [callGPT] records for the rice at a budget of 360 kcal. *)
Definition scaledRice : list NutrientItem :=
  [sampleItem "rice" (Some "360.0kcal") (Some "5.4g") (Some "0.6g") (Some "79.5g")].

(** Three extractions of the rice on one day. *)
Definition riceThrice : list Event :=
  [SetInputText "rice";
   CallGPT "2026-01-01" (Message (ParsedArray [rice]));
   CallGPT "2026-01-01" (Message (ParsedArray [rice]));
   CallGPT "2026-01-01" (Message (ParsedArray [rice]))].

(** A meal of two small items and a very large one, for a goal equal to
    its calories and the whole day's share given to the morning. *)
Definition feast : list NutrientItem :=
  [caloriesOnly "0.3kcal"; caloriesOnly "0.3kcal";
   caloriesOnly "4503599627370496kcal"].

(** The entry [callGPT] records for it. *)
Definition scaledFeast : list NutrientItem :=
  [sampleItem "x" (Some "0.3kcal") (Some "0.0g") (Some "0.0g") (Some "0.0g");
   sampleItem "x" (Some "0.3kcal") (Some "0.0g") (Some "0.0g") (Some "0.0g");
   sampleItem "x" (Some "4503599627370496.0kcal") (Some "0.0g") (Some "0.0g")
     (Some "0.0g")].

(** Two extractions of it on one day. *)
Definition feastTwice : list Event :=
  [SetInputText "feast"; SetGoalCalories (JS.of_Z 4503599627370497);
   SetCalorieSplit (splitOf 100 0 0);
   CallGPT "2026-01-01" (Message (ParsedArray feast));
   CallGPT "2026-01-01" (Message (ParsedArray feast))].

(** Appends to two days. *)
Definition twoDays : list Append :=
  [("2026-01-01"%string, 夜, [rice]); ("2026-01-02"%string, 朝, [eggs]);
   ("2026-01-01"%string, 朝, [chicken; eggs])].

(** * Facts about the built-ins *)

Module JSFacts.
Import JS.

Lemma shr_1_nonneg mrs : 0 <= shr_m mrs -> 0 <= shr_m (shr_1 mrs).
Proof.
  destruct mrs as [m r s]; simpl.
  destruct m as [|[p|p|]|[p|p|]]; simpl; lia.
Qed.

Lemma iter_pos_shr_1_nonneg p :
  forall mrs, 0 <= shr_m mrs -> 0 <= shr_m (SpecFloat.iter_pos shr_1 p mrs).
Proof.
  induction p as [p IH|p IH|]; intros mrs H; simpl.
  - apply IH, IH, shr_1_nonneg, H.
  - apply IH, IH, H.
  - apply shr_1_nonneg, H.
Qed.

Lemma shr_nonneg mrs e n : 0 <= shr_m mrs -> 0 <= shr_m (fst (shr mrs e n)).
Proof.
  intros H. destruct n; simpl; trivial. now apply iter_pos_shr_1_nonneg.
Qed.

Lemma shr_record_of_loc_m m l : shr_m (shr_record_of_loc m l) = m.
Proof. destruct l as [|[]]; reflexivity. Qed.

Lemma shr_fexp_nonneg m e l :
  0 <= m -> 0 <= shr_m (fst (shr_fexp prec emax m e l)).
Proof.
  intros H. unfold shr_fexp. apply shr_nonneg.
  now rewrite shr_record_of_loc_m.
Qed.

Lemma round_nearest_even_nonneg m l : 0 <= m -> 0 <= round_nearest_even m l.
Proof.
  intros H. destruct l as [|[]]; simpl; try lia.
  destruct (Z.even m); lia.
Qed.

Lemma binary_round_aux_not_nan sx mx ex lx :
  0 <= mx -> isNaN (binary_round_aux prec emax sx mx ex lx) = false.
Proof.
  intros H. unfold binary_round_aux.
  pose proof (shr_fexp_nonneg mx ex lx H) as H1.
  destruct (shr_fexp prec emax mx ex lx) as [mrs' e'] eqn:E1. simpl in H1.
  pose proof (shr_fexp_nonneg _ e' loc_Exact
                (round_nearest_even_nonneg _ (loc_of_shr_record mrs') H1)) as H2.
  destruct (shr_fexp prec emax _ e' loc_Exact) as [mrs'' e''] eqn:E2.
  simpl in H2.
  destruct (shr_m mrs'') as [|m|m]; try reflexivity.
  - now destruct (e'' <=? emax - prec).
  - lia.
Qed.

Lemma binary_round_not_nan sx mx ex :
  isNaN (binary_round prec emax sx mx ex) = false.
Proof.
  unfold binary_round.
  destruct (shl_align mx ex _) as [mz ez].
  now apply binary_round_aux_not_nan.
Qed.

Lemma div_finite_not_nan sx mx ex sy my ey :
  isNaN (SFdiv prec emax (S754_finite sx mx ex) (S754_finite sy my ey)) = false.
Proof.
  unfold SFdiv.
  destruct (SFdiv_core_binary prec emax (Zpos mx) ex (Zpos my) ey)
    as [[mz ez] lz] eqn:E.
  apply binary_round_aux_not_nan.
  unfold SFdiv_core_binary in E.
  set (m' := match _ with Z0 => Zpos mx | Zpos _ => _ | Zneg _ => 0 end) in E.
  assert (Hm : 0 <= m').
  { subst m'. destruct (ex - ey - _); try lia. apply Z.shiftl_nonneg. lia. }
  pose proof (Z.div_eucl_eq m' (Zpos my) ltac:(lia)) as Hd.
  pose proof (Z.mod_pos_bound m' (Zpos my) ltac:(lia)) as Hr.
  unfold Z.modulo in Hr.
  destruct (Z.div_eucl m' (Zpos my)) as [q r].
  injection E as <- _ _. nia.
Qed.

Lemma of_decimal_not_nan neg m e : isNaN (of_decimal neg m e) = false.
Proof.
  unfold of_decimal. destruct m as [|p]; [reflexivity|].
  destruct e; try apply binary_round_not_nan. apply div_finite_not_nan.
Qed.

Lemma literal_value_not_nan l : isNaN (literal_value l) = false.
Proof. destruct l; [reflexivity | apply of_decimal_not_nan]. Qed.

Lemma mul_finite_not_nan sx mx ex sy my ey :
  isNaN (mul (S754_finite sx mx ex) (S754_finite sy my ey)) = false.
Proof. apply binary_round_aux_not_nan. lia. Qed.

End JSFacts.

(** * The ledger *)

Section LedgerFacts.

Implicit Types (L : DailyRecords) (r : DayRecord) (d : string) (t : MealTime).
Implicit Types (meal : list NutrientItem).

Lemma MealTime_eq_dec (t t' : MealTime) : {t = t'} + {t <> t'}.
Proof. decide equality. Qed.

Lemma slot_push_same r t meal : slot (push r t meal) t = slot r t ++ [meal].
Proof. now destruct t. Qed.

Lemma slot_push_other r t t' meal :
  t' <> t -> slot (push r t meal) t' = slot r t'.
Proof. destruct t, t'; simpl; congruence. Qed.

Lemma slot_emptyDay t : slot emptyDay t = [].
Proof. now destruct t. Qed.

Lemma lookup_append_same L d t meal :
  append L d t meal !! d =
  Some (push (match L !! d with Some r => r | None => emptyDay end) t meal).
Proof. unfold append. apply lookup_insert_eq. Qed.

Lemma lookup_append_other L d d' t meal :
  d' <> d -> append L d t meal !! d' = L !! d'.
Proof. intros H. unfold append. now apply lookup_insert_ne. Qed.

Lemma mealsAt_append_same L d t meal :
  mealsAt (append L d t meal) d t = mealsAt L d t ++ [meal].
Proof.
  unfold mealsAt. rewrite lookup_append_same, slot_push_same.
  destruct (L !! d); [reflexivity | now rewrite slot_emptyDay].
Qed.

Lemma mealsAt_append_other_slot L d t t' meal :
  t' <> t -> mealsAt (append L d t meal) d t' = mealsAt L d t'.
Proof.
  intros H. unfold mealsAt.
  rewrite lookup_append_same, (slot_push_other _ _ _ _ H).
  destruct (L !! d); [reflexivity | now rewrite slot_emptyDay].
Qed.

Lemma mealsAt_append_other_date L d d' t t' meal :
  d' <> d -> mealsAt (append L d t meal) d' t' = mealsAt L d' t'.
Proof. intros H. unfold mealsAt. now rewrite lookup_append_other. Qed.

(** Whatever was recorded stays where it was. *)
Lemma mealsAt_append_prefix L d t meal d' t' :
  exists added, mealsAt (append L d t meal) d' t' = mealsAt L d' t' ++ added.
Proof.
  destruct (decide (d' = d)) as [->|Hd].
  - destruct (MealTime_eq_dec t' t) as [->|Ht].
    + exists [meal]. apply mealsAt_append_same.
    + exists []. rewrite app_nil_r. now apply mealsAt_append_other_slot.
  - exists []. rewrite app_nil_r. now apply mealsAt_append_other_date.
Qed.

Lemma fold_meals (meals : list (list NutrientItem)) :
  forall acc,
    fold_left (fun acc meal => fold_left addItem meal acc) meals acc =
    fold_left addItem (concat meals) acc.
Proof.
  induction meals as [|m ms IH]; intros acc; simpl; [reflexivity|].
  now rewrite IH, fold_left_app.
Qed.

Lemma fold_slots (slots : list (list (list NutrientItem))) :
  forall acc,
    fold_left
      (fun acc mealTimes =>
         fold_left (fun acc meal => fold_left addItem meal acc) mealTimes acc)
      slots acc =
    fold_left addItem (concat (concat slots)) acc.
Proof.
  induction slots as [|s ss IH]; intros acc; simpl; [reflexivity|].
  now rewrite IH, fold_meals, concat_app, fold_left_app.
Qed.

Lemma getTotalForDate_present L d r :
  L !! d = Some r -> getTotalForDate L d = sumItems (dayItems r).
Proof.
  intros H. unfold getTotalForDate, sumItems, dayItems.
  now rewrite H, fold_slots.
Qed.

Lemma getTotalForDate_absent L d :
  L !! d = None -> getTotalForDate L d = zeroTotals.
Proof. intros H. unfold getTotalForDate. now rewrite H. Qed.

Lemma sumItems_nil : sumItems [] = zeroTotals.
Proof. reflexivity. Qed.

Lemma getTotalForDate_itemsOn L d : getTotalForDate L d = sumItems (itemsOn L d).
Proof.
  unfold itemsOn. destruct (L !! d) as [r|] eqn:E.
  - now apply getTotalForDate_present.
  - rewrite sumItems_nil. now apply getTotalForDate_absent.
Qed.

Lemma dayItems_slots r :
  dayItems r = concat (slot r 朝) ++ concat (slot r 昼) ++ concat (slot r 夜).
Proof.
  unfold dayItems, values. simpl. rewrite app_nil_r.
  now rewrite !concat_app, app_assoc.
Qed.

Lemma itemsOn_slots L d :
  itemsOn L d =
  concat (mealsAt L d 朝) ++ concat (mealsAt L d 昼) ++ concat (mealsAt L d 夜).
Proof.
  unfold itemsOn, mealsAt. destruct (L !! d); [apply dayItems_slots | reflexivity].
Qed.

Lemma lookup_ledger_absent L ds d : Ledger L ds -> ~ In d ds -> L !! d = None.
Proof.
  induction 1 as [|L ds d0 t meal HL IH]; intros Hn.
  - apply lookup_empty.
  - simpl in Hn. rewrite lookup_append_other by intuition congruence.
    apply IH. intuition.
Qed.

Lemma mealsAt_appendTimes_same n L d t meal :
  mealsAt (appendTimes n L d t meal) d t = mealsAt L d t ++ repeat meal n.
Proof.
  induction n as [|n IH]; simpl.
  - now rewrite app_nil_r.
  - rewrite mealsAt_append_same, IH, <- app_assoc. f_equal.
    symmetry. apply repeat_cons.
Qed.

Lemma mealsAt_appendTimes_other n L d t meal d' t' :
  d' <> d \/ t' <> t ->
  mealsAt (appendTimes n L d t meal) d' t' = mealsAt L d' t'.
Proof.
  intros H. induction n as [|n IH]; simpl; [reflexivity|].
  rewrite <- IH. destruct (decide (d' = d)) as [->|Hd].
  - apply mealsAt_append_other_slot. intuition.
  - now apply mealsAt_append_other_date.
Qed.

(** The updater on shared objects gives the ledger [append] gives, and keeps
    the heap well formed.  The object of the previous state sees the pushed
    meal too when the date was there (its record is the one pushed to), and
    is as before when the date was created. *)
Lemma setDailyRecordsUpdater_append (h : Heap) (prev : LedgerObject) d t meal :
  well_formed h prev ->
  let result := setDailyRecordsUpdater h prev d t meal in
  deref (fst result) (snd result) = append (deref h prev) d t meal /\
  well_formed (fst result) (snd result) /\
  deref (fst result) prev =
    match prev !! d with
    | Some _ => append (deref h prev) d t meal
    | None => deref h prev
    end.
Proof.
  intros [Hin Hinj]. unfold setDailyRecordsUpdater, append, deref.
  destruct (prev !! d) as [a|] eqn:Ed.
  - rewrite Ed. cbn [fst snd]. destruct (Hin d a Ed) as [r Er].
    rewrite lookup_omap, Ed. simpl. rewrite Er.
    assert (Hderef : omap (fun a0 => alter (fun r0 => push r0 t meal) a h !! a0) prev
                     = <[d := push r t meal]> (omap (fun a0 => h !! a0) prev)).
    { apply map_eq. intros k. rewrite lookup_omap.
      destruct (decide (k = d)) as [->|Hk].
      - rewrite lookup_insert_eq, Ed. simpl. rewrite lookup_alter_eq, Er. reflexivity.
      - rewrite lookup_insert_ne by congruence. rewrite lookup_omap.
        destruct (prev !! k) as [b|] eqn:Ek; simpl; [|reflexivity].
        rewrite lookup_alter_ne; [reflexivity|].
        intros ->. apply Hk. eapply Hinj; eauto. }
    split; [exact Hderef|]. split; [|exact Hderef].
    split.
    + intros d' b Hb. destruct (decide (b = a)) as [->|Hne].
      * rewrite lookup_alter_eq, Er. eauto.
      * rewrite lookup_alter_ne by congruence. eauto.
    + exact Hinj.
  - set (a := fresh (dom h)).
    assert (Ha : h !! a = None).
    { apply not_elem_of_dom. apply is_fresh. }
    rewrite lookup_insert_eq. cbn [fst snd].
    rewrite lookup_omap, Ed. simpl.
    assert (Hother : forall k b, prev !! k = Some b -> b <> a).
    { intros k b Hb ->. destruct (Hin k a Hb) as [r Hr]. congruence. }
    split; [|split].
    + apply map_eq. intros k. rewrite lookup_omap.
      destruct (decide (k = d)) as [->|Hk].
      * rewrite !lookup_insert_eq. simpl. rewrite lookup_alter_eq, lookup_insert_eq.
        reflexivity.
      * rewrite !lookup_insert_ne by congruence. rewrite lookup_omap.
        destruct (prev !! k) as [b|] eqn:Ek; simpl; [|reflexivity].
        pose proof (Hother k b Ek).
        rewrite lookup_alter_ne, lookup_insert_ne by congruence. reflexivity.
    + split.
      * intros d' b Hb. destruct (decide (d' = d)) as [->|Hk].
        -- rewrite lookup_insert_eq in Hb. injection Hb as <-.
           rewrite lookup_alter_eq, lookup_insert_eq. eauto.
        -- rewrite lookup_insert_ne in Hb by congruence.
           pose proof (Hother d' b Hb).
           rewrite lookup_alter_ne, lookup_insert_ne by congruence. eauto.
      * intros d1 d2 b H1 H2.
        destruct (decide (d1 = d)) as [->|H1d], (decide (d2 = d)) as [->|H2d];
          try reflexivity.
        -- rewrite lookup_insert_eq in H1. rewrite lookup_insert_ne in H2 by congruence.
           injection H1 as <-. exfalso. eapply Hother; eauto.
        -- rewrite lookup_insert_eq in H2. rewrite lookup_insert_ne in H1 by congruence.
           injection H2 as <-. exfalso. eapply Hother; eauto.
        -- rewrite lookup_insert_ne in H1, H2 by congruence. eauto.
    + apply map_eq. intros k. rewrite !lookup_omap.
      destruct (prev !! k) as [b|] eqn:Ek; simpl; [|reflexivity].
      pose proof (Hother k b Ek).
      rewrite lookup_alter_ne, lookup_insert_ne by congruence.
      destruct (h !! b); reflexivity.
Qed.

Lemma well_formed_empty : well_formed ∅ ∅.
Proof. split; intros *; rewrite lookup_empty; discriminate. Qed.

End LedgerFacts.

(** * Messages of the declared types among all messages *)

Section Replies.

Lemma asItem_itemJSON item : asItem (itemJSON item) = item.
Proof.
  destruct item as [n q w k pr f c].
  destruct q, w, k, pr, f, c; reflexivity.
Qed.

Lemma magnitudes_itemJSON item :
  magnitude "カロリー" (itemJSON item) = Some (numFromUnitString (カロリー item)) /\
  magnitude "たんぱく質" (itemJSON item) = Some (numFromUnitString (たんぱく質 item)) /\
  magnitude "脂質" (itemJSON item) = Some (numFromUnitString (脂質 item)) /\
  magnitude "炭水化物" (itemJSON item) = Some (numFromUnitString (炭水化物 item)).
Proof.
  destruct item as [n q w k pr f c].
  destruct q, w, k, pr, f, c; repeat split; reflexivity.
Qed.

Lemma readable_itemJSON item : readable (itemJSON item) = true.
Proof.
  unfold readable.
  destruct (magnitudes_itemJSON item) as (-> & -> & -> & ->). reflexivity.
Qed.

Lemma map_asItem_itemJSON arr : map asItem (map itemJSON arr) = arr.
Proof.
  induction arr as [|item arr IH]; simpl; [reflexivity|].
  now rewrite asItem_itemJSON, IH.
Qed.

Lemma forallb_readable_itemJSON arr : forallb readable (map itemJSON arr) = true.
Proof.
  induction arr as [|item arr IH]; simpl; [reflexivity|].
  now rewrite readable_itemJSON, IH.
Qed.

(** A magnitude that can be read is the magnitude of the item read through
    its type. *)
Lemma magnitude_asItem item :
  (forall v, magnitude "カロリー" item = Some v ->
             v = numFromUnitString (カロリー (asItem item))) /\
  (forall v, magnitude "たんぱく質" item = Some v ->
             v = numFromUnitString (たんぱく質 (asItem item))) /\
  (forall v, magnitude "脂質" item = Some v ->
             v = numFromUnitString (脂質 (asItem item))) /\
  (forall v, magnitude "炭水化物" item = Some v ->
             v = numFromUnitString (炭水化物 (asItem item))).
Proof.
  assert (H : forall k v,
             magnitude k item = Some v ->
             v = numFromUnitString (stringProperty k item)).
  { intros k v. unfold magnitude, stringProperty.
    destruct (property k item) as [[x|]|]; try discriminate.
    - destruct x as [|b|n|s|l|l]; cbn; try destruct b; try destruct (JS.truthy n);
        intros [=]; subst; reflexivity.
    - cbn. now intros [= <-]. }
  repeat split; intros v Hv; apply H; exact Hv.
Qed.

Lemma sumCalories_from items : forall acc,
  fold_left
    (fun sum item =>
       match sum, magnitude "カロリー" item with
       | Some s, Some v => Some (JS.add s v)
       | _, _ => None
       end) items None = None /\
  forall total,
    fold_left
      (fun sum item =>
         match sum, magnitude "カロリー" item with
         | Some s, Some v => Some (JS.add s v)
         | _, _ => None
         end) items (Some acc) = Some total ->
    total =
    fold_left (fun sum item => JS.add sum (numFromUnitString (カロリー item)))
      (map asItem items) acc.
Proof.
  induction items as [|item items IH]; intros acc; cbn [fold_left map].
  - split; [reflexivity|]. now intros total [= <-].
  - split; [apply (IH acc)|].
    intros total H.
    destruct (magnitude "カロリー" item) as [v|] eqn:E.
    + apply (proj1 (magnitude_asItem item)) in E. subst v.
      now apply (IH _).
    + rewrite (proj1 (IH acc)) in H. discriminate H.
Qed.

Lemma sumCalories_asItem items total :
  sumCalories items = Some total ->
  total =
  fold_left (fun sum item => JS.add sum (numFromUnitString (カロリー item)))
    (map asItem items) JS.pos_zero.
Proof. apply (sumCalories_from items). Qed.

Lemma sumCalories_itemJSON arr : sumCalories (map itemJSON arr) <> None.
Proof.
  unfold sumCalories. generalize JS.pos_zero.
  induction arr as [|item arr IH]; intros acc; cbn [fold_left map]; [discriminate|].
  rewrite (proj1 (magnitudes_itemJSON item)). apply IH.
Qed.

Lemma get_ingredients_itemProperties obj extra :
  get "ingredients" (itemProperties obj ++ extra) = get "ingredients" extra.
Proof.
  destruct obj as [n q w k pr f c].
  destruct q, w, k, pr, f, c; reflexivity.
Qed.

Lemma asItem_with_ingredients obj v :
  asItem (JObj (itemProperties obj ++ [("ingredients"%string, v)])) = obj.
Proof.
  destruct obj as [n q w k pr f c].
  destruct q, w, k, pr, f, c; reflexivity.
Qed.

(** For a message of the declared types the branches are those of
    [handleParsed]. *)
Lemma handleReply_parsedJSON st dateKey parsed :
  handleReply st dateKey (parsedJSON parsed) = handleParsed st dateKey parsed.
Proof.
  destruct parsed as [arr|[arr|] obj|]; cbn [parsedJSON handleReply].
  - now rewrite forallb_readable_itemJSON, map_asItem_itemJSON.
  - rewrite get_ingredients_itemProperties. cbn [get].
    change (String.eqb "ingredients" "ingredients") with true. cbv iota.
    destruct (sumCalories (map itemJSON arr)) eqn:E;
      [|now apply sumCalories_itemJSON in E].
    now rewrite map_asItem_itemJSON, asItem_with_ingredients.
  - rewrite get_ingredients_itemProperties. cbn [get]. rewrite app_nil_r.
    fold (itemJSON obj).
    rewrite (proj1 (magnitudes_itemJSON obj)). now rewrite asItem_itemJSON.
  - reflexivity.
Qed.

Lemma callGPT_Message st dateKey parsed :
  inputText st <> ""%string ->
  callGPT st dateKey (Message parsed) = handleParsed st dateKey parsed.
Proof.
  intros H. unfold callGPT. destruct (inputText st); [congruence|].
  apply handleReply_parsedJSON.
Qed.

(** A message is handled as an array of readable items, or the totals with
    a bar and the ledger stay as they are. *)
Lemma handleReply_cases st dateKey parsed :
  (exists items,
      parsed = JArr items /\ forallb readable items = true /\
      handleReply st dateKey parsed =
      handleParsed st dateKey (ParsedArray (map asItem items))) \/
  (dailyRecords (fst (handleReply st dateKey parsed)) = dailyRecords st /\
   totalProtein (fst (handleReply st dateKey parsed)) = totalProtein st /\
   totalFat (fst (handleReply st dateKey parsed)) = totalFat st /\
   totalCarbs (fst (handleReply st dateKey parsed)) = totalCarbs st).
Proof.
  destruct parsed as [|b|n|s|items|properties]; cbn [handleReply];
    try (right; repeat split; reflexivity).
  - destruct (forallb readable items) eqn:E.
    + left. exists items. repeat split. exact E.
    + right. repeat split; reflexivity.
  - right. destruct (get "ingredients" properties) as [[|b|n|s|items|ps]|];
      try (destruct (magnitude "カロリー" (JObj properties));
           repeat split; reflexivity).
    destruct (sumCalories items); repeat split; reflexivity.
Qed.

End Replies.

(** * The unit parser *)

Section UnitParser.
Import JS.

Lemma keep_char_cases c :
  keep_char c = true ->
  is_space c = false /\ Ascii.eqb c "+" = false /\
  Ascii.eqb c "e" = false /\ Ascii.eqb c "E" = false /\
  Ascii.eqb "I" c = false.
Proof.
  destruct c as [[] [] [] [] [] [] [] []]; vm_compute; intuition discriminate.
Qed.

Lemma span_digits_split s :
  forall ds rest, span_digits s = (ds, rest) -> s = ds ++ rest.
Proof.
  induction s as [|c s IH]; intros ds rest H; simpl in H.
  - now injection H as <- <-.
  - destruct (is_digit c).
    + destruct (span_digits s) as [ds' rest'].
      injection H as <- <-. simpl. f_equal. now apply IH.
    + now injection H as <- <-.
Qed.

Lemma span_digits_rest_kept s ds rest :
  Forall (fun c => keep_char c = true) s ->
  span_digits s = (ds, rest) ->
  Forall (fun c => keep_char c = true) rest.
Proof.
  intros Hs H. apply span_digits_split in H. subst s.
  apply Forall_app in Hs. tauto.
Qed.

Lemma scan_exponent_kept s :
  Forall (fun c => keep_char c = true) s -> scan_exponent s = (0, s).
Proof.
  destruct s as [|c s]; [reflexivity|]. intros H.
  apply Forall_inv in H. apply keep_char_cases in H as (_ & _ & He & HE & _).
  unfold scan_exponent. now rewrite He, HE.
Qed.

(** On a string of kept characters the literal scanned by [parseFloat] is
    the token: no white space is skipped, no [+], no [Infinity] and no
    exponent is read. *)
Lemma scan_literal_kept s :
  Forall (fun c => keep_char c = true) s ->
  option_map fst (scan_literal s) =
  option_map
    (fun '(neg, ip, fp) =>
       LitDecimal neg (digits_value 0 (ip ++ fp)) (- Z.of_nat (length fp)))
    (keptToken s).
Proof.
  intros Hs. unfold scan_literal, keptToken, scan_sign.
  assert (Hgen : forall neg r,
    Forall (fun c => keep_char c = true) r ->
    option_map fst
      match strip_prefix infinity_chars r with
      | Some rest => Some (LitInfinity neg, rest)
      | None =>
          let '(ip, r1) := span_digits r in
          let '(fp, r3) :=
            match r1 with
            | c :: r2 => if Ascii.eqb c "." then span_digits r2 else ([], r1)
            | [] => ([], [])
            end in
          match ip, fp with
          | [], [] => None
          | _, _ =>
              let '(e, rest) := scan_exponent r3 in
              Some (LitDecimal neg (digits_value 0 (ip ++ fp))
                      (e - Z.of_nat (length fp)), rest)
          end
      end =
    option_map
      (fun '(neg, ip, fp) =>
         LitDecimal neg (digits_value 0 (ip ++ fp)) (- Z.of_nat (length fp)))
      (let '(ip, r1) := span_digits r in
       let fp :=
         match r1 with
         | c :: r2 => if Ascii.eqb c "." then fst (span_digits r2) else []
         | [] => []
         end in
       match ip, fp with
       | [], [] => None
       | _, _ => Some (neg, ip, fp)
       end)).
  { intros neg r Hr.
    assert (Hinf : strip_prefix infinity_chars r = None).
    { destruct r as [|c r]; [reflexivity|].
      apply Forall_inv in Hr. apply keep_char_cases in Hr as (_ & _ & _ & _ & HI).
      unfold infinity_chars.
      change (list_ascii_of_string "Infinity")
        with ("I"%char :: list_ascii_of_string "nfinity").
      cbn [strip_prefix]. now rewrite HI. }
    rewrite Hinf.
    destruct (span_digits r) as [ip r1] eqn:E1.
    pose proof (span_digits_rest_kept _ _ _ Hr E1) as Hr1.
    destruct r1 as [|c r2].
    - destruct ip; [reflexivity|]. simpl. now rewrite app_nil_r.
    - destruct (Ascii.eqb c ".") eqn:Ec.
      + destruct (span_digits r2) as [fp r3] eqn:E2. simpl.
        apply Forall_inv_tail in Hr1.
        pose proof (span_digits_rest_kept _ _ _ Hr1 E2) as Hr3.
        rewrite (scan_exponent_kept _ Hr3).
        destruct ip, fp; reflexivity.
      + rewrite (scan_exponent_kept _ Hr1).
        destruct ip; [reflexivity|]. simpl. now rewrite app_nil_r. }
  destruct s as [|c s]; [reflexivity|].
  pose proof (Forall_inv Hs) as Hc.
  apply keep_char_cases in Hc as (_ & Hplus & _).
  rewrite Hplus.
  destruct (Ascii.eqb c "-").
  - apply Hgen. now apply Forall_inv_tail in Hs.
  - now apply Hgen.
Qed.

Lemma drop_spaces_kept s :
  Forall (fun c => keep_char c = true) s -> drop_spaces s = s.
Proof.
  destruct s as [|c s]; [reflexivity|]. intros H.
  apply Forall_inv in H. apply keep_char_cases in H as (Hsp & _).
  simpl. now rewrite Hsp.
Qed.

Lemma filter_kept (l : list ascii) :
  Forall (fun c => keep_char c = true) (List.filter keep_char l).
Proof.
  apply List.Forall_forall. intros c H. now apply filter_In in H.
Qed.

Lemma parseFloat_strip_units s :
  let n := parseFloat (strip_units s) in
  (if isNaN n then pos_zero else n) = keptMagnitude (Some s).
Proof.
  unfold parseFloat, strip_units, keptMagnitude.
  rewrite list_ascii_of_string_of_list_ascii.
  set (k := List.filter keep_char (list_ascii_of_string s)).
  pose proof (filter_kept (list_ascii_of_string s)) as Hk. fold k in Hk.
  rewrite (drop_spaces_kept _ Hk).
  pose proof (scan_literal_kept _ Hk) as H.
  destruct (scan_literal k) as [[l rest]|], (keptToken k) as [[[neg ip] fp]|];
    simpl in H; try discriminate; [|reflexivity].
  injection H as ->. simpl. now rewrite JSFacts.of_decimal_not_nan.
Qed.

Lemma numFromUnitString_keptMagnitude v :
  numFromUnitString v = keptMagnitude v.
Proof.
  destruct v as [s|]; [|reflexivity].
  destruct s as [|c s]; [reflexivity|].
  apply (parseFloat_strip_units (String c s)).
Qed.

Lemma keptMagnitude_not_nan v : isNaN (keptMagnitude v) = false.
Proof.
  destruct v as [s|]; [|reflexivity]. simpl.
  destruct (keptToken _) as [[[neg ip] fp]|]; [|reflexivity].
  apply JSFacts.of_decimal_not_nan.
Qed.

Lemma span_digits_no_digit s :
  Forall (fun c => is_digit c = false) s -> fst (span_digits s) = [].
Proof.
  destruct s as [|c s]; [reflexivity|]. intros H.
  apply Forall_inv in H. simpl. now rewrite H.
Qed.

Lemma keptToken_no_digit s :
  Forall (fun c => is_digit c = false) s -> keptToken s = None.
Proof.
  intros Hs. unfold keptToken.
  assert (Hgen : forall r, Forall (fun c => is_digit c = false) r ->
            forall ip r1, span_digits r = (ip, r1) ->
            ip = [] /\
            match r1 with
            | c :: r2 => if Ascii.eqb c "." then fst (span_digits r2) else []
            | [] => []
            end = []).
  { intros r Hr ip r1 E.
    pose proof (span_digits_no_digit r Hr) as Hip. rewrite E in Hip.
    simpl in Hip. subst ip. split; [reflexivity|].
    apply span_digits_split in E. simpl in E. subst r1.
    destruct r as [|c r2]; [reflexivity|].
    destruct (Ascii.eqb c "."); [|reflexivity].
    apply span_digits_no_digit. now apply Forall_inv_tail in Hr. }
  destruct s as [|c s].
  - reflexivity.
  - destruct (Ascii.eqb c "-").
    + destruct (span_digits s) as [ip r1] eqn:E.
      destruct (Hgen s (Forall_inv_tail Hs) ip r1 E) as [-> ->]. reflexivity.
    + destruct (span_digits (c :: s)) as [ip r1] eqn:E.
      destruct (Hgen (c :: s) Hs ip r1 E) as [-> ->]. reflexivity.
Qed.

(** ** The parser of the specification *)

Lemma digitOf_digit_of c : digitOf c = digit_of c.
Proof. destruct c as [[] [] [] [] [] [] [] []]; reflexivity. Qed.

Lemma discarded_keep_char c : negb (discarded c) = keep_char c.
Proof. destruct c as [[] [] [] [] [] [] [] []]; reflexivity. Qed.

Lemma filter_discarded l :
  List.filter (fun c => negb (discarded c)) l = List.filter keep_char l.
Proof.
  induction l as [|c l IH]; simpl; [reflexivity|].
  now rewrite discarded_keep_char, IH.
Qed.

Lemma leadingDigits_span_digits s :
  leadingDigits s = (digitsOf (fst (span_digits s)), snd (span_digits s)).
Proof.
  induction s as [|c s IH]; [reflexivity|].
  cbn [leadingDigits span_digits]. unfold is_digit.
  rewrite <- (digitOf_digit_of c).
  destruct (digitOf c) as [d|] eqn:E; [|reflexivity].
  rewrite IH. destruct (span_digits s) as [ds rest].
  cbn [fst snd digitsOf map]. now rewrite E.
Qed.

Lemma decimal_from ds : forall acc,
  fold_left (fun a d => (10 * a + d)%N) (digitsOf ds) acc = digits_value acc ds.
Proof.
  induction ds as [|c ds IH]; intros acc; [reflexivity|].
  cbn [digitsOf map fold_left digits_value]. fold (digitsOf ds).
  rewrite IH, digitOf_digit_of. reflexivity.
Qed.

Lemma decimal_digitsOf ds : decimal (digitsOf ds) = digits_value 0 ds.
Proof. apply decimal_from. Qed.

Lemma digitsOf_app a b : digitsOf (a ++ b) = digitsOf a ++ digitsOf b.
Proof. apply map_app. Qed.

Lemma magnitudeToken_keptToken s :
  magnitudeToken s =
  option_map (fun '(neg, ip, fp) => (neg, digitsOf ip, digitsOf fp)) (keptToken s).
Proof.
  unfold magnitudeToken, keptToken.
  assert (H : forall (neg : bool) r,
    (let '(ip, r1) := leadingDigits r in
     let fp :=
       match r1 with
       | c :: r2 => if Ascii.eqb c "." then fst (leadingDigits r2) else []
       | [] => []
       end in
     match ip, fp with
     | [], [] => None
     | _, _ => Some (neg, ip, fp)
     end) =
    option_map (fun '(neg, ip, fp) => (neg, digitsOf ip, digitsOf fp))
      (let '(ip, r1) := span_digits r in
       let fp :=
         match r1 with
         | c :: r2 => if Ascii.eqb c "." then fst (span_digits r2) else []
         | [] => []
         end in
       match ip, fp with
       | [], [] => None
       | _, _ => Some (neg, ip, fp)
       end)).
  { intros neg r. rewrite leadingDigits_span_digits.
    destruct (span_digits r) as [ip r1]. cbn [fst snd].
    destruct r1 as [|c r2].
    - destruct ip; reflexivity.
    - destruct (Ascii.eqb c ".").
      + rewrite leadingDigits_span_digits. cbn [fst].
        destruct ip, (fst (span_digits r2)); reflexivity.
      + destruct ip; reflexivity. }
  destruct s as [|c s]; [reflexivity|].
  destruct (Ascii.eqb c "-"); apply H.
Qed.

(** The parser of the specification and the token [parseFloat] reads give
    the same Number. *)
Lemma keptMagnitude_parseMagnitude v : keptMagnitude v = parseMagnitude v.
Proof.
  destruct v as [s|]; [|reflexivity].
  unfold keptMagnitude, parseMagnitude.
  rewrite filter_discarded, magnitudeToken_keptToken.
  destruct (keptToken _) as [[[neg ip] fp]|]; [|reflexivity].
  cbn [option_map].
  rewrite <- digitsOf_app, decimal_digitsOf.
  unfold digitsOf at 1. now rewrite length_map.
Qed.

Lemma numFromUnitString_parseMagnitude v : numFromUnitString v = parseMagnitude v.
Proof. rewrite numFromUnitString_keptMagnitude. apply keptMagnitude_parseMagnitude. Qed.

(** *** A written magnitude *)

Lemma digitOf_digitCharacter d : (d < 10)%N -> digitOf (digitCharacter d) = Some d.
Proof.
  intros H.
  assert (d = 0 \/ d = 1 \/ d = 2 \/ d = 3 \/ d = 4 \/ d = 5 \/ d = 6 \/
          d = 7 \/ d = 8 \/ d = 9)%N as Hd by lia.
  repeat (destruct Hd as [->|Hd]; [reflexivity|]). now subst d.
Qed.

Lemma digitCharacter_not_discarded d :
  (d < 10)%N -> discarded (digitCharacter d) = false.
Proof. intros H. unfold discarded. now rewrite digitOf_digitCharacter. Qed.

Lemma digitCharacter_not_minus d :
  (d < 10)%N -> Ascii.eqb (digitCharacter d) "-" = false.
Proof.
  intros H.
  assert (d = 0 \/ d = 1 \/ d = 2 \/ d = 3 \/ d = 4 \/ d = 5 \/ d = 6 \/
          d = 7 \/ d = 8 \/ d = 9)%N as Hd by lia.
  repeat (destruct Hd as [->|Hd]; [reflexivity|]). now subst d.
Qed.

Lemma leadingDigits_written ds rest :
  Forall (fun d => (d < 10)%N) ds ->
  match rest with [] => True | c :: _ => digitOf c = None end ->
  leadingDigits (map digitCharacter ds ++ rest) = (ds, rest).
Proof.
  intros Hd Hr. induction Hd as [|d ds Hlt Hd IH]; cbn [map app].
  - destruct rest as [|c r]; [reflexivity|]. cbn [leadingDigits]. now rewrite Hr.
  - cbn [leadingDigits]. now rewrite digitOf_digitCharacter, IH.
Qed.

Lemma filter_none (P : ascii -> bool) l :
  Forall (fun c => P c = false) l -> List.filter P l = [].
Proof. induction 1 as [|c l Hc Hl IH]; simpl; [reflexivity|]. now rewrite Hc. Qed.

Lemma filter_all (P : ascii -> bool) l :
  Forall (fun c => P c = true) l -> List.filter P l = l.
Proof. induction 1 as [|c l Hc Hl IH]; simpl; [reflexivity|]. now rewrite Hc, IH. Qed.

Lemma parseMagnitude_written pre neg ip fp post :
  Forall (fun c => discarded c = true) pre ->
  Forall (fun c => discarded c = true) post ->
  Forall (fun d => (d < 10)%N) ip -> ip <> [] ->
  Forall (fun d => (d < 10)%N) fp ->
  parseMagnitude (Some (writtenMagnitude pre neg ip fp post)) =
  JS.of_decimal neg (decimal (ip ++ fp)) (- Z.of_nat (length fp)).
Proof.
  intros Hpre Hpost Hip Hne Hfp.
  unfold parseMagnitude, writtenMagnitude.
  rewrite list_ascii_of_string_of_list_ascii.
  set (kept := fun c => negb (discarded c)).
  assert (Hdig : forall ds, Forall (fun d => (d < 10)%N) ds ->
            List.filter kept (map digitCharacter ds) = map digitCharacter ds).
  { intros ds H. apply filter_all. apply Forall_map.
    eapply List.Forall_impl; [|exact H]. intros d Hd. unfold kept.
    now rewrite digitCharacter_not_discarded. }
  assert (Hdrop : forall l, Forall (fun c => discarded c = true) l ->
            List.filter kept l = []).
  { intros l H. apply filter_none. eapply List.Forall_impl; [|exact H].
    intros c Hc. unfold kept. now rewrite Hc. }
  rewrite !List.filter_app, (Hdrop pre Hpre), (Hdrop post Hpost), (Hdig ip Hip).
  assert (Hsign : List.filter kept (if neg then ["-"%char] else []) =
                  if neg then ["-"%char] else []) by now destruct neg.
  assert (Hpoint : List.filter kept
                     match fp with [] => [] | _ => "."%char :: map digitCharacter fp end
                   = match fp with [] => [] | _ => "."%char :: map digitCharacter fp end).
  { destruct fp as [|d fp']; [reflexivity|].
    cbn [List.filter]. change (kept "."%char) with true. cbv iota.
    now rewrite (Hdig _ Hfp). }
  rewrite Hsign, Hpoint, app_nil_r. cbn [app].
  assert (Htoken : forall (neg0 : bool) r,
    r = map digitCharacter ip ++
        match fp with [] => [] | _ => "."%char :: map digitCharacter fp end ->
    (let '(ip0, r1) := leadingDigits r in
     let fp0 :=
       match r1 with
       | c :: r2 => if Ascii.eqb c "." then fst (leadingDigits r2) else []
       | [] => []
       end in
     match ip0, fp0 with
     | [], [] => None
     | _, _ => Some (neg0, ip0, fp0)
     end) = Some (neg0, ip, fp)).
  { intros neg0 r ->.
    rewrite (leadingDigits_written ip _ Hip) by now destruct fp.
    destruct fp as [|d fp'].
    - destruct ip; [congruence|reflexivity].
    - change (Ascii.eqb "."%char "."%char) with true. cbv iota.
      pose proof (leadingDigits_written (d :: fp') [] Hfp I) as H.
      rewrite app_nil_r in H. rewrite H. cbn [fst].
      destruct ip; [congruence|reflexivity]. }
  destruct neg; cbn [app].
  - now rewrite (Htoken true _ eq_refl : magnitudeToken ("-"%char :: _) = _).
  - destruct ip as [|d ip']; [congruence|].
    assert (E : magnitudeToken
                  (map digitCharacter (d :: ip') ++
                   match fp with [] => [] | _ => "."%char :: map digitCharacter fp end)
                = Some (false, d :: ip', fp)).
    { unfold magnitudeToken. cbn [map app].
      rewrite digitCharacter_not_minus by now inversion Hip.
      exact (Htoken false _ eq_refl). }
    now rewrite E.
Qed.

End UnitParser.

(** * The strings [toFixedSafe] writes *)

Section Formatting.
Import JS.

Lemma digit_char_is_digit d : (d < 10)%N -> is_digit (digit_char d) = true.
Proof.
  intros H.
  assert (d = 0 \/ d = 1 \/ d = 2 \/ d = 3 \/ d = 4 \/ d = 5 \/ d = 6 \/
          d = 7 \/ d = 8 \/ d = 9)%N as Hd by lia.
  repeat (destruct Hd as [->|Hd]; [reflexivity|]). now subst d.
Qed.

Lemma show_digits_all fuel :
  forall n acc,
    Forall (fun a => is_digit a = true) acc ->
    Forall (fun a => is_digit a = true) (show_digits fuel n acc).
Proof.
  induction fuel as [|f IH]; intros n acc Hacc; simpl; [exact Hacc|].
  assert (Hd : is_digit (digit_char (n mod 10)) = true).
  { apply digit_char_is_digit. apply N.mod_lt. discriminate. }
  destruct (n <? 10)%N.
  - now constructor.
  - apply IH. now constructor.
Qed.

Lemma show_digits_length fuel :
  forall n acc, (length acc < length (show_digits (S fuel) n acc))%nat.
Proof.
  induction fuel as [|f IH]; intros n acc.
  - simpl. destruct (n <? 10)%N; simpl; lia.
  - change (show_digits (S (S f)) n acc)
      with (let acc' := digit_char (n mod 10) :: acc in
            if (n <? 10)%N then acc' else show_digits (S f) (n / 10) acc').
    cbv zeta. destruct (n <? 10)%N.
    + simpl. lia.
    + specialize (IH (n / 10)%N (digit_char (n mod 10) :: acc)).
      simpl length in IH at 1. lia.
Qed.

Lemma show_N_digits n :
  show_N n <> [] /\ Forall (fun a => is_digit a = true) (show_N n).
Proof.
  unfold show_N. split.
  - pose proof (show_digits_length (N.to_nat (N.log2 n)) n []) as H.
    intros E. rewrite E in H. simpl in H. lia.
  - apply show_digits_all. constructor.
Qed.

Lemma insert_point_one ds :
  ds <> [] -> Forall (fun a => is_digit a = true) ds ->
  exists ip c,
    ip <> [] /\ Forall (fun a => is_digit a = true) ip /\ is_digit c = true /\
    insert_point ds 1 = ip ++ ["."%char; c] /\
    ip ++ [c] = repeat "0"%char (2 - length ds) ++ ds.
Proof.
  intros Hne Hd. unfold insert_point.
  set (ds' := repeat "0"%char (2 - length ds) ++ ds).
  assert (Hd' : Forall (fun a => is_digit a = true) ds').
  { apply Forall_app. split; [|exact Hd].
    apply List.Forall_forall. intros a Ha. apply repeat_spec in Ha. now subst a. }
  assert (Hlen : (2 <= length ds')%nat).
  { unfold ds'. rewrite length_app, repeat_length.
    destruct ds; [congruence|]. simpl. lia. }
  pose proof (firstn_skipn (length ds' - 1) ds') as Hsplit.
  assert (Hl1 : length (firstn (length ds' - 1) ds') = (length ds' - 1)%nat).
  { apply firstn_length_le. lia. }
  assert (Hl2 : length (skipn (length ds' - 1) ds') = 1%nat).
  { rewrite length_skipn. lia. }
  destruct (skipn (length ds' - 1) ds') as [|c [|c' tl]] eqn:Es;
    simpl in Hl2; try lia.
  rewrite <- Hsplit in Hd'. apply Forall_app in Hd' as [Hip Hc].
  exists (firstn (length ds' - 1) ds'), c.
  split; [|split; [|split; [|split]]].
  - intros E. rewrite E in Hl1. simpl in Hl1. lia.
  - exact Hip.
  - now apply Forall_inv in Hc.
  - reflexivity.
  - exact Hsplit.
Qed.

Lemma toFixedSafe_one_decimal x :
  below_1e21 x = true -> oneDecimal (toFixedSafe x 1).
Proof.
  intros Hx. unfold toFixedSafe.
  destruct x as [s|s| |s m e]; simpl.
  - exists false, ["0"%char], "0"%char. repeat split; try discriminate.
    repeat constructor.
  - exists false, ["0"%char], "0"%char. repeat split; try discriminate.
    repeat constructor.
  - exists false, ["0"%char], "0"%char. repeat split; try discriminate.
    repeat constructor.
  - simpl in Hx. apply negb_true_iff in Hx.
    unfold toFixed. rewrite Hx.
    destruct (show_N_digits (toFixed_int m e 1)) as [Hne Hd].
    destruct (insert_point_one _ Hne Hd) as (ip & c & H1 & H2 & H3 & -> & _).
    exists s, ip, c. repeat split; assumption.
Qed.

Lemma list_ascii_of_string_app (a b : string) :
  list_ascii_of_string (a +:+ b) = list_ascii_of_string a ++ list_ascii_of_string b.
Proof. induction a as [|c a IH]; simpl; [reflexivity | now rewrite IH]. Qed.

End Formatting.

(** * Products with a zero *)

Section ZeroTotals.
Import JS.

Lemma div_zero_by_truthy s base :
  truthy base = true -> is_zero (div (S754_zero s) base) = true.
Proof. destruct base; try discriminate; reflexivity. Qed.

Lemma rounded_product_with_zero_r x z :
  is_zero z = true -> JS.Number (toFixedSafe (mul x z) 1) = pos_zero.
Proof.
  destruct z as [s| | |]; try discriminate. intros _.
  destruct x as [[]|[]| |[] m e], s; reflexivity.
Qed.

Lemma rounded_product_with_zero_l z y :
  is_zero z = true -> JS.Number (toFixedSafe (mul z y) 1) = pos_zero.
Proof.
  destruct z as [s| | |]; try discriminate. intros _.
  destruct y as [[]|[]| |[] m e], s; reflexivity.
Qed.

Lemma scaleBase_truthy x : truthy (scaleBase x) = true.
Proof. destruct x; reflexivity. Qed.

End ZeroTotals.

(** * Rounding in binary64: shifting, rounding, values *)

Module Rounding.
Import JS.

Lemma fexp_fe x : fexp prec emax x = fe x.
Proof. reflexivity. Qed.

Lemma digits2_bounds p :
  2 ^ (Zpos (digits2_pos p) - 1) <= Zpos p < 2 ^ Zpos (digits2_pos p).
Proof.
  induction p as [p IH|p IH|]; simpl digits2_pos.
  - rewrite Pos2Z.inj_succ.
    replace (Z.succ (Zpos (digits2_pos p)) - 1) with (Z.succ (Zpos (digits2_pos p) - 1)) by lia.
    rewrite !Z.pow_succ_r by lia. lia.
  - rewrite Pos2Z.inj_succ.
    replace (Z.succ (Zpos (digits2_pos p)) - 1) with (Z.succ (Zpos (digits2_pos p) - 1)) by lia.
    rewrite !Z.pow_succ_r by lia. lia.
  - simpl. lia.
Qed.

Lemma Zdigits2_bounds m :
  0 < m -> 2 ^ (Zdigits2 m - 1) <= m < 2 ^ Zdigits2 m.
Proof. destruct m as [|p|p]; try lia. intros _. apply digits2_bounds. Qed.

Lemma Zdigits2_nonneg m : 0 <= Zdigits2 m.
Proof. destruct m; simpl; lia. Qed.

Lemma Zdigits2_le m k : 0 <= k -> 0 <= m < 2 ^ k -> Zdigits2 m <= k.
Proof.
  intros Hk [H0 H]. destruct (Z.eq_dec m 0) as [->|Hm]; [simpl; lia|].
  pose proof (Zdigits2_bounds m ltac:(lia)) as [Hl _].
  pose proof (Zdigits2_nonneg m).
  destruct (Z_lt_le_dec k (Zdigits2 m)) as [Hlt|]; [|lia].
  assert (2 ^ k <= 2 ^ (Zdigits2 m - 1)) by (apply Z.pow_le_mono_r; lia). lia.
Qed.

Lemma Zdigits2_ge m k : 0 <= k -> 2 ^ k <= m -> k + 1 <= Zdigits2 m.
Proof.
  intros Hk H.
  assert (0 < m) by (pose proof (Z.pow_pos_nonneg 2 k); lia).
  pose proof (Zdigits2_bounds m ltac:(lia)) as [_ Hu].
  pose proof (Zdigits2_nonneg m).
  destruct (Z_lt_le_dec (Zdigits2 m) (k + 1)) as [Hlt|]; [|lia].
  assert (2 ^ Zdigits2 m <= 2 ^ k) by (apply Z.pow_le_mono_r; lia). lia.
Qed.

Lemma located_bounds a b m l : located a b m l -> m * b <= a < (m + 1) * b.
Proof. intros [Hb H]. destruct l as [|[]]; lia. Qed.

Lemma loc_of_shr_record_of_loc m l :
  loc_of_shr_record (shr_record_of_loc m l) = l.
Proof. destruct l as [|[]]; reflexivity. Qed.

Lemma shr_1_located mrs a b :
  0 <= shr_m mrs ->
  located a b (shr_m mrs) (loc_of_shr_record mrs) ->
  located a (2 * b) (shr_m (shr_1 mrs)) (loc_of_shr_record (shr_1 mrs)).
Proof.
  destruct mrs as [m r s]. simpl shr_m. intros Hm [Hb H].
  split; [lia|].
  destruct m as [|[p|p|]|p]; try lia;
    destruct r, s; cbn [shr_1 loc_of_shr_record shr_m orb] in *;
    try rewrite (Pos2Z.inj_xI p) in *; try rewrite (Pos2Z.inj_xO p) in *; lia.
Qed.

Lemma iter_shr_1_located p :
  forall mrs a b,
    0 <= shr_m mrs ->
    located a b (shr_m mrs) (loc_of_shr_record mrs) ->
    located a (2 ^ Zpos p * b) (shr_m (SpecFloat.iter_pos shr_1 p mrs))
      (loc_of_shr_record (SpecFloat.iter_pos shr_1 p mrs)).
Proof.
  induction p as [p IH|p IH|]; intros mrs a b Hm H; simpl SpecFloat.iter_pos.
  - replace (2 ^ Zpos p~1 * b) with (2 ^ Zpos p * (2 ^ Zpos p * (2 * b))).
    + apply IH; [now apply JSFacts.iter_pos_shr_1_nonneg, JSFacts.shr_1_nonneg|].
      apply IH; [now apply JSFacts.shr_1_nonneg|].
      now apply shr_1_located.
    + replace (Zpos p~1) with (Zpos p + Zpos p + 1) by lia.
      rewrite !Z.pow_add_r, Z.pow_1_r by lia. ring.
  - replace (2 ^ Zpos p~0 * b) with (2 ^ Zpos p * (2 ^ Zpos p * b)).
    + apply IH; [now apply JSFacts.iter_pos_shr_1_nonneg|].
      now apply IH.
    + replace (Zpos p~0) with (Zpos p + Zpos p) by lia.
      rewrite Z.pow_add_r by lia. ring.
  - change (2 ^ 1) with 2. now apply shr_1_located.
Qed.

(** [shr] by [n] places: the exponent grows by [max n 0]. *)
Lemma shr_located mrs e n a b :
  0 <= shr_m mrs ->
  located a b (shr_m mrs) (loc_of_shr_record mrs) ->
  let '(mrs', e') := shr mrs e n in
  e' = e + Z.max n 0 /\ 0 <= shr_m mrs' /\
  located a (2 ^ Z.max n 0 * b) (shr_m mrs') (loc_of_shr_record mrs').
Proof.
  intros Hm H. destruct n as [|p|p]; simpl shr.
  - change (Z.max 0 0) with 0. rewrite Z.add_0_r, Z.pow_0_r, Z.mul_1_l. auto.
  - replace (Z.max (Zpos p) 0) with (Zpos p) by lia.
    split; [reflexivity|]. split; [now apply JSFacts.iter_pos_shr_1_nonneg|].
    now apply iter_shr_1_located.
  - replace (Z.max (Zneg p) 0) with 0 by lia.
    rewrite Z.add_0_r, Z.pow_0_r, Z.mul_1_l. auto.
Qed.

Lemma round_nearest_even_located a b m l :
  located a b m l ->
  let m' := round_nearest_even m l in
  m <= m' <= m + 1 /\ 2 * Z.abs (m' * b - a) <= b /\
  (l = loc_Exact -> m' = m).
Proof.
  intros [Hb H]. destruct l as [|[]]; simpl.
  - split; [lia|]. split; [|auto]. subst a. rewrite Z.sub_diag. simpl. lia.
  - destruct (Z.even m); (split; [lia|]); (split; [|discriminate]); lia.
  - split; [lia|]. split; [|discriminate]. lia.
  - split; [lia|]. split; [|discriminate]. lia.
Qed.

Lemma shr_no_shift mrs e n : n <= 0 -> shr mrs e n = (mrs, e).
Proof. destruct n; try reflexivity. lia. Qed.

Lemma fe_ge x : -1074 <= fe x.
Proof. unfold fe. lia. Qed.

(** What [binary_round_aux] returns for [a / b * 2^e] located at [m], [l],
    when the mantissa has to be shifted right by [k >= 0] places to reach its
    exponent [f]: the mantissa [m'] rounded there, with the carry into the
    next binade and the overflow test. *)
Lemma binary_round_aux_core s m e l a b :
  0 <= m -> located a b m l -> e <= fe (Zdigits2 m + e) ->
  let f := fe (Zdigits2 m + e) in
  let k := f - e in
  exists m',
    0 <= m' <= 2 ^ 53 /\
    (-1074 < f -> 2 ^ 52 <= m') /\
    2 * Z.abs (m' * (2 ^ k * b) - a) <= 2 ^ k * b /\
    binary_round_aux prec emax s m e l =
      if m' =? 0 then S754_zero s
      else if m' <? 2 ^ 53
           then if f <=? 971 then S754_finite s (Z.to_pos m') f
                else S754_infinity s
           else if f + 1 <=? 971 then S754_finite s (Z.to_pos (2 ^ 52)) (f + 1)
                else S754_infinity s.
Proof.
  intros Hm Hloc Hk f k.
  assert (Hk0 : 0 <= k) by (unfold k, f; lia).
  unfold binary_round_aux, shr_fexp. rewrite !fexp_fe. fold f. fold k.
  pose proof (shr_located (shr_record_of_loc m l) e k a b) as Hs.
  rewrite JSFacts.shr_record_of_loc_m, loc_of_shr_record_of_loc in Hs.
  specialize (Hs Hm Hloc).
  destruct (shr (shr_record_of_loc m l) e k) as [mrs1 e1].
  rewrite Z.max_l in Hs by lia.
  destruct Hs as (He1 & Hm1 & Hloc1).
  assert (Ee1 : e1 = f) by (unfold k in He1; lia). clear He1. subst e1.
  set (m1 := shr_m mrs1) in *. set (l1 := loc_of_shr_record mrs1) in *.
  (* the shifted mantissa has at most 53 bits *)
  assert (Hp : 0 < 2 ^ k) by (apply Z.pow_pos_nonneg; lia).
  assert (Hm153 : m1 < 2 ^ 53).
  { pose proof (located_bounds _ _ _ _ Hloc) as [_ Hu].
    pose proof (located_bounds _ _ _ _ Hloc1) as [Hl _].
    destruct Hloc as [Hb _].
    assert (Hmk : m1 * 2 ^ k <= m).
    { assert (m1 * 2 ^ k * b < (m + 1) * b) by lia.
      assert (m1 * 2 ^ k < m + 1) by (apply (Z.mul_lt_mono_pos_r b); lia). lia. }
    destruct (Z.eq_dec m 0) as [->|Hm0].
    - assert (m1 * 2 ^ k <= 0) by lia.
      assert (m1 <= 0) by nia. pose proof (Z.pow_pos_nonneg 2 53). lia.
    - pose proof (Zdigits2_bounds m ltac:(lia)) as [_ Hd].
      assert (Hdk : Zdigits2 m <= k + 53) by (unfold k, f, fe; lia).
      pose proof (Zdigits2_nonneg m).
      assert (2 ^ Zdigits2 m <= 2 ^ (k + 53)) by (apply Z.pow_le_mono_r; lia).
      rewrite Z.pow_add_r in * by lia.
      apply (Z.mul_lt_mono_pos_r (2 ^ k)); lia. }
  assert (Hm152 : -1074 < f -> 2 ^ 52 <= m1).
  { intros Hf.
    pose proof (located_bounds _ _ _ _ Hloc) as [Hl _].
    pose proof (located_bounds _ _ _ _ Hloc1) as [_ Hu].
    destruct Hloc as [Hb _].
    assert (Hmk : m < (m1 + 1) * 2 ^ k).
    { assert (m * b < (m1 + 1) * 2 ^ k * b) by lia.
      apply (Z.mul_lt_mono_pos_r b); lia. }
    destruct (Z.eq_dec m 0) as [->|Hm0].
    - simpl in f. unfold f, fe, k in *. lia.
    - pose proof (Zdigits2_bounds m ltac:(lia)) as [Hd _].
      assert (Hdk : Zdigits2 m - 1 = k + 52) by (unfold k, f, fe in *; lia).
      rewrite Hdk, Z.pow_add_r in Hd by lia.
      assert (2 ^ k * 2 ^ 52 < (m1 + 1) * 2 ^ k) by lia.
      assert (2 ^ 52 < m1 + 1) by (apply (Z.mul_lt_mono_pos_r (2 ^ k)); lia).
      lia. }
  pose proof (round_nearest_even_located _ _ _ _ Hloc1) as Hr. cbv zeta in Hr.
  set (mr := round_nearest_even m1 l1) in *.
  destruct Hr as (Hr1 & Hr2 & Hr3).
  exists mr. split; [lia|]. split; [intros Hf; specialize (Hm152 Hf); lia|].
  split; [exact Hr2|].
  pose proof (fe_ge (Zdigits2 m + e)) as Hf. fold f in Hf.
  destruct (Z.eq_dec mr (2 ^ 53)) as [E53|N53].
  - rewrite E53.
    change (Zdigits2 (2 ^ 53)) with 54. rewrite fexp_fe.
    replace (fe (54 + f) - f) with 1 by (unfold fe; lia).
    change (shr (shr_record_of_loc (2 ^ 53) loc_Exact) f 1)
      with ({| shr_m := 2 ^ 52; shr_r := false; shr_s := false |}, f + 1).
    reflexivity.
  - assert (Hlt : mr < 2 ^ 53) by lia.
    pose proof (Zdigits2_le mr 53 ltac:(lia) ltac:(lia)) as Hd.
    rewrite fexp_fe, shr_no_shift by (unfold fe; lia).
    rewrite JSFacts.shr_record_of_loc_m.
    destruct (Z.ltb_spec mr (2 ^ 53)); [|lia].
    destruct mr as [|p|p]; [reflexivity|reflexivity|lia].
Qed.

Lemma valid_finite m f :
  0 < m < 2 ^ 53 -> f <= 971 -> -1074 <= f ->
  (-1074 < f -> 2 ^ 52 <= m) ->
  valid_binary prec emax (S754_finite false (Z.to_pos m) f) = true.
Proof.
  intros Hm Hf Hf' Hn. unfold valid_binary, bounded, canonical_mantissa.
  rewrite fexp_fe. change (emax - prec) with 971.
  apply andb_true_intro. split; [|now apply Z.leb_le].
  apply Z.eqb_eq.
  change (Zpos (digits2_pos (Z.to_pos m))) with (Zdigits2 (Zpos (Z.to_pos m))).
  rewrite Z2Pos.id by lia.
  pose proof (Zdigits2_le m 53 ltac:(lia) ltac:(lia)) as Hd.
  pose proof (Zdigits2_nonneg m) as Hd0.
  unfold fe. destruct (Z.eq_dec f (-1074)) as [->|Hne]; [lia|].
  pose proof (Zdigits2_ge m 52 ltac:(lia) (Hn ltac:(lia))). lia.
Qed.

Local Open Scope Q_scope.

Lemma pow2_pos e : 0 < 2 ^ e.
Proof. apply Qpower_0_lt. reflexivity. Qed.

Lemma pow2_add a b : 2 ^ (a + b) == 2 ^ a * 2 ^ b.
Proof. apply Qpower_plus. discriminate. Qed.

Lemma pow2_le a b : (a <= b)%Z -> 2 ^ a <= 2 ^ b.
Proof. intros H. apply Qpower_le_compat_l; [exact H|]. discriminate. Qed.

Lemma pow2_inject k : (0 <= k)%Z -> inject_Z (2 ^ k) == 2 ^ k.
Proof. intros H. now rewrite Zpower_Qpower. Qed.

Lemma pow2_half e : 2 ^ e == 2 * 2 ^ (e - 1).
Proof.
  replace e with (1 + (e - 1))%Z at 1 by lia. rewrite pow2_add. reflexivity.
Qed.

(** From the integer bound of the rounding to the bound on values. *)
Lemma scaled_error_mult (M P B X E : Q) :
  0 < B -> 0 < P -> 0 < E ->
  - (P * B) <= 2 * (M * (P * B) - X * B) <= P * B ->
  Qabs (M * (P * E) - X * E) <= P * E * (1 # 2).
Proof.
  intros HB HP HE [H1 H2].
  apply Qabs_Qle_condition.
  assert (T1 : 0 * B <= (2 * (M * P - X) + P) * B) by lra.
  assert (T2 : 0 * B <= (P - 2 * (M * P - X)) * B) by lra.
  apply Qmult_lt_0_le_reg_r in T1, T2; try assumption.
  pose proof (Qmult_le_0_compat _ _ T1 (Qlt_le_weak _ _ HE)) as U1.
  pose proof (Qmult_le_0_compat _ _ T2 (Qlt_le_weak _ _ HE)) as U2.
  split; lra.
Qed.

Lemma scaled_error (M P B A E : Q) :
  0 < B -> 0 < P -> 0 < E ->
  - (P * B) <= 2 * (M * (P * B) - A) <= P * B ->
  Qabs (M * (P * E) - A / B * E) <= P * E * (1 # 2).
Proof.
  intros HB HP HE H.
  apply (scaled_error_mult M P B (A / B) E HB HP HE).
  assert (EA : A / B * B == A) by (field; lra).
  now rewrite EA.
Qed.

Lemma integer_bound_to_Q m' k b a :
  (0 <= k)%Z ->
  (2 * Z.abs (m' * (2 ^ k * b) - a) <= 2 ^ k * b)%Z ->
  - (2 ^ k * inject_Z b) <=
    2 * (inject_Z m' * (2 ^ k * inject_Z b) - inject_Z a) <= 2 ^ k * inject_Z b.
Proof.
  intros Hk H. rewrite <- (pow2_inject k Hk).
  remember (2 ^ k)%Z as P eqn:EP. clear EP.
  unfold Qle, Qmult, Qminus, Qplus, Qopp, inject_Z. simpl. lia.
Qed.

Lemma round_aux_rounded s m e l a b :
  (0 <= m)%Z -> located a b m l -> (e <= fe (Zdigits2 m + e))%Z ->
  rounded (binary_round_aux prec emax s m e l) s
    (inject_Z a / inject_Z b * 2 ^ e).
Proof.
  intros Hm Hloc Hk.
  destruct (binary_round_aux_core s m e l a b Hm Hloc Hk)
    as (m' & Hm' & Hnorm & Herr & ->).
  set (f := fe (Zdigits2 m + e)) in *. set (k := (f - e)%Z) in *.
  assert (Hk0 : (0 <= k)%Z) by (unfold k; lia).
  pose proof (fe_ge (Zdigits2 m + e)) as Hf. fold f in Hf.
  pose proof (located_bounds _ _ _ _ Hloc) as [Hlo _].
  destruct Hloc as [Hb _].
  set (v := inject_Z a / inject_Z b * 2 ^ e).
  assert (HB : 0 < inject_Z b) by (change 0 with (inject_Z 0); now rewrite <- Zlt_Qlt).
  (* the error at the exponent [f] *)
  assert (E1 : Qabs (inject_Z m' * 2 ^ f - v) <= 2 ^ f * (1 # 2)).
  { replace f with (k + e)%Z at 1 2 by (unfold k; lia).
    rewrite !pow2_add. unfold v.
    apply scaled_error; try apply pow2_pos; try exact HB.
    now apply integer_bound_to_Q. }
  (* above the subnormal range the value is at least [2^(f+52)] *)
  assert (E2 : (-1074 < f)%Z -> 2 ^ (f + 52) <= v).
  { intros Hn.
    assert (Hm0 : (0 < m)%Z).
    { destruct (Z.eq_dec m 0%Z) as [->|]; [|lia]. simpl in f. unfold f, fe in *. lia. }
    pose proof (Zdigits2_bounds m Hm0) as [Hd _].
    assert (Ef : (f + 52 = (Zdigits2 m - 1) + e)%Z) by (unfold f, fe in *; lia).
    rewrite Ef, pow2_add. unfold v.
    apply Qmult_le_compat_r; [|apply Qlt_le_weak, pow2_pos].
    apply Qle_shift_div_l; [exact HB|].
    pose proof (Zdigits2_nonneg m).
    rewrite <- pow2_inject by lia. rewrite <- inject_Z_mult, <- Zle_Qle. nia. }
  assert (E3 : (-1074 < f)%Z -> 2 ^ f * (1 # 2) <= v * 2 ^ (-53)).
  { intros Hn. specialize (E2 Hn).
    apply (Qmult_le_compat_r _ _ (2 ^ (-53))) in E2; [|apply Qlt_le_weak, pow2_pos].
    rewrite <- pow2_add in E2. replace (f + 52 + -53)%Z with (f - 1)%Z in E2 by lia.
    rewrite (pow2_half f). lra. }
  assert (Hdisj : Qabs (inject_Z m' * 2 ^ f - v) <= v * 2 ^ (-53) \/
                  Qabs (inject_Z m' * 2 ^ f - v) <= 2 ^ (-1075)).
  { destruct (Z.eq_dec f (-1074)%Z) as [Ef|Nf].
    - right. eapply Qle_trans; [exact E1|]. rewrite Ef.
      rewrite (pow2_half (-1074)). change (-1074 - 1)%Z with (-1075)%Z.
      generalize (2 ^ (-1075)). intros q. lra.
    - left. eapply Qle_trans; [exact E1|]. apply E3. lia. }
  assert (Hover : (971 <= f)%Z -> 2 ^ 1023 <= v).
  { intros H. eapply Qle_trans; [|apply E2; lia]. apply pow2_le. lia. }
  destruct (Z.eqb_spec m' 0%Z) as [->|Hm0].
  - split; [reflexivity|]. split; [reflexivity|].
    simpl mag.
    assert (Ez : 0 - v == inject_Z 0 * 2 ^ f - v)
      by (change (inject_Z 0) with 0; ring).
    rewrite Ez. exact Hdisj.
  - destruct (Z.ltb_spec m' (2 ^ 53)%Z) as [Hlt|Hge].
    + destruct (Z.leb_spec f 971%Z) as [Hle|Hgt].
      * split; [|split; [reflexivity|]].
        { destruct s; [|apply valid_finite; auto; lia].
          change (valid_binary prec emax (S754_finite true (Z.to_pos m') f))
            with (valid_binary prec emax (S754_finite false (Z.to_pos m') f)).
          apply valid_finite; auto; lia. }
        simpl mag. rewrite Z2Pos.id by lia. exact Hdisj.
      * split; [reflexivity|]. split; [reflexivity|]. apply Hover. lia.
    + assert (Em : m' = (2 ^ 53)%Z) by lia.
      destruct (Z.leb_spec (f + 1)%Z 971%Z) as [Hle|Hgt].
      * split; [|split; [reflexivity|]].
        { assert (Hv : valid_binary prec emax
                         (S754_finite false (Z.to_pos (2 ^ 52)%Z) (f + 1)) = true).
          { unfold valid_binary, bounded, canonical_mantissa. rewrite fexp_fe.
            change (emax - prec)%Z with 971%Z.
            apply andb_true_intro. split.
            - apply Z.eqb_eq.
              change (Zpos (digits2_pos (Z.to_pos (2 ^ 52)%Z))) with 53%Z.
              unfold fe. lia.
            - now apply Z.leb_le. }
          destruct s; exact Hv. }
        simpl mag.
        assert (Ev : inject_Z (Zpos (Z.to_pos (2 ^ 52)%Z)) * 2 ^ (f + 1) ==
                     inject_Z m' * 2 ^ f).
        { rewrite Em. rewrite Z2Pos.id by lia.
          rewrite !pow2_inject by lia. rewrite <- !pow2_add. f_equiv. lia. }
        rewrite Ev. exact Hdisj.
      * split; [reflexivity|]. split; [reflexivity|]. apply Hover. lia.
Qed.

End Rounding.

(** * Rounding in binary64: the operations *)

Module Operations.
Import JS Rounding.

Lemma valid_canonical s m e :
  valid_binary prec emax (S754_finite s m e) = true ->
  e = fe (Zdigits2 (Zpos m) + e) /\ e <= 971.
Proof.
  unfold valid_binary, bounded, canonical_mantissa. rewrite fexp_fe.
  change (emax - prec) with 971.
  intros H. apply andb_prop in H as [H1 H2].
  apply Z.eqb_eq in H1. apply Z.leb_le in H2. simpl Zdigits2. lia.
Qed.

Lemma Zdigits2_mul_ge m1 m2 :
  0 < m1 -> 0 < m2 -> Zdigits2 m1 + Zdigits2 m2 - 1 <= Zdigits2 (m1 * m2).
Proof.
  intros H1 H2.
  pose proof (Zdigits2_bounds m1 H1) as [L1 _].
  pose proof (Zdigits2_bounds m2 H2) as [L2 _].
  assert (D1 : 1 <= Zdigits2 m1) by (apply (Zdigits2_ge m1 0); lia).
  assert (D2 : 1 <= Zdigits2 m2) by (apply (Zdigits2_ge m2 0); lia).
  assert (2 ^ (Zdigits2 m1 - 1 + (Zdigits2 m2 - 1)) <= m1 * m2).
  { rewrite Z.pow_add_r by lia.
    assert (0 < 2 ^ (Zdigits2 m1 - 1)) by (apply Z.pow_pos_nonneg; lia).
    assert (0 < 2 ^ (Zdigits2 m2 - 1)) by (apply Z.pow_pos_nonneg; lia).
    nia. }
  pose proof (Zdigits2_ge (m1 * m2) (Zdigits2 m1 - 1 + (Zdigits2 m2 - 1))
                ltac:(lia) H). lia.
Qed.

Lemma new_location_located nb q r :
  0 < nb -> 0 <= r < nb -> located (q * nb + r) nb q (new_location nb r).
Proof.
  intros Hnb Hr. split; [exact Hnb|].
  unfold new_location, new_location_even, new_location_odd.
  destruct (Z.even nb) eqn:Ev.
  - destruct (Z.eqb_spec r 0) as [->|Hr0]; [lia|].
    destruct (Z.compare_spec (2 * r) nb); lia.
  - destruct (Z.eqb_spec r 0) as [->|Hr0]; [lia|].
    assert (Hodd : Z.odd nb = true) by (rewrite <- Z.negb_even, Ev; reflexivity).
    apply Z.odd_spec in Hodd as [j Hj].
    destruct (Z.compare_spec (2 * r + 1) nb); lia.
Qed.

Lemma div_core_spec m1 e1 m2 e2 :
  0 < m1 -> 0 < m2 ->
  let '(q, e', l) := SFdiv_core_binary prec emax m1 e1 m2 e2 in
  exists s,
    0 <= s /\ e1 - e2 = s + e' /\ 0 <= q /\
    located (m1 * 2 ^ s) m2 q l /\ e' <= fe (Zdigits2 q + e').
Proof.
  intros H1 H2. unfold SFdiv_core_binary. rewrite fexp_fe.
  set (d := Zdigits2 m1 + e1 - (Zdigits2 m2 + e2)).
  set (e' := Z.min (fe d) (e1 - e2)).
  set (s := e1 - e2 - e').
  assert (Hs : 0 <= s) by (unfold s, e'; lia).
  set (m' := match s with Z0 => m1 | Zpos _ => Z.shiftl m1 s | Zneg _ => 0 end).
  assert (Em : m' = m1 * 2 ^ s).
  { unfold m'. destruct s as [|p|p] eqn:Es; [rewrite Z.pow_0_r; lia| |lia].
    now rewrite Z.shiftl_mul_pow2 by lia. }
  pose proof (Z.div_eucl_eq m' m2 ltac:(lia)) as Hd.
  pose proof (Z.mod_pos_bound m' m2 H2) as Hr. unfold Z.modulo in Hr.
  destruct (Z.div_eucl m' m2) as [q r].
  assert (Hp : 0 < 2 ^ s) by (apply Z.pow_pos_nonneg; lia).
  assert (Hq : 0 <= q) by nia.
  exists s. split; [exact Hs|]. split; [unfold s; lia|]. split; [exact Hq|].
  split.
  - rewrite <- Em, Hd. replace (m2 * q + r) with (q * m2 + r) by ring.
    now apply new_location_located.
  - destruct (Z_le_gt_dec e' (-1074)) as [Hle|Hgt]; [unfold fe; lia|].
    assert (He' : e' <= d - 53) by (unfold e', fe in *; lia).
    assert (Hs' : Zdigits2 m2 - Zdigits2 m1 + 53 <= s) by (unfold s, d in *; lia).
    pose proof (Zdigits2_bounds m1 H1) as [L1 _].
    pose proof (Zdigits2_bounds m2 H2) as [_ U2].
    assert (D1 : 1 <= Zdigits2 m1) by (apply (Zdigits2_ge m1 0); lia).
    assert (D2 : 1 <= Zdigits2 m2) by (apply (Zdigits2_ge m2 0); lia).
    assert (Hbig : 2 ^ 52 * m2 <= m').
    { rewrite Em.
      assert (2 ^ (Zdigits2 m2 + 52) <= m1 * 2 ^ s).
      { assert (2 ^ (Zdigits2 m2 + 52) <= 2 ^ (Zdigits2 m1 - 1 + s))
          by (apply Z.pow_le_mono_r; lia).
        rewrite (Z.pow_add_r 2 (Zdigits2 m1 - 1) s) in H by lia.
        apply Z.le_trans with (2 ^ (Zdigits2 m1 - 1) * 2 ^ s); [exact H|].
        apply Z.mul_le_mono_nonneg_r; lia. }
      rewrite Z.pow_add_r in H by lia. nia. }
    assert (Hq52 : 2 ^ 52 <= q) by nia.
    pose proof (Zdigits2_ge q 52 ltac:(lia) Hq52). unfold fe. lia.
Qed.

Lemma iter_xO m d : Zpos (Pos.iter xO m d) = Zpos m * 2 ^ Zpos d.
Proof.
  induction d as [|d IH] using Pos.peano_ind.
  - simpl. lia.
  - rewrite Pos.iter_succ, Pos2Z.inj_xO, IH, Pos2Z.inj_succ, Z.pow_succ_r by lia.
    ring.
Qed.

Lemma Zdigits2_shift m j :
  0 < m -> 0 <= j -> Zdigits2 (m * 2 ^ j) = Zdigits2 m + j.
Proof.
  intros Hm Hj.
  pose proof (Zdigits2_bounds m Hm) as [L U].
  assert (D : 1 <= Zdigits2 m) by (apply (Zdigits2_ge m 0); lia).
  assert (Hp : 0 < 2 ^ j) by (apply Z.pow_pos_nonneg; lia).
  apply Z.le_antisymm.
  - apply Zdigits2_le; [lia|]. split; [nia|].
    rewrite Z.pow_add_r by lia. nia.
  - assert (2 ^ (Zdigits2 m - 1 + j) <= m * 2 ^ j).
    { rewrite Z.pow_add_r by lia. nia. }
    pose proof (Zdigits2_ge (m * 2 ^ j) (Zdigits2 m - 1 + j) ltac:(lia) H). lia.
Qed.

Lemma shl_align_spec m e :
  let '(mz, ez) := shl_align m e (fe (Zdigits2 (Zpos m) + e)) in
  exists j, 0 <= j /\ Zpos mz = Zpos m * 2 ^ j /\ e = ez + j /\
            ez <= fe (Zdigits2 (Zpos mz) + ez).
Proof.
  unfold shl_align.
  destruct (fe (Zdigits2 (Zpos m) + e) - e) as [|d|d] eqn:E.
  - exists 0. rewrite Z.pow_0_r. repeat split; lia.
  - exists 0. rewrite Z.pow_0_r. repeat split; lia.
  - exists (Zpos d). split; [lia|]. split; [apply iter_xO|]. split; [lia|].
    rewrite iter_xO, Zdigits2_shift by lia.
    replace (Zdigits2 (Zpos m) + Zpos d + fe (Zdigits2 (Zpos m) + e))
      with (Zdigits2 (Zpos m) + e) by lia. lia.
Qed.

Lemma valid_mantissa s m e :
  valid_binary prec emax (S754_finite s m e) = true ->
  Zpos m < 2 ^ 53 /\ e <= 971.
Proof.
  intros V. apply valid_canonical in V as [C E]. split; [|exact E].
  pose proof (Zdigits2_bounds (Zpos m) ltac:(lia)) as [_ U].
  assert (D : Zdigits2 (Zpos m) <= 53) by (unfold fe in C; lia).
  assert (2 ^ Zdigits2 (Zpos m) <= 2 ^ 53)
    by (apply Z.pow_le_mono_r; [lia | exact D]).
  lia.
Qed.

Local Open Scope Q_scope.

Lemma rounded_ext r s v v' : v == v' -> rounded r s v -> rounded r s v'.
Proof.
  intros E (Hv & Hs & H). split; [exact Hv|]. split; [exact Hs|].
  destruct r; try exact H; now rewrite <- E.
Qed.

(** The product of two valid finite Numbers is their exact product,
    rounded. *)
Lemma mul_rounded sx mx ex sy my ey :
  valid_binary prec emax (S754_finite sx mx ex) = true ->
  valid_binary prec emax (S754_finite sy my ey) = true ->
  rounded (mul (S754_finite sx mx ex) (S754_finite sy my ey)) (xorb sx sy)
    (mag (S754_finite sx mx ex) * mag (S754_finite sy my ey)).
Proof.
  intros Vx Vy.
  apply valid_canonical in Vx as [Cx _], Vy as [Cy _].
  unfold mul, SFmul.
  eapply rounded_ext;
    [|apply (round_aux_rounded _ _ _ _ (Zpos (mx * my)) 1%Z)].
  - simpl mag. rewrite Pos2Z.inj_mul, inject_Z_mult, pow2_add.
    change (inject_Z 1) with 1. field.
  - lia.
  - split; [lia|]. lia.
  - pose proof (Zdigits2_mul_ge (Zpos mx) (Zpos my) ltac:(lia) ltac:(lia)) as Hd.
    rewrite <- Pos2Z.inj_mul in Hd.
    pose proof (Zdigits2_ge (Zpos mx) 0 ltac:(lia) ltac:(lia)).
    pose proof (Zdigits2_ge (Zpos my) 0 ltac:(lia) ltac:(lia)).
    unfold fe in *. lia.
Qed.

(** The quotient of two finite Numbers is their exact quotient, rounded. *)
Lemma div_rounded sx mx ex sy my ey :
  rounded (div (S754_finite sx mx ex) (S754_finite sy my ey)) (xorb sx sy)
    (mag (S754_finite sx mx ex) / mag (S754_finite sy my ey)).
Proof.
  unfold div, SFdiv.
  pose proof (div_core_spec (Zpos mx) ex (Zpos my) ey ltac:(lia) ltac:(lia)) as H.
  destruct (SFdiv_core_binary prec emax (Zpos mx) ex (Zpos my) ey) as [[q e'] l].
  destruct H as (s & Hs & He & Hq & Hloc & Hfe).
  eapply rounded_ext; [|apply (round_aux_rounded _ _ _ _ _ _ Hq Hloc Hfe)].
  simpl mag. rewrite inject_Z_mult, (pow2_inject s Hs).
  assert (E : 2 ^ ex == 2 ^ s * 2 ^ e' * 2 ^ ey).
  { rewrite <- !pow2_add. f_equiv. lia. }
  rewrite E.
  pose proof (pow2_pos ey). pose proof (pow2_pos e'). pose proof (pow2_pos s).
  assert (0 < inject_Z (Zpos my))
    by (change 0 with (inject_Z 0); rewrite <- Zlt_Qlt; lia).
  field. split; lra.
Qed.

Lemma binary_round_rounded s m e :
  rounded (binary_round prec emax s m e) s (inject_Z (Zpos m) * 2 ^ e).
Proof.
  unfold binary_round. rewrite fexp_fe.
  change (Zpos (digits2_pos m)) with (Zdigits2 (Zpos m)).
  pose proof (shl_align_spec m e) as H.
  destruct (shl_align m e (fe (Zdigits2 (Zpos m) + e))) as [mz ez].
  destruct H as (j & Hj & Hm & He & Hfe).
  eapply rounded_ext;
    [|apply (round_aux_rounded s (Zpos mz) ez loc_Exact (Zpos mz) 1%Z)].
  - rewrite Hm, He, inject_Z_mult, (pow2_inject j Hj), pow2_add.
    change (inject_Z 1) with 1. field.
  - lia.
  - split; lia.
  - exact Hfe.
Qed.

Lemma rounded_valid r s v : rounded r s v -> valid_binary prec emax r = true.
Proof. now intros [H _]. Qed.

Lemma of_decimal_valid neg n e : valid_binary prec emax (of_decimal neg n e) = true.
Proof.
  unfold of_decimal. destruct n as [|p]; [reflexivity|].
  destruct e.
  - eapply rounded_valid, binary_round_rounded.
  - eapply rounded_valid, binary_round_rounded.
  - eapply rounded_valid, div_rounded.
Qed.

(** The Number of [n / 10]. *)
Lemma of_decimal_tenths neg p :
  rounded (of_decimal neg (Npos p) (-1)) neg (inject_Z (Zpos p) * (1 # 10)).
Proof.
  unfold of_decimal.
  pose proof (div_rounded neg p 0 false (10 ^ 1) 0) as H.
  rewrite xorb_false_r in H.
  eapply rounded_ext; [|exact H].
  simpl mag. change (2 ^ 0) with 1. change (inject_Z (Zpos (10 ^ 1))) with 10.
  field.
Qed.

(** The Number of a decimal with [k] digits after the point. *)
Lemma of_decimal_rounded neg n k :
  rounded (of_decimal neg n (- Z.of_nat k)) neg
    (inject_Z (Z.of_N n) / inject_Z (10 ^ Z.of_nat k)).
Proof.
  destruct n as [|p].
  - split; [reflexivity|]. split; [reflexivity|]. right.
    cbn [mag Z.of_N]. unfold Qdiv. rewrite Qmult_0_l.
    change (Qabs (0 - 0)) with 0. apply Qlt_le_weak, pow2_pos.
  - unfold of_decimal. destruct k as [|k].
    + cbn [Z.of_nat Z.opp]. change (Z.to_pos (10 ^ 0)) with 1%positive.
      rewrite Pos.mul_1_r.
      eapply rounded_ext; [|apply binary_round_rounded].
      cbn [Z.of_N]. change (inject_Z (10 ^ Z.of_nat 0)) with 1.
      change (2 ^ 0) with 1. field.
    + change (- Z.of_nat (S k))%Z with (Zneg (Pos.of_succ_nat k)).
      cbv iota.
      pose proof (div_rounded neg p 0 false (10 ^ Pos.of_succ_nat k) 0) as H.
      rewrite xorb_false_r in H.
      eapply rounded_ext; [|exact H].
      cbn [mag Z.of_N]. change (2 ^ 0) with 1.
      rewrite Pos2Z.inj_pow.
      replace (Z.of_nat (S k)) with (Zpos (Pos.of_succ_nat k)) by lia.
      assert (0 < inject_Z (10 ^ Zpos (Pos.of_succ_nat k))).
      { change 0 with (inject_Z 0). rewrite <- Zlt_Qlt. lia. }
      field. lra.
Qed.

Lemma add_valid x y :
  valid_binary prec emax x = true -> valid_binary prec emax y = true ->
  valid_binary prec emax (add x y) = true.
Proof.
  intros Vx Vy. unfold add, SFadd.
  destruct x as [sx|sx| |sx mx ex], y as [sy|sy| |sy my ey];
    try reflexivity; try assumption;
    try (destruct sx, sy; reflexivity).
  unfold binary_normalize.
  destruct (_ + _)%Z; [reflexivity| |];
    eapply rounded_valid, binary_round_rounded.
Qed.

Lemma numFromUnitString_valid v :
  valid_binary prec emax (numFromUnitString v) = true.
Proof.
  rewrite numFromUnitString_keptMagnitude. unfold keptMagnitude.
  destruct v as [s|]; [|reflexivity].
  destruct (keptToken _) as [[[neg ip] fp]|]; [|reflexivity].
  apply of_decimal_valid.
Qed.

Lemma rawSums_valid items :
  forall acc,
    valid_binary prec emax (kcal acc) = true ->
    valid_binary prec emax (kcal (fold_left addItem items acc)) = true.
Proof.
  induction items as [|item items IH]; intros acc H; simpl; [exact H|].
  apply IH. simpl. apply add_valid; [exact H | apply numFromUnitString_valid].
Qed.

Lemma pow2_neg_inv k : 2 ^ (Zneg k) * inject_Z (2 ^ Zpos k) == 1.
Proof.
  rewrite pow2_inject by lia. rewrite <- pow2_add.
  replace (Zneg k + Zpos k)%Z with 0%Z by lia. reflexivity.
Qed.

Lemma tenths_close (M P Dq Nq : Q) :
  0 < Dq -> P * Dq == 1 ->
  2 * Dq * Nq <= 2 * (M * 10) + Dq ->
  2 * (M * 10) + Dq < 2 * Dq * Nq + 2 * Dq ->
  Qabs (Nq * (1 # 10) - M * P) <= 1 # 20.
Proof.
  intros HDq HP HN1 HN2.
  assert (EM : M == M * P * Dq) by (rewrite <- Qmult_assoc, HP; ring).
  revert EM. generalize (M * P). intros X EM.
  apply Qabs_Qle_condition.
  assert (T1 : 0 * Dq <= (20 * X + 1 - 2 * Nq) * Dq).
  { rewrite EM in HN1. lra. }
  assert (T2 : 0 * Dq <= (2 * Nq + 2 - 20 * X - 1) * Dq).
  { rewrite EM in HN2. lra. }
  apply Qmult_lt_0_le_reg_r in T1, T2; try exact HDq.
  split; lra.
Qed.

(** [toFixed] with one digit: [n / 10] is within [1/20] of the value. *)
Lemma toFixed_int_close m e :
  Qabs (inject_Z (Z.of_N (toFixed_int m e 1)) * (1 # 10)
        - inject_Z (Zpos m) * 2 ^ e) <= 1 # 20.
Proof.
  unfold toFixed_int. change (10 ^ Z.of_nat 1)%Z with 10%Z.
  destruct e as [|k|k].
  - rewrite Z2N.id by lia. change (2 ^ 0)%Z with 1%Z. change (2 ^ 0) with 1.
    rewrite Z.mul_1_r, inject_Z_mult. change (inject_Z 10) with 10.
    apply Qabs_Qle_condition. split; lra.
  - assert (Hp : (0 < 2 ^ Zpos k)%Z) by (apply Z.pow_pos_nonneg; lia).
    rewrite Z2N.id by nia.
    rewrite !inject_Z_mult, pow2_inject by lia. change (inject_Z 10) with 10.
    apply Qabs_Qle_condition. split; lra.
  - set (D := (2 ^ Zpos k)%Z).
    assert (HD : (0 < D)%Z) by (apply Z.pow_pos_nonneg; lia).
    replace (2 ^ (Zpos k + 1))%Z with (2 * D)%Z
      by (unfold D; rewrite Z.pow_add_r by lia; change (2 ^ 1)%Z with 2%Z; ring).
    set (N := ((2 * (Zpos m * 10) + D) / (2 * D))%Z).
    assert (HN : (2 * D * N <= 2 * (Zpos m * 10) + D < 2 * D * N + 2 * D)%Z).
    { unfold N.
      pose proof (Z.mul_div_le (2 * (Zpos m * 10) + D) (2 * D) ltac:(lia)).
      pose proof (Z.mul_succ_div_gt (2 * (Zpos m * 10) + D) (2 * D) ltac:(lia)).
      lia. }
    assert (HN0 : (0 <= N)%Z) by (unfold N; apply Z.div_pos; lia).
    rewrite Z2N.id by exact HN0.
    assert (HDq : 0 < inject_Z D)
      by (change 0 with (inject_Z 0); now rewrite <- Zlt_Qlt).
    destruct HN as [HN1 HN2].
    pose proof (pow2_neg_inv k) as HP. fold D in HP.
    clearbody D N.
    apply (tenths_close (inject_Z (Zpos m)) (2 ^ Zneg k) (inject_Z D) (inject_Z N)
             HDq HP).
    + unfold Qle. simpl. lia.
    + unfold Qlt. simpl. lia.
Qed.

Lemma below_1e21_of_mag s m e :
  mag (S754_finite s m e) < inject_Z (10 ^ 21) ->
  at_least_1e21 m e = false.
Proof.
  simpl mag. intros H. unfold at_least_1e21.
  destruct e as [|k|k]; apply Z.leb_gt.
  - change (2 ^ 0) with 1 in H. rewrite Qmult_1_r in H.
    rewrite <- Zlt_Qlt in H. change (2 ^ 0)%Z with 1%Z. lia.
  - rewrite <- pow2_inject, <- inject_Z_mult in H by lia.
    now rewrite <- Zlt_Qlt in H.
  - pose proof (pow2_neg_inv k) as HP.
    assert (HD : 0 < inject_Z (2 ^ Zpos k)).
    { change 0 with (inject_Z 0). rewrite <- Zlt_Qlt.
      apply Z.pow_pos_nonneg; lia. }
    apply (Qmult_lt_compat_r _ _ (inject_Z (2 ^ Zpos k))) in H; [|exact HD].
    rewrite <- Qmult_assoc, HP, Qmult_1_r, <- inject_Z_mult in H.
    now rewrite <- Zlt_Qlt in H.
Qed.

Lemma mag_nonneg x : 0 <= mag x.
Proof.
  destruct x; simpl; try lra.
  apply Qmult_le_0_compat; [|apply Qlt_le_weak, pow2_pos].
  change 0 with (inject_Z 0). rewrite <- Zle_Qle. lia.
Qed.

Lemma mag_finite_pos s m e : 0 < mag (S754_finite s m e).
Proof.
  simpl. apply Qmult_lt_0_compat; [|apply pow2_pos].
  change 0 with (inject_Z 0). rewrite <- Zlt_Qlt. lia.
Qed.

Lemma mag_valid_lt s m e :
  valid_binary prec emax (S754_finite s m e) = true ->
  mag (S754_finite s m e) <= 2 ^ 1024.
Proof.
  intros V. apply valid_mantissa in V as [Hm He]. simpl.
  assert (E : 2 ^ 1024 == 2 ^ 53 * 2 ^ 971)
    by (rewrite <- pow2_add; apply Qeq_refl).
  rewrite E.
  apply Qle_trans with (inject_Z (Zpos m) * 2 ^ 971).
  - apply Qmult_le_l; [|apply pow2_le; exact He].
    change 0 with (inject_Z 0). rewrite <- Zlt_Qlt. lia.
  - apply Qmult_le_compat_r; [|apply Qlt_le_weak, pow2_pos].
    rewrite <- pow2_inject by lia. rewrite <- Zle_Qle. lia.
Qed.

Lemma exact_mag x :
  exact x == (if sign_of x then - mag x else mag x).
Proof. destruct x as [[]|[]| |[] m e]; simpl; ring. Qed.

Lemma exact_diff t b :
  sign_of t = sign_of b \/ mag t == 0 ->
  Qabs (exact t - exact b) == Qabs (mag t - mag b).
Proof.
  intros H. rewrite !exact_mag. destruct H as [H|H].
  - rewrite H. destruct (sign_of b); [|reflexivity].
    assert (E : - mag t - - mag b == - (mag t - mag b)) by ring.
    rewrite E. apply Qabs_opp.
  - assert (E : (if sign_of t then - mag t else mag t) == mag t).
    { destruct (sign_of t); [|reflexivity]. rewrite H. ring. }
    rewrite E. destruct (sign_of b); [|reflexivity].
    assert (E' : mag t - - mag b == - (mag t - mag b)) by (rewrite H; ring).
    rewrite E'. apply Qabs_opp.
Qed.

(** The error of one rounding, when it does not overflow. *)
Lemma rounded_error r s v :
  rounded r s v -> 0 <= v -> isFinite r = true ->
  Qabs (mag r - v) <= v * 2 ^ (-53) + 2 ^ (-1075).
Proof.
  intros (_ & _ & H) Hv Hf.
  pose proof (pow2_pos (-53)). pose proof (pow2_pos (-1075)).
  assert (0 <= v * 2 ^ (-53)) by (apply Qmult_le_0_compat; lra).
  destruct r; try discriminate Hf; destruct H as [H|H]; lra.
Qed.

Lemma rounded_not_infinite r s v :
  rounded r s v -> v < 2 ^ 1023 -> isFinite r = true.
Proof.
  intros (_ & _ & H) Hv. destruct r; try reflexivity; [lra | contradiction].
Qed.

End Operations.

(** * Writing a Number with one digit and reading it back *)

Module Decimal.
Import JS.

Lemma digit_char_cases c :
  keep_char c = true ->
  is_space c = false /\
  Ascii.eqb c "x" = false /\ Ascii.eqb c "X" = false /\
  Ascii.eqb c "o" = false /\ Ascii.eqb c "O" = false /\
  Ascii.eqb c "b" = false /\ Ascii.eqb c "B" = false.
Proof.
  destruct c as [[] [] [] [] [] [] [] []]; vm_compute; intuition discriminate.
Qed.

Lemma is_digit_cases c :
  is_digit c = true ->
  keep_char c = true /\ Ascii.eqb c "-" = false /\ Ascii.eqb c "." = false.
Proof.
  destruct c as [[] [] [] [] [] [] [] []]; vm_compute; intuition discriminate.
Qed.

Lemma digit_of_digit_char d : (d < 10)%N -> digit_of (digit_char d) = Some d.
Proof.
  intros H.
  assert (d = 0 \/ d = 1 \/ d = 2 \/ d = 3 \/ d = 4 \/ d = 5 \/ d = 6 \/
          d = 7 \/ d = 8 \/ d = 9)%N as Hd by lia.
  repeat (destruct Hd as [->|Hd]; [reflexivity|]). now subst d.
Qed.

Lemma digits_value_app l1 : forall a l2,
  digits_value a (l1 ++ l2) = digits_value (digits_value a l1) l2.
Proof. induction l1 as [|c l1 IH]; intros a l2; simpl; [reflexivity | apply IH]. Qed.

Lemma digits_value_zeros j l :
  digits_value 0 (repeat "0"%char j ++ l) = digits_value 0 l.
Proof. induction j as [|j IH]; simpl; [reflexivity | exact IH]. Qed.

(** The digits written for [n] read back as [n]. *)
Lemma show_digits_value fuel :
  forall n acc,
    (n < 10 ^ N.of_nat fuel)%N ->
    exists ds,
      show_digits fuel n acc = ds ++ acc /\
      forall a, digits_value a ds = (a * 10 ^ N.of_nat (length ds) + n)%N.
Proof.
  induction fuel as [|f IH]; intros n acc Hn.
  - simpl in Hn. assert (n = 0%N) by lia. subst n.
    exists []. split; [reflexivity|]. intros a. simpl. lia.
  - simpl show_digits. destruct (N.ltb_spec n 10%N) as [Hlt|Hge].
    + exists [digit_char (n mod 10)]. split; [reflexivity|].
      intros a. simpl. rewrite digit_of_digit_char by (apply N.mod_lt; lia).
      rewrite N.mod_small by exact Hlt. lia.
    + assert (Hq : (n / 10 < 10 ^ N.of_nat f)%N).
      { apply N.Div0.div_lt_upper_bound.
        rewrite Nat2N.inj_succ, N.pow_succ_r' in Hn. exact Hn. }
      destruct (IH (n / 10)%N (digit_char (n mod 10) :: acc) Hq) as (ds & E & V).
      exists (ds ++ [digit_char (n mod 10)]). split.
      * rewrite E, <- app_assoc. reflexivity.
      * intros a. rewrite digits_value_app, V. simpl.
        rewrite digit_of_digit_char by (apply N.mod_lt; lia).
        rewrite length_app, Nat2N.inj_add. simpl length.
        change (N.of_nat 1) with 1%N. rewrite N.pow_add_r, N.pow_1_r.
        pose proof (N.div_mod n 10%N ltac:(lia)). lia.
Qed.

Lemma show_N_value n : digits_value 0 (show_N n) = n.
Proof.
  unfold show_N.
  assert (Hn : (n < 10 ^ N.of_nat (S (N.to_nat (N.log2 n))))%N).
  { rewrite Nat2N.inj_succ, N2Nat.id.
    destruct (N.eq_dec n 0%N) as [->|Hn0]; [reflexivity|].
    pose proof (N.log2_spec n ltac:(lia)) as [_ H].
    apply N.lt_le_trans with (2 ^ N.succ (N.log2 n))%N; [exact H|].
    apply N.pow_le_mono_l. lia. }
  destruct (show_digits_value _ n [] Hn) as (ds & E & V).
  rewrite E, app_nil_r, V. lia.
Qed.

Lemma span_digits_app ds r :
  Forall (fun a => is_digit a = true) ds ->
  match r with [] => True | c :: _ => is_digit c = false end ->
  span_digits (ds ++ r) = (ds, r).
Proof.
  intros Hd Hr. induction Hd as [|c ds Hc Hd IH]; simpl.
  - destruct r as [|c r]; [reflexivity|]. simpl. now rewrite Hr.
  - now rewrite Hc, IH.
Qed.

Lemma span_digits_single c : is_digit c = true -> span_digits [c] = ([c], []).
Proof. intros H. simpl. now rewrite H. Qed.

Lemma scan_literal_decimal neg ip c :
  ip <> [] -> Forall (fun a => is_digit a = true) ip -> is_digit c = true ->
  scan_literal ((if neg : bool then ["-"%char] else []) ++ ip ++ ["."%char; c]) =
  Some (LitDecimal neg (digits_value 0 (ip ++ [c])) (-1), []).
Proof.
  intros Hne Hip Hc.
  assert (Hbody : forall n,
    match strip_prefix infinity_chars (ip ++ ["."%char; c]) with
    | Some rest => Some (LitInfinity n, rest)
    | None =>
        let '(ip0, r1) := span_digits (ip ++ ["."%char; c]) in
        let '(fp, r3) :=
          match r1 with
          | c0 :: r2 => if Ascii.eqb c0 "." then span_digits r2 else ([], r1)
          | [] => ([], [])
          end in
        match ip0, fp with
        | [], [] => None
        | _, _ =>
            let '(e, rest) := scan_exponent r3 in
            Some (LitDecimal n (digits_value 0 (ip0 ++ fp))
                    (e - Z.of_nat (length fp)), rest)
        end
    end = Some (LitDecimal n (digits_value 0 (ip ++ [c])) (-1), [])).
  { intros n.
    destruct ip as [|d ip']; [congruence|].
    pose proof (Forall_inv Hip) as Hd.
    apply is_digit_cases in Hd as (Hk & _).
    apply keep_char_cases in Hk as (_ & _ & _ & _ & HI).
    unfold infinity_chars.
    change (list_ascii_of_string "Infinity")
      with ("I"%char :: list_ascii_of_string "nfinity").
    cbn [strip_prefix app]. rewrite HI.
    change (d :: ip' ++ ["."%char; c]) with ((d :: ip') ++ ["."%char; c]).
    rewrite (span_digits_app (d :: ip') ["."%char; c] Hip) by reflexivity.
    change (Ascii.eqb "." ".") with true. cbv iota.
    rewrite (span_digits_single c Hc).
    reflexivity. }
  destruct neg; cbn [app]; unfold scan_literal, scan_sign.
  - change (Ascii.eqb "-" "-") with true. cbv iota. apply Hbody.
  - destruct ip as [|d ip']; [congruence|]. cbn [app].
    pose proof (Forall_inv Hip) as Hd.
    apply is_digit_cases in Hd as (Hk & Hm & _).
    apply keep_char_cases in Hk as (_ & Hp & _).
    rewrite Hm, Hp. apply (Hbody false).
Qed.

Lemma drop_spaces_head c r : is_space c = false -> drop_spaces (c :: r) = c :: r.
Proof. intros H. simpl. now rewrite H. Qed.

Lemma is_digit_not_space c : is_digit c = true -> is_space c = false.
Proof.
  intros H. apply is_digit_cases in H as (Hk & _).
  now apply digit_char_cases in Hk.
Qed.

Lemma trim_decimal neg ip c :
  ip <> [] -> Forall (fun a => is_digit a = true) ip -> is_digit c = true ->
  trim ((if neg : bool then ["-"%char] else []) ++ ip ++ ["."%char; c]) =
  (if neg then ["-"%char] else []) ++ ip ++ ["."%char; c].
Proof.
  intros Hne Hip Hc. unfold trim.
  set (t := (if neg then ["-"%char] else []) ++ ip ++ ["."%char; c]).
  assert (E1 : drop_spaces t = t).
  { unfold t. destruct neg; [reflexivity|].
    destruct ip as [|d ip']; [congruence|]. cbn [app].
    apply drop_spaces_head, is_digit_not_space. now apply Forall_inv in Hip. }
  rewrite E1.
  assert (E2 : rev t = c :: "."%char :: rev ip ++ rev (if neg then ["-"%char] else [])).
  { unfold t. rewrite !rev_app_distr. reflexivity. }
  rewrite E2, drop_spaces_head by now apply is_digit_not_space.
  rewrite <- E2. apply rev_involutive.
Qed.

Lemma scan_nondecimal_decimal neg ip c :
  ip <> [] -> Forall (fun a => is_digit a = true) ip -> is_digit c = true ->
  scan_nondecimal ((if neg : bool then ["-"%char] else []) ++ ip ++ ["."%char; c])
  = None.
Proof.
  intros Hne Hip Hc.
  destruct ip as [|d ip']; [congruence|].
  destruct neg; cbn [app].
  - destruct ip'; reflexivity.
  - destruct ip' as [|d2 ip''].
    + cbn [app]. unfold scan_nondecimal. destruct (Ascii.eqb d "0"); reflexivity.
    + assert (Hd2 : is_digit d2 = true)
        by (apply Forall_inv_tail in Hip; now apply Forall_inv in Hip).
      apply is_digit_cases in Hd2 as (Hk & _).
      apply digit_char_cases in Hk as (_ & Hx & HX & Ho & HO & Hb & HB).
      cbn [app]. unfold scan_nondecimal.
      destruct ip''; cbn [app];
        destruct (Ascii.eqb d "0"); try reflexivity;
        now rewrite Hx, HX, Ho, HO, Hb, HB.
Qed.

(** Reading back what [toFixed] wrote with one digit: the Number of
    [n / 10] with the sign of the value. *)
Lemma Number_toFixed neg m e :
  at_least_1e21 m e = false ->
  JS.Number (toFixed (S754_finite neg m e) 1) =
  of_decimal neg (toFixed_int m e 1) (-1).
Proof.
  intros H. unfold toFixed. rewrite H.
  set (n := toFixed_int m e 1).
  destruct (show_N_digits n) as [Hne Hd].
  destruct (insert_point_one _ Hne Hd) as (ip & c & H1 & H2 & H3 & -> & Hpad).
  unfold JS.Number. rewrite list_ascii_of_string_of_list_ascii.
  rewrite (trim_decimal neg ip c H1 H2 H3).
  pose proof (scan_nondecimal_decimal neg ip c H1 H2 H3) as Hnd.
  pose proof (scan_literal_decimal neg ip c H1 H2 H3) as Hlit.
  rewrite Hpad, digits_value_zeros, show_N_value in Hlit.
  destruct ((if neg then ["-"%char] else []) ++ ip ++ ["."%char; c]) as [|a t].
  - discriminate Hlit.
  - now rewrite Hnd, Hlit.
Qed.

End Decimal.

(** * The scaled total against the budget *)

Module Closeness.
Import JS Rounding Operations Decimal.
Local Open Scope Q_scope.

Lemma u53_value : 2 ^ (-53) == 1 # 9007199254740992.
Proof. reflexivity. Qed.

Lemma u51_value : 2 ^ (-51) == 1 # 2251799813685248.
Proof. reflexivity. Qed.

Lemma u1075_le : 2 ^ (-1075) <= 2 ^ (-51).
Proof. apply pow2_le. lia. Qed.

Lemma big_1023 : 17592186044416 <= 2 ^ 1023.
Proof.
  apply Qle_trans with (2 ^ 44); [|apply pow2_le; lia].
  assert (E : 2 ^ 44 == 17592186044416) by reflexivity. rewrite E. lra.
Qed.

Lemma scale_abs (vS mf q e : Q) :
  0 < vS -> Qabs (mf - q) <= e -> Qabs (vS * mf - vS * q) <= vS * e.
Proof.
  intros HS H.
  assert (E : vS * mf - vS * q == vS * (mf - q)) by ring.
  rewrite E, Qabs_Qmult, (Qabs_pos vS) by lra.
  apply Qmult_le_l; assumption.
Qed.

Lemma sub_1075 vS : 0 <= vS -> vS <= 2 ^ 1024 -> vS * 2 ^ (-1075) <= 2 ^ (-51).
Proof.
  intros H0 H.
  assert (E : 2 ^ (-51) == 2 ^ 1024 * 2 ^ (-1075))
    by (rewrite <- pow2_add; apply Qeq_refl).
  rewrite E. apply Qmult_le_compat_r; [exact H|]. apply Qlt_le_weak, pow2_pos.
Qed.

(** The rounded product [S * (B / S)], written with one digit and read
    back, is within 0.1 of [B]. *)
Lemma total_close sS mS eS B :
  valid_binary prec emax (S754_finite sS mS eS) = true ->
  isFinite B = true ->
  isFinite (div B (S754_finite sS mS eS)) = true ->
  mag B <= 1000000000000 ->
  Qabs (exact (JS.Number (toFixedSafe
                  (mul (S754_finite sS mS eS) (div B (S754_finite sS mS eS))) 1))
        - exact B) <= 1 # 10.
Proof.
  intros VS FB Ff HB.
  set (S := S754_finite sS mS eS) in *.
  pose proof (mag_finite_pos sS mS eS) as HS0. fold S in HS0.
  pose proof (mag_valid_lt sS mS eS VS) as HS1. fold S in HS1.
  pose proof (sub_1075 (mag S) ltac:(lra) HS1) as HS2.
  pose proof u53_value as U53. pose proof u51_value as U51.
  pose proof u1075_le as U1075. pose proof (pow2_pos (-1075)) as U0.
  destruct B as [sb| | |sB mB eB]; try discriminate FB.
  - (* a zero budget *)
    rewrite rounded_product_with_zero_r by reflexivity.
    change (exact pos_zero) with 0. change (exact (S754_zero sb)) with 0.
    apply Qabs_Qle_condition. split; lra.
  - set (B := S754_finite sB mB eB) in *.
    pose proof (mag_finite_pos sB mB eB) as HB0. fold B in HB0.
    pose proof (div_rounded sB mB eB sS mS eS) as Rf. fold S B in Rf.
    set (f := div B S) in *.
    assert (Hq : 0 < mag B / mag S) by (apply Qlt_shift_div_l; lra).
    pose proof (rounded_error _ _ _ Rf (Qlt_le_weak _ _ Hq) Ff) as E1.
    apply (scale_abs (mag S)) in E1; [|exact HS0].
    assert (EB : mag S * (mag B / mag S) == mag B) by (field; lra).
    assert (EE : mag S * (mag B / mag S * 2 ^ (-53) + 2 ^ (-1075)) ==
                 mag B * 2 ^ (-53) + mag S * 2 ^ (-1075)) by (field; lra).
    rewrite EB, EE in E1. clear EB EE Hq.
    apply Qabs_Qle_condition in E1. rewrite U53 in E1.
    destruct Rf as (Vf & Sf & _).
    destruct f as [sf| | |sf mf ef] eqn:Ef; try discriminate Ff.
    + (* the factor underflows to zero *)
      rewrite rounded_product_with_zero_r by reflexivity.
      rewrite exact_diff by (right; reflexivity).
      simpl mag in *. apply Qabs_Qle_condition. split; lra.
    + (* the product *)
      pose proof (mul_rounded sS mS eS sf mf ef VS Vf) as Ry. fold S in Ry.
      set (P := mag S * mag (S754_finite sf mf ef)) in *.
      assert (HP0 : 0 <= P).
      { unfold P. apply Qmult_le_0_compat; [lra | apply mag_nonneg]. }
      assert (Fy : isFinite (mul S (S754_finite sf mf ef)) = true).
      { apply (rounded_not_infinite _ _ _ Ry). pose proof big_1023. lra. }
      pose proof (rounded_error _ _ _ Ry HP0 Fy) as E2.
      apply Qabs_Qle_condition in E2. rewrite U53 in E2.
      assert (Sy : sign_of (mul S (S754_finite sf mf ef)) = sB).
      { destruct Ry as (_ & -> & _). simpl in Sf. rewrite Sf.
        destruct sS, sB; reflexivity. }
      destruct (mul S (S754_finite sf mf ef)) as [sy| | |sy my ey] eqn:Ey;
        try discriminate Fy.
      * (* the product underflows to zero *)
        assert (Et : JS.Number (toFixedSafe (S754_zero sy) 1) = pos_zero)
          by (destruct sy; reflexivity).
        rewrite Et, exact_diff by (right; reflexivity).
        simpl mag in *. apply Qabs_Qle_condition. split; lra.
      * simpl in Sy. subst sy.
        set (vy := mag (S754_finite sB my ey)) in *.
        assert (Hy : at_least_1e21 my ey = false).
        { apply (below_1e21_of_mag sB). fold vy.
          change (inject_Z (10 ^ 21)) with 1000000000000000000000. lra. }
        unfold toFixedSafe. cbn [isFinite]. rewrite (Number_toFixed _ _ _ Hy).
        pose proof (toFixed_int_close my ey) as E3.
        change (inject_Z (Zpos my) * 2 ^ ey) with vy in E3.
        apply Qabs_Qle_condition in E3.
        destruct (toFixed_int my ey 1) as [|p].
        -- (* written as 0.0 *)
           assert (Et : exact (of_decimal sB 0 (-1)) == 0) by reflexivity.
           rewrite exact_diff by (right; reflexivity).
           simpl mag at 1. change (inject_Z (Z.of_N 0)) with 0 in E3.
           fold B. apply Qabs_Qle_condition. split; lra.
        -- pose proof (of_decimal_tenths sB p) as Rt.
           change (Z.of_N (Npos p)) with (Zpos p) in E3.
           set (n10 := inject_Z (Zpos p) * (1 # 10)) in *.
           assert (Hn0 : 0 <= n10).
           { unfold n10. apply Qmult_le_0_compat; [|lra].
             change 0 with (inject_Z 0). rewrite <- Zle_Qle. lia. }
           assert (Ft : isFinite (of_decimal sB (Npos p) (-1)) = true).
           { apply (rounded_not_infinite _ _ _ Rt). pose proof big_1023. lra. }
           pose proof (rounded_error _ _ _ Rt Hn0 Ft) as E4.
           apply Qabs_Qle_condition in E4. rewrite U53 in E4.
           rewrite exact_diff by (left; now destruct Rt as (_ & -> & _)).
           fold B. apply Qabs_Qle_condition. split; lra.
Qed.

End Closeness.

(** * Reading back what the scaler wrote *)

Section ReadBack.
Import JS.

Lemma filter_kept_dropped (l u : list ascii) :
  Forall (fun c => keep_char c = true) l ->
  Forall (fun c => keep_char c = false) u ->
  List.filter keep_char (l ++ u) = l.
Proof.
  intros Hl Hu. rewrite List.filter_app.
  assert (E1 : List.filter keep_char l = l).
  { induction Hl as [|c l Hc Hl IH]; simpl; [reflexivity|]. now rewrite Hc, IH. }
  assert (E2 : List.filter keep_char u = []).
  { induction Hu as [|c u Hc Hu IH]; simpl; [reflexivity|]. now rewrite Hc. }
  now rewrite E1, E2, app_nil_r.
Qed.

Lemma oneDecimal_kept (neg : bool) ip c :
  Forall (fun a => is_digit a = true) ip -> is_digit c = true ->
  Forall (fun a => keep_char a = true)
    ((if neg then ["-"%char] else []) ++ ip ++ ["."%char; c]).
Proof.
  intros Hip Hc. apply Forall_app. split.
  - destruct neg; repeat constructor.
  - apply Forall_app. split.
    + eapply List.Forall_impl; [|exact Hip]. intros a Ha.
      now apply Decimal.is_digit_cases in Ha.
    + constructor; [reflexivity|]. constructor; [|constructor].
      now apply Decimal.is_digit_cases in Hc.
Qed.

Lemma Number_oneDecimal (neg : bool) ip c :
  ip <> [] -> Forall (fun a => is_digit a = true) ip -> is_digit c = true ->
  JS.Number (string_of_list_ascii
               ((if neg then ["-"%char] else []) ++ ip ++ ["."%char; c])) =
  of_decimal neg (digits_value 0 (ip ++ [c])) (-1).
Proof.
  intros H1 H2 H3. unfold JS.Number.
  rewrite list_ascii_of_string_of_list_ascii, (Decimal.trim_decimal neg ip c H1 H2 H3).
  pose proof (Decimal.scan_nondecimal_decimal neg ip c H1 H2 H3) as Hnd.
  pose proof (Decimal.scan_literal_decimal neg ip c H1 H2 H3) as Hlit.
  destruct ((if neg then ["-"%char] else []) ++ ip ++ ["."%char; c]) as [|a t].
  - discriminate Hlit.
  - now rewrite Hnd, Hlit.
Qed.

Lemma numFromUnitString_oneDecimal (neg : bool) ip c unit :
  ip <> [] -> Forall (fun a => is_digit a = true) ip -> is_digit c = true ->
  Forall (fun a => keep_char a = false) (list_ascii_of_string unit) ->
  numFromUnitString
    (Some (string_of_list_ascii
             ((if neg then ["-"%char] else []) ++ ip ++ ["."%char; c]) +:+ unit)) =
  of_decimal neg (digits_value 0 (ip ++ [c])) (-1).
Proof.
  intros H1 H2 H3 Hu.
  set (t := (if neg then ["-"%char] else []) ++ ip ++ ["."%char; c]).
  assert (Ht : exists a t', t = a :: t').
  { unfold t. destruct neg; [eauto|]. destruct ip; [congruence|]. cbn. eauto. }
  destruct Ht as (a & t' & Et).
  assert (Es : exists r, string_of_list_ascii t +:+ unit = String a r).
  { rewrite Et. cbn. eauto. }
  destruct Es as (r & Es).
  unfold numFromUnitString. rewrite Es, <- Es.
  unfold strip_units, parseFloat.
  rewrite list_ascii_of_string_app, !list_ascii_of_string_of_list_ascii.
  rewrite (filter_kept_dropped t _ (oneDecimal_kept neg ip c H2 H3) Hu).
  assert (Ed : drop_spaces t = t).
  { rewrite Et. apply Decimal.drop_spaces_head.
    pose proof (oneDecimal_kept neg ip c H2 H3) as Hk. fold t in Hk.
    rewrite Et in Hk. apply Forall_inv in Hk.
    now apply Decimal.digit_char_cases in Hk. }
  rewrite Ed. unfold t.
  rewrite (Decimal.scan_literal_decimal neg ip c H1 H2 H3).
  cbn [literal_value]. now rewrite JSFacts.of_decimal_not_nan.
Qed.

(** What [toFixedSafe] wrote in decimal notation, followed by a unit, is
    read by [numFromUnitString] as [Number] reads the digits alone. *)
Lemma numFromUnitString_toFixedSafe x unit :
  below_1e21 x = true ->
  Forall (fun c => keep_char c = false) (list_ascii_of_string unit) ->
  numFromUnitString (Some (toFixedSafe x 1 +:+ unit)) =
  JS.Number (toFixedSafe x 1).
Proof.
  intros Hx Hu.
  destruct (toFixedSafe_one_decimal x Hx) as (neg & ip & c & H1 & H2 & H3 & ->).
  now rewrite numFromUnitString_oneDecimal, Number_oneDecimal.
Qed.

End ReadBack.

Lemma kcal_dropped :
  Forall (fun c => keep_char c = false) (list_ascii_of_string "kcal").
Proof. repeat constructor. Qed.

Lemma g_dropped :
  Forall (fun c => keep_char c = false) (list_ascii_of_string "g").
Proof. repeat constructor. Qed.

(** * The aggregator and the appends *)

Section Aggregator.

Lemma fold_addItem items : forall acc,
  fold_left addItem items acc =
  {| kcal := fold_left (fun sum item => JS.add sum (parseMagnitude (カロリー item)))
               items (kcal acc);
     protein := fold_left (fun sum item => JS.add sum (parseMagnitude (たんぱく質 item)))
                  items (protein acc);
     fat := fold_left (fun sum item => JS.add sum (parseMagnitude (脂質 item)))
              items (fat acc);
     carbs := fold_left (fun sum item => JS.add sum (parseMagnitude (炭水化物 item)))
                items (carbs acc) |}.
Proof.
  induction items as [|item items IH]; intros acc; [now destruct acc|].
  cbn [fold_left]. rewrite IH. unfold addItem. cbn [kcal protein fat carbs].
  now rewrite !numFromUnitString_parseMagnitude.
Qed.

Lemma Number_toFixedSafe_oneDecimalOf x :
  JS.Number (toFixedSafe x 1) = oneDecimalOf x.
Proof. unfold toFixedSafe, oneDecimalOf. now destruct (JS.isFinite x). Qed.

(** The sums the code runs and rounds are the aggregator of the
    specification. *)
Lemma sumItems_aggregate items : sumItems items = aggregate items.
Proof.
  unfold sumItems, aggregate, accumulate, roundTotals.
  rewrite fold_addItem. cbn [kcal protein fat carbs zeroTotals].
  now rewrite !Number_toFixedSafe_oneDecimalOf.
Qed.

Lemma sameSlot_true t t' : sameSlot t t' = true <-> t = t'.
Proof. destruct t, t'; simpl; split; congruence. Qed.

Lemma mealsAt_afterAppends appends : forall L d t,
  mealsAt (afterAppends L appends) d t = mealsAt L d t ++ appendedTo appends d t.
Proof.
  induction appends as [|[[d0 t0] meal] appends IH]; intros L d t.
  - simpl. now rewrite app_nil_r.
  - cbn [afterAppends fold_left]. fold (afterAppends (append L d0 t0 meal) appends).
    rewrite IH. cbn [appendedTo flat_map]. fold (appendedTo appends d t).
    destruct (String.eqb_spec d0 d) as [->|Hd].
    + destruct (sameSlot t0 t) eqn:Et.
      * apply sameSlot_true in Et as ->.
        rewrite mealsAt_append_same, <- app_assoc. reflexivity.
      * rewrite mealsAt_append_other_slot; [reflexivity|].
        intros ->. rewrite (proj2 (sameSlot_true t0 t0) eq_refl) in Et.
        discriminate Et.
    + rewrite mealsAt_append_other_date by congruence. reflexivity.
Qed.

Lemma itemsOn_afterAppends appends d :
  itemsOn (afterAppends ∅ appends) d = appendedItems appends d.
Proof.
  rewrite itemsOn_slots, !mealsAt_afterAppends. unfold appendedItems, mealsAt.
  now rewrite lookup_empty.
Qed.

End Aggregator.

(** * Rounding to one decimal *)

Section HalfAway.
Import JS Rounding Operations.
Local Open Scope Q_scope.

Lemma Qfloor_half z : Qfloor (inject_Z z + (1 # 2)) = z.
Proof.
  assert (E : inject_Z z + (1 # 2) == inject_Z (2 * z + 1) / inject_Z 2).
  { rewrite inject_Z_plus, inject_Z_mult. change (inject_Z 2) with 2.
    change (inject_Z 1) with 1. field. }
  rewrite (Qfloor_comp _ _ E), <- Zdiv_Qdiv.
  symmetry. apply (Z.div_unique _ _ _ 1); lia.
Qed.

(** [toFixed] with one digit rounds half away from zero. *)
Lemma toFixed_int_nearestTenths m e :
  toFixed_int m e 1 = nearestTenths (inject_Z (Zpos m) * 2 ^ e).
Proof.
  unfold toFixed_int, nearestTenths. f_equal.
  change (10 ^ Z.of_nat 1)%Z with 10%Z.
  destruct e as [|k|k].
  - change (2 ^ 0)%Z with 1%Z. change (2 ^ 0) with 1.
    assert (E : inject_Z (Zpos m) * 1 * 10 + (1 # 2) ==
                inject_Z (Zpos m * 10 * 1) + (1 # 2)).
    { rewrite !inject_Z_mult. change (inject_Z 10) with 10.
      change (inject_Z 1) with 1. ring. }
    now rewrite (Qfloor_comp _ _ E), Qfloor_half.
  - assert (E : inject_Z (Zpos m) * 2 ^ Zpos k * 10 + (1 # 2) ==
                inject_Z (Zpos m * 10 * 2 ^ Zpos k) + (1 # 2)).
    { rewrite !inject_Z_mult, pow2_inject by lia. change (inject_Z 10) with 10.
      ring. }
    now rewrite (Qfloor_comp _ _ E), Qfloor_half.
  - pose proof (pow2_neg_inv k) as HP.
    assert (HD : 0 < inject_Z (2 ^ Zpos k)).
    { change 0 with (inject_Z 0). rewrite <- Zlt_Qlt.
      apply Z.pow_pos_nonneg; lia. }
    assert (E : inject_Z (Zpos m) * 2 ^ Zneg k * 10 + (1 # 2) ==
                inject_Z (2 * (Zpos m * 10) + 2 ^ Zpos k) /
                inject_Z (2 ^ (Zpos k + 1))).
    { rewrite Z.pow_add_r, Z.pow_1_r by lia.
      rewrite inject_Z_plus, !inject_Z_mult.
      change (inject_Z 2) with 2. change (inject_Z 10) with 10.
      set (D := inject_Z (2 ^ Zpos k)) in *. set (P := 2 ^ Zneg k) in *.
      assert (EP : P == / D).
      { apply (Qmult_inj_r _ _ D); [lra|]. rewrite HP. field. lra. }
      rewrite EP. field. lra. }
    now rewrite (Qfloor_comp _ _ E), <- Zdiv_Qdiv.
Qed.

Lemma oneDecimalOf_half_away s m e :
  mag (S754_finite s m e) < 1000000000000000000000 ->
  oneDecimalOf (S754_finite s m e) =
  of_decimal s (nearestTenths (mag (S754_finite s m e))) (-1).
Proof.
  intros H. unfold oneDecimalOf. cbn [isFinite mag].
  rewrite (Decimal.Number_toFixed s m e (below_1e21_of_mag s m e H)).
  now rewrite toFixed_int_nearestTenths.
Qed.

End HalfAway.

(** * Sums of what the scaler wrote *)

Module Sums.
Import JS Rounding Operations.
Local Open Scope Q_scope.

Lemma shl_align_le m e e' :
  (e' <= e)%Z -> Zpos (fst (shl_align m e e')) = (Zpos m * 2 ^ (e - e'))%Z.
Proof.
  intros H. unfold shl_align.
  destruct (e' - e)%Z as [|d|d] eqn:E.
  - replace (e - e')%Z with 0%Z by lia. simpl. lia.
  - lia.
  - simpl fst. rewrite iter_xO. f_equal. f_equal. lia.
Qed.

Lemma exact_aligned s m e ez :
  (ez <= e)%Z ->
  exact (S754_finite s m e) ==
  inject_Z (cond_Zopp s (Zpos (fst (shl_align m e ez)))) * 2 ^ ez.
Proof.
  intros H. rewrite shl_align_le by exact H.
  assert (E : 2 ^ e == 2 ^ (e - ez) * 2 ^ ez).
  { rewrite <- pow2_add. f_equiv. lia. }
  cbn [exact]. rewrite E.
  destruct s; cbn [cond_Zopp].
  - rewrite inject_Z_opp, inject_Z_mult, pow2_inject by lia. ring.
  - rewrite inject_Z_mult, pow2_inject by lia. ring.
Qed.

Lemma exact_sign_false r : sign_of r = false -> exact r == mag r.
Proof. intros H. rewrite exact_mag, H. reflexivity. Qed.

Lemma exact_sign_true r : sign_of r = true -> exact r == - mag r.
Proof. intros H. rewrite exact_mag, H. reflexivity. Qed.

(** One rounding of the integer [z] at the exponent [e]. *)
Lemma normalize_close z e :
  Qabs (inject_Z z * 2 ^ e) < 2 ^ 1023 ->
  let r := binary_normalize prec emax z e false in
  valid_binary prec emax r = true /\ isFinite r = true /\
  Qabs (exact r - inject_Z z * 2 ^ e) <=
  Qabs (inject_Z z * 2 ^ e) * 2 ^ (-53) + 2 ^ (-1075).
Proof.
  intros Hb r. subst r.
  pose proof (pow2_pos e) as He. pose proof (pow2_pos (-53)) as Hu.
  pose proof (pow2_pos (-1075)) as Hw.
  destruct z as [|p|p]; cbn [binary_normalize].
  - split; [reflexivity|]. split; [reflexivity|].
    cbn [exact]. rewrite Qmult_0_l. change (Qabs (0 - 0)) with 0.
    change (Qabs 0) with 0. lra.
  - assert (Hp : 0 < inject_Z (Zpos p) * 2 ^ e).
    { apply Qmult_lt_0_compat; [|exact He].
      change 0 with (inject_Z 0). rewrite <- Zlt_Qlt. lia. }
    rewrite (Qabs_pos (inject_Z (Zpos p) * 2 ^ e)) in * by lra.
    pose proof (binary_round_rounded false p e) as H.
    pose proof (rounded_not_infinite _ _ _ H Hb) as Hf.
    split; [now apply rounded_valid in H|]. split; [exact Hf|].
    rewrite (exact_sign_false _ (proj1 (proj2 H))).
    apply (rounded_error _ _ _ H); [lra | exact Hf].
  - assert (Hp : 0 < inject_Z (Zpos p) * 2 ^ e).
    { apply Qmult_lt_0_compat; [|exact He].
      change 0 with (inject_Z 0). rewrite <- Zlt_Qlt. lia. }
    assert (En : inject_Z (Zneg p) * 2 ^ e == - (inject_Z (Zpos p) * 2 ^ e)).
    { change (Zneg p) with (- Zpos p)%Z. rewrite inject_Z_opp. ring. }
    rewrite En in *. rewrite Qabs_opp in *.
    rewrite (Qabs_pos (inject_Z (Zpos p) * 2 ^ e)) in * by lra.
    pose proof (binary_round_rounded true p e) as H.
    pose proof (rounded_not_infinite _ _ _ H Hb) as Hf.
    split; [now apply rounded_valid in H|]. split; [exact Hf|].
    rewrite (exact_sign_true _ (proj1 (proj2 H))).
    assert (E' : - mag (binary_round prec emax true p e) - - (inject_Z (Zpos p) * 2 ^ e)
                 == - (mag (binary_round prec emax true p e) - inject_Z (Zpos p) * 2 ^ e))
      by ring.
    rewrite E', Qabs_opp.
    apply (rounded_error _ _ _ H); [lra | exact Hf].
Qed.

(** One addition of finite Numbers, when it does not overflow. *)
Lemma add_close x y :
  valid_binary prec emax x = true -> valid_binary prec emax y = true ->
  isFinite x = true -> isFinite y = true ->
  Qabs (exact x + exact y) < 2 ^ 1023 ->
  valid_binary prec emax (add x y) = true /\ isFinite (add x y) = true /\
  Qabs (exact (add x y) - (exact x + exact y)) <=
  Qabs (exact x + exact y) * 2 ^ (-53) + 2 ^ (-1075).
Proof.
  intros Vx Vy Fx Fy Hb.
  split; [now apply add_valid|].
  pose proof (pow2_pos (-53)) as Hu. pose proof (pow2_pos (-1075)) as Hw.
  assert (Hnn : forall v, 0 <= Qabs v * 2 ^ (-53) + 2 ^ (-1075)).
  { intros v. pose proof (Qabs_nonneg v).
    assert (0 <= Qabs v * 2 ^ (-53)) by (apply Qmult_le_0_compat; lra). lra. }
  assert (Hsame : forall a b, a == b -> Qabs (a - b) <= Qabs b * 2 ^ (-53) + 2 ^ (-1075)).
  { intros a b E. rewrite E. assert (E0 : b - b == 0) by ring.
    rewrite E0. change (Qabs 0) with 0. apply Hnn. }
  destruct x as [sx|sx| |sx mx ex]; try discriminate Fx;
    destruct y as [sy|sy| |sy my ey]; try discriminate Fy.
  - split; [now destruct sx, sy|].
    apply Hsame. destruct sx, sy; cbn; ring.
  - split; [reflexivity|]. apply Hsame. cbn [add SFadd exact]. ring.
  - split; [reflexivity|]. apply Hsame. cbn [add SFadd exact]. ring.
  - unfold add, SFadd.
    set (ez := Z.min ex ey).
    set (z := (cond_Zopp sx (Zpos (fst (shl_align mx ex ez))) +
               cond_Zopp sy (Zpos (fst (shl_align my ey ez))))%Z).
    assert (E : exact (S754_finite sx mx ex) + exact (S754_finite sy my ey) ==
                inject_Z z * 2 ^ ez).
    { rewrite (exact_aligned sx mx ex ez), (exact_aligned sy my ey ez) by (unfold ez; lia).
      unfold z. rewrite inject_Z_plus. ring. }
    rewrite E in *.
    destruct (normalize_close z ez Hb) as (_ & Hf & Hc).
    split; assumption.
Qed.


Lemma Qabs_le_iff a b : Qabs a <= b <-> - b <= a /\ a <= b.
Proof. apply Qabs_Qle_condition. Qed.

Lemma tenths_bound k b :
  (Z.abs k <= b * 10)%Z ->
  - inject_Z b <= inject_Z k / 10 /\ inject_Z k / 10 <= inject_Z b.
Proof.
  intros H.
  assert (H1 : inject_Z k <= inject_Z (b * 10)) by (rewrite <- Zle_Qle; lia).
  assert (H2 : inject_Z (- (b * 10)) <= inject_Z k) by (rewrite <- Zle_Qle; lia).
  rewrite inject_Z_opp in H2. rewrite inject_Z_mult in H1, H2.
  change (inject_Z 10) with 10 in *.
  split; apply Qle_shift_div_l || apply Qle_shift_div_r; lra.
Qed.

(** A term of a sum: a valid finite Number within [10^-9] of [k / 10]. *)
Lemma sum_close (xs : list number) (ks : list Z) :
  Forall2 (fun x k =>
             valid_binary prec emax x = true /\ isFinite x = true /\
             Qabs (exact x - inject_Z k / 10) <= 1 # 1000000000 /\
             (Z.abs k <= 10000000)%Z) xs ks ->
  forall acc kacc (j : nat),
    valid_binary prec emax acc = true -> isFinite acc = true ->
    Qabs (exact acc - inject_Z kacc / 10) <= inject_Z (Z.of_nat j) * (1 # 1000000) ->
    (Z.abs kacc <= Z.of_nat j * 10000000)%Z ->
    (j + length xs <= 1000)%nat ->
    let S := fold_left add xs acc in
    valid_binary prec emax S = true /\ isFinite S = true /\
    Qabs (exact S - inject_Z (fold_left Z.add ks kacc) / 10) <=
    inject_Z (Z.of_nat (j + length xs)) * (1 # 1000000) /\
    (Z.abs (fold_left Z.add ks kacc) <= Z.of_nat (j + length xs) * 10000000)%Z.
Proof.
  induction 1 as [|x k xs ks (Vx & Fx & Hx & Hk) Hrest IH];
    intros acc kacc j Va Fa Ha Hka Hlen; cbn [fold_left length] in *.
  - rewrite Nat.add_0_r. auto.
  - rewrite <- plus_n_Sm in *.
    cbn [fold_left].
    assert (HJ : inject_Z (Z.of_nat j) <= 999).
    { change 999 with (inject_Z 999). rewrite <- Zle_Qle. lia. }
    assert (HJ0 : 0 <= inject_Z (Z.of_nat j)).
    { change 0 with (inject_Z 0). rewrite <- Zle_Qle. lia. }
    assert (HSj : inject_Z (Z.of_nat (S j)) == inject_Z (Z.of_nat j) + 1).
    { rewrite Nat2Z.inj_succ. unfold Z.succ. rewrite inject_Z_plus. reflexivity. }
    destruct (tenths_bound k 1000000 ltac:(lia)) as [Hk1 Hk2].
    destruct (tenths_bound kacc (Z.of_nat j * 1000000) ltac:(lia)) as [Hka1 Hka2].
    rewrite inject_Z_mult in Hka1, Hka2.
    change (inject_Z 1000000) with 1000000 in *.
    apply Qabs_le_iff in Hx, Ha.
    set (a := exact acc) in *. set (x' := exact x) in *.
    set (A := inject_Z kacc / 10) in *. set (X := inject_Z k / 10) in *.
    set (J := inject_Z (Z.of_nat j)) in *.
    assert (Hsum : Qabs (a + x') <= 1000000001).
    { apply Qabs_le_iff. lra. }
    assert (Hb : Qabs (a + x') < 2 ^ 1023).
    { pose proof Closeness.big_1023. lra. }
    destruct (add_close acc x Va Vx Fa Fx Hb) as (Vs & Fs & Hc).
    fold a x' in Hc.
    assert (EK : inject_Z (kacc + k) / 10 == A + X).
    { unfold A, X. rewrite inject_Z_plus. field. }
    apply (IH (add acc x) (kacc + k)%Z (S j) Vs Fs); [|lia|lia].
    rewrite EK, HSj. fold J.
    pose proof Closeness.u53_value as Hu. pose proof Closeness.u51_value as Hu'.
    pose proof Closeness.u1075_le as Hw.
    rewrite Hu in Hc. rewrite Hu' in Hw.
    pose proof (Qabs_nonneg (a + x')) as Hn.
    apply Qabs_le_iff in Hc. apply Qabs_le_iff.
    set (t := Qabs (a + x')) in *. set (r := exact (add acc x)) in *.
    set (w := 2 ^ (-1075)) in *.
    lra.
Qed.


Lemma Qabs_exact_finite s m e :
  Qabs (exact (S754_finite s m e)) == mag (S754_finite s m e).
Proof.
  pose proof (mag_finite_pos s m e) as H.
  rewrite exact_mag. cbn [sign_of]. destruct s.
  - rewrite Qabs_opp. apply Qabs_pos. lra.
  - apply Qabs_pos. lra.
Qed.

(** What the scaler wrote for a value of at most [10^6] is read as the
    Number of a decimal with at most [10^7] tenths. *)
Lemma written_term unit v :
  writtenWithin 1000000 unit v ->
  Forall (fun c => keep_char c = false) (list_ascii_of_string unit) ->
  exists (s : bool) (T : N),
    numFromUnitString v = of_decimal s T (-1) /\ (T <= 10000000)%N.
Proof.
  intros (x & Hx & ->) Hu.
  assert (Hb : below_1e21 x = true).
  { destruct x as [s0|s0| |s0 m e]; try reflexivity.
    cbn [below_1e21]. rewrite (below_1e21_of_mag s0 m e); [reflexivity|].
    rewrite Qabs_exact_finite in Hx.
    change (inject_Z (10 ^ 21)) with 1000000000000000000000. lra. }
  rewrite (numFromUnitString_toFixedSafe x unit Hb Hu).
  destruct x as [s0|s0| |s0 m e];
    [exists false, 0%N; split; [now destruct s0 | lia]
    |exists false, 0%N; split; [reflexivity | lia]
    |exists false, 0%N; split; [reflexivity | lia]|].
  cbn [below_1e21] in Hb. apply negb_true_iff in Hb.
  unfold toFixedSafe. cbn [isFinite].
  rewrite (Decimal.Number_toFixed s0 m e Hb).
  exists s0, (toFixed_int m e 1). split; [reflexivity|].
  pose proof (toFixed_int_close m e) as Hc.
  rewrite Qabs_exact_finite in Hx. cbn [mag] in Hx.
  apply Qabs_le_iff in Hc.
  assert (H : inject_Z (Z.of_N (toFixed_int m e 1)) < inject_Z 10000001).
  { change (inject_Z 10000001) with 10000001. lra. }
  rewrite <- Zlt_Qlt in H. lia.
Qed.

Lemma term_close (s : bool) (T : N) :
  (T <= 10000000)%N ->
  let x := of_decimal s T (-1) in
  let k := if s then (- Z.of_N T)%Z else Z.of_N T in
  valid_binary prec emax x = true /\ isFinite x = true /\
  Qabs (exact x - inject_Z k / 10) <= 1 # 1000000000 /\
  (Z.abs k <= 10000000)%Z.
Proof.
  intros HT x k. subst x k.
  split; [apply of_decimal_valid|].
  assert (Hk : (Z.abs (if s then (- Z.of_N T)%Z else Z.of_N T) <= 10000000)%Z)
    by (destruct s; lia).
  destruct T as [|p].
  - split; [reflexivity|]. split; [|exact Hk].
    cbn [of_decimal exact]. destruct s; vm_compute; discriminate.
  - pose proof (of_decimal_tenths s p) as H.
    assert (Hp : inject_Z (Zpos p) <= 10000000).
    { change 10000000 with (inject_Z 10000000). rewrite <- Zle_Qle. lia. }
    assert (Hp0 : 0 < inject_Z (Zpos p)).
    { change 0 with (inject_Z 0). rewrite <- Zlt_Qlt. lia. }
    assert (Hf : isFinite (of_decimal s (Npos p) (-1)) = true).
    { apply (rounded_not_infinite _ _ _ H). pose proof Closeness.big_1023. lra. }
    split; [exact Hf|]. split; [|exact Hk].
    pose proof (rounded_error _ _ _ H ltac:(lra) Hf) as He.
    pose proof Closeness.u53_value as Hu. pose proof Closeness.u51_value as Hu'.
    pose proof Closeness.u1075_le as Hw.
    rewrite Hu in He. rewrite Hu' in Hw.
    destruct H as (_ & Hs & _).
    apply Qabs_le_iff in He. apply Qabs_le_iff.
    set (r := of_decimal s (Npos p) (-1)) in *.
    set (w := 2 ^ (-1075)) in *.
    destruct s.
    + rewrite (exact_sign_true r Hs). cbn [Z.of_N]. rewrite inject_Z_opp.
      set (P := inject_Z (Zpos p)) in *.
      assert (E : - P / 10 == - (P / 10)) by field.
      rewrite E. assert (E' : P * (1 # 10) == P / 10) by field.
      rewrite E' in He. lra.
    + rewrite (exact_sign_false r Hs). cbn [Z.of_N].
      set (P := inject_Z (Zpos p)) in *.
      assert (E' : P * (1 # 10) == P / 10) by field.
      rewrite E' in He. lra.
Qed.

Lemma SFeqb_refl x : isNaN x = false -> SFeqb x x = true.
Proof.
  intros H. unfold SFeqb.
  destruct x as [[]|[]| |[] m e]; try reflexivity; try discriminate H;
    cbn [SFcompare]; now rewrite Z.compare_refl, Pos.compare_cont_refl.
Qed.

(** A finite sum within [1/1000] of [K / 10] is written, and read back, as
    [K / 10]. *)
Lemma oneDecimal_of_close S K :
  valid_binary prec emax S = true -> isFinite S = true ->
  (Z.abs K <= 10000000000)%Z ->
  Qabs (exact S - inject_Z K / 10) <= 1 # 1000 ->
  SFeqb (JS.Number (toFixedSafe S 1)) (tenths K) = true.
Proof.
  intros VS FS HK Hc.
  destruct (tenths_bound K 1000000000 ltac:(lia)) as [HK1 HK2].
  change (inject_Z 1000000000) with 1000000000 in *.
  apply Qabs_le_iff in Hc.
  destruct S as [s|s| |s m e]; try discriminate FS.
  - assert (K = 0%Z) as ->.
    { cbn [exact] in Hc.
      assert (H1 : inject_Z K < inject_Z 1 /\ inject_Z (-1) < inject_Z K).
      { change (inject_Z 1) with 1. change (inject_Z (-1)) with (-1).
        assert (E : inject_Z K == inject_Z K / 10 * 10) by field.
        split; rewrite E; lra. }
      destruct H1 as [H1 H2]. rewrite <- Zlt_Qlt in H1, H2. lia. }
    destruct s; vm_compute; reflexivity.
  - assert (Hlt : at_least_1e21 m e = false).
    { apply (below_1e21_of_mag s).
      pose proof (exact_mag (S754_finite s m e)) as E. cbn [sign_of] in E.
      change (inject_Z (10 ^ 21)) with 1000000000000000000000.
      destruct s; rewrite E in Hc; lra. }
    unfold toFixedSafe. cbn [isFinite].
    rewrite (Decimal.Number_toFixed s m e Hlt).
    pose proof (toFixed_int_close m e) as Ht. apply Qabs_le_iff in Ht.
    pose proof (mag_finite_pos s m e) as Hpos.
    pose proof (exact_mag (S754_finite s m e)) as E. cbn [sign_of] in E.
    cbn [mag] in *.
    set (T := toFixed_int m e 1) in *.
    set (M := inject_Z (Zpos m) * 2 ^ e) in *.
    assert (ET : inject_Z (Z.of_N T) * (1 # 10) == inject_Z (Z.of_N T) / 10) by field.
    rewrite ET in Ht.
    assert (Hq : forall a b : Z,
               inject_Z a / 10 - inject_Z b / 10 < 1 # 10 ->
               inject_Z b / 10 - inject_Z a / 10 < 1 # 10 -> a = b).
    { intros a b H1 H2.
      assert (H3 : inject_Z a < inject_Z (b + 1)).
      { rewrite inject_Z_plus. change (inject_Z 1) with 1.
        assert (Ea : inject_Z a == inject_Z a / 10 * 10) by field.
        assert (Eb : inject_Z b == inject_Z b / 10 * 10) by field.
        rewrite Ea, Eb. lra. }
      assert (H4 : inject_Z b < inject_Z (a + 1)).
      { rewrite inject_Z_plus. change (inject_Z 1) with 1.
        assert (Ea : inject_Z a == inject_Z a / 10 * 10) by field.
        assert (Eb : inject_Z b == inject_Z b / 10 * 10) by field.
        rewrite Ea, Eb. lra. }
      rewrite <- Zlt_Qlt in H3, H4. lia. }
    destruct (Z.compare_spec K 0) as [->|Hneg|Hp].
    + assert (Z.of_N T = 0%Z) as ET0.
      { assert (E0 : inject_Z 0 / 10 == 0) by reflexivity.
        rewrite E0 in Hc.
        apply Hq; rewrite E0; destruct s; rewrite E in Hc; lra. }
      assert (T = 0%N) as -> by lia.
      destruct s; vm_compute; reflexivity.
    + assert (HKq : inject_Z K / 10 <= - (1 # 10)).
      { assert (H : inject_Z K <= inject_Z (-1)) by (rewrite <- Zle_Qle; lia).
        change (inject_Z (-1)) with (-1) in H.
        apply Qle_shift_div_r; lra. }
      destruct s; [|rewrite E in Hc; lra].
      rewrite E in Hc.
      assert (Z.of_N T = (- K)%Z) as ET0.
      { apply Hq; rewrite inject_Z_opp;
          assert (En : - inject_Z K / 10 == - (inject_Z K / 10)) by field;
          rewrite En; lra. }
      unfold tenths.
      replace (K <? 0)%Z with true by (symmetry; apply Z.ltb_lt; lia).
      replace (Z.abs_N K) with T by lia.
      apply SFeqb_refl, JSFacts.of_decimal_not_nan.
    + assert (HKq : 1 # 10 <= inject_Z K / 10).
      { assert (H : inject_Z 1 <= inject_Z K) by (rewrite <- Zle_Qle; lia).
        change (inject_Z 1) with 1 in H.
        apply Qle_shift_div_l; lra. }
      destruct s; [rewrite E in Hc; lra|].
      rewrite E in Hc.
      assert (Z.of_N T = K) as ET0 by (apply Hq; lra).
      unfold tenths.
      replace (K <? 0)%Z with false by (symmetry; apply Z.ltb_ge; lia).
      replace (Z.abs_N K) with T by lia.
      apply SFeqb_refl, JSFacts.of_decimal_not_nan.
Qed.


End Sums.

Section Linearity.
Import JS.

Lemma accumulate_map field items :
  accumulate field items =
  fold_left JS.add (map (fun item => parseMagnitude (field item)) items) JS.pos_zero.
Proof.
  unfold accumulate. generalize JS.pos_zero.
  induction items as [|item items IH]; intros acc; [reflexivity|]. apply IH.
Qed.

Lemma field_terms (field : NutrientItem -> option string) unit items :
  Forall (fun c => keep_char c = false) (list_ascii_of_string unit) ->
  Forall (fun item => writtenWithin 1000000 unit (field item)) items ->
  exists ks,
    Forall2 (fun x k =>
               valid_binary prec emax x = true /\ isFinite x = true /\
               (Qabs (exact x - inject_Z k / 10) <= 1 # 1000000000)%Q /\
               (Z.abs k <= 10000000)%Z)
      (map (fun item => parseMagnitude (field item)) items) ks.
Proof.
  intros Hu. induction 1 as [|item items Hi Hrest (ks & IH)].
  - exists []. constructor.
  - destruct (Sums.written_term unit _ Hi Hu) as (s & T & E & HT).
    exists ((if s then - Z.of_N T else Z.of_N T)%Z :: ks).
    cbn [map]. constructor; [|exact IH].
    rewrite <- numFromUnitString_parseMagnitude, E.
    apply (Sums.term_close s T HT).
Qed.

Lemma Forall2_copies {A B} (P : A -> B -> Prop) xs ks (n : nat) :
  Forall2 P xs ks -> Forall2 P (concat (repeat xs n)) (concat (repeat ks n)).
Proof.
  intros H. induction n as [|n IH]; cbn; [constructor|].
  now apply Forall2_app.
Qed.

Lemma sum_from ks : forall a, fold_left Z.add ks a = (a + fold_left Z.add ks 0)%Z.
Proof.
  induction ks as [|k ks IH]; intros a; cbn [fold_left]; [lia|].
  rewrite (IH (a + k)%Z), (IH (0 + k)%Z). lia.
Qed.

Lemma sum_copies ks (n : nat) :
  fold_left Z.add (concat (repeat ks n)) 0%Z = (Z.of_nat n * fold_left Z.add ks 0)%Z.
Proof.
  induction n as [|n IH]; [reflexivity|].
  cbn [repeat concat]. rewrite fold_left_app, sum_from, IH. lia.
Qed.

Lemma length_copies {A} (xs : list A) (n : nat) :
  length (concat (repeat xs n)) = (n * length xs)%nat.
Proof.
  induction n as [|n IH]; [reflexivity|].
  cbn [repeat concat]. rewrite length_app, IH. lia.
Qed.

(** A sum of at most 1000 terms the scaler wrote is shown as the decimal
    the terms add up to. *)
Lemma accumulate_tenths field items ks :
  Forall2 (fun x k =>
             valid_binary prec emax x = true /\ isFinite x = true /\
             (Qabs (exact x - inject_Z k / 10) <= 1 # 1000000000)%Q /\
             (Z.abs k <= 10000000)%Z)
    (map (fun item => parseMagnitude (field item)) items) ks ->
  (length items <= 1000)%nat ->
  SFeqb (oneDecimalOf (accumulate field items)) (tenths (fold_left Z.add ks 0%Z)) = true.
Proof.
  intros H Hlen.
  rewrite <- Number_toFixedSafe_oneDecimalOf, accumulate_map.
  destruct (Sums.sum_close _ _ H pos_zero 0%Z 0%nat eq_refl eq_refl)
    as (V & F & Hc & Hk).
  - vm_compute. discriminate.
  - simpl. lia.
  - rewrite length_map. simpl. exact Hlen.
  - cbn [Nat.add] in Hc, Hk. rewrite length_map in Hc, Hk.
    apply (Sums.oneDecimal_of_close _ _ V F); [lia|].
    eapply Qle_trans; [exact Hc|].
    assert (Hn : (inject_Z (Z.of_nat (length items)) <= 1000)%Q).
    { change 1000%Q with (inject_Z 1000). rewrite <- Zle_Qle. lia. }
    lra.
Qed.

Lemma field_times (field : NutrientItem -> option string) unit entry (n : nat) :
  Forall (fun c => keep_char c = false) (list_ascii_of_string unit) ->
  Forall (fun item => writtenWithin 1000000 unit (field item)) entry ->
  (length entry <= 1000)%nat -> (n * length entry <= 1000)%nat ->
  timesInTenths n (oneDecimalOf (accumulate field entry))
    (oneDecimalOf (accumulate field (concat (repeat entry n)))).
Proof.
  intros Hu He H1 Hn.
  destruct (field_terms field unit entry Hu He) as (ks & Hks).
  exists (fold_left Z.add ks 0%Z). split.
  - now apply accumulate_tenths.
  - rewrite <- sum_copies. apply accumulate_tenths.
    + rewrite concat_map, map_repeat. now apply Forall2_copies.
    + now rewrite length_copies.
Qed.

End Linearity.

(** * A sum that absorbs its small terms *)

Section Absorbed.
Import JS Operations.
Local Open Scope Q_scope.

Lemma SFeqb_exact a b : SFeqb a b = true -> exact a == exact b.
Proof.
  unfold SFeqb.
  destruct a as [[]|[]| |[] ma ea], b as [[]|[]| |[] mb eb];
    cbn [SFcompare]; try discriminate; try reflexivity;
    destruct (Z.compare_spec ea eb) as [->| |]; try discriminate;
    rewrite Pos.compare_cont_spec; cbn [Pos.switch_Eq];
    destruct (Pos.compare_spec ma mb) as [->| |]; try discriminate;
    reflexivity.
Qed.

Lemma SFeqb_sign m e y :
  sign_of y = true -> SFeqb (S754_finite false m e) y = false.
Proof. intros H. destruct y as [[]|[]| |[] my ey]; try discriminate H; reflexivity. Qed.

(** No number of tenths stands for both totals of the feast. *)
Lemma feast_not_doubled k :
  SFeqb (kcal (getTotalForDate (appendTimes 1 ∅ "2026-01-01" 朝 scaledFeast)
                 "2026-01-01")) (tenths k) = true ->
  SFeqb (kcal (getTotalForDate (appendTimes 2 ∅ "2026-01-01" 朝 scaledFeast)
                 "2026-01-01")) (tenths (Z.of_nat 2 * k)) = true ->
  False.
Proof.
  assert (E1 : kcal (getTotalForDate (appendTimes 1 ∅ "2026-01-01" 朝 scaledFeast)
                       "2026-01-01") = S754_finite false 4503599627370497 0)
    by (vm_compute; reflexivity).
  assert (E2 : kcal (getTotalForDate (appendTimes 2 ∅ "2026-01-01" 朝 scaledFeast)
                       "2026-01-01") = S754_finite false 4503599627370496 1)
    by (vm_compute; reflexivity).
  rewrite E1, E2. clear E1 E2. intros H1 H2.
  destruct k as [|p|p].
  - vm_compute in H1. discriminate H1.
  - assert (Hr : rounded (tenths (Zpos p)) false (inject_Z (Zpos p) * (1 # 10)))
      by apply of_decimal_tenths.
    assert (Hb : (45035996273704960 <= Zpos p <= 45035996273704980)%Z).
    { apply SFeqb_exact in H1.
      assert (Hf : isFinite (tenths (Zpos p)) = true).
      { destruct (tenths (Zpos p)) as [| | |]; try reflexivity;
          vm_compute in H1; discriminate H1. }
      assert (Hp0 : 0 < inject_Z (Zpos p)).
      { change 0 with (inject_Z 0). rewrite <- Zlt_Qlt. lia. }
      pose proof (rounded_error _ _ _ Hr ltac:(lra) Hf) as He.
      rewrite <- (Sums.exact_sign_false _ (proj1 (proj2 Hr))), <- H1 in He.
      change (exact (S754_finite false 4503599627370497 0)) with
        (1 * inject_Z 4503599627370497 * 1) in He.
      pose proof Closeness.u53_value as Hu. pose proof Closeness.u51_value as Hu'.
      pose proof Closeness.u1075_le as Hw.
      rewrite Hu in He. rewrite Hu' in Hw.
      apply Sums.Qabs_le_iff in He.
      set (w := 2 ^ (-1075)) in *.
      change (inject_Z 4503599627370497) with 4503599627370497 in He.
      assert (Hlo : inject_Z 45035996273704960 <= inject_Z (Zpos p)).
      { change (inject_Z 45035996273704960) with 45035996273704960. lra. }
      assert (Hhi : inject_Z (Zpos p) <= inject_Z 45035996273704980).
      { change (inject_Z 45035996273704980) with 45035996273704980. lra. }
      rewrite <- Zle_Qle in Hlo, Hhi. lia. }
    clear Hr.
    assert (Hk : exists i : nat, (i <= 20)%nat /\
                   Zpos p = (45035996273704960 + Z.of_nat i)%Z).
    { exists (Z.to_nat (Zpos p - 45035996273704960)). lia. }
    destruct Hk as (i & Hi & Ek). rewrite Ek in H1, H2. clear Ek Hb.
    do 21 (destruct i as [|i];
           [first [vm_compute in H1; discriminate H1
                  | vm_compute in H2; discriminate H2]|]).
    lia.
  - rewrite SFeqb_sign in H1; [discriminate H1|].
    apply (of_decimal_tenths true p).
Qed.

End Absorbed.

(** * The claims *)

(** ** C1: the totals of the scaler *)

(** C1, as stated, fails: a meal of green tea has a raw kcal sum of zero and
    a protein total of 3600 at a budget of 360; for seven items of 100 kcal
    at a budget of 360 the kcal total recomputed over the scaled items is
    359.8, which is 0.2 away from the budget; and the kcal total the scaler
    reports misses a budget of 10^15 + 1 by 0.125 for an item of 49 kcal, and
    is 0 for an item of 0.01 kcal at a budget of 3e307, where the scale
    factor overflows. *)
Lemma zero_calorie_meal_has_nonzero_totals :
  ~ (forall items targetBudget,
        is_zero (kcal (rawSums items)) = true ->
        snd (scaleMeal items targetBudget) = zeroTotals) /\
  ~ (forall items targetBudget,
        JS.truthy (kcal (rawSums items)) = true ->
        (Qabs (exact (kcal (sumItems (fst (scaleMeal items targetBudget))))
               - exact targetBudget) <= 1 # 10)%Q) /\
  ~ (forall items targetBudget,
        JS.truthy (kcal (rawSums items)) = true ->
        JS.isFinite targetBudget = true ->
        (Qabs (exact (kcal (snd (scaleMeal items targetBudget)))
               - exact targetBudget) <= 1 # 10)%Q) /\
  kcal (snd (scaleMeal [caloriesOnly "0.01kcal"] (JS.of_decimal false 3 307)))
  = JS.pos_zero.
Proof.
  split; [|split; [|split]].
  - intros H.
    specialize (H [tea] (JS.of_Z 360) eq_refl). vm_compute in H. discriminate H.
  - intros H.
    specialize (H (repeat (caloriesOnly "100kcal") 7) (JS.of_Z 360) eq_refl).
    vm_compute in H. apply H. reflexivity.
  - intros H.
    specialize (H [caloriesOnly "49kcal"] (JS.of_Z 1000000000000001)
                  eq_refl eq_refl).
    vm_compute in H. apply H. reflexivity.
  - vm_compute. reflexivity.
Qed.

(** The scale factor is finite when the raw kcal sum is at least 0.001 in
    magnitude and the budget at most 10^12. *)
Lemma scaleFactor_finite sS mS eS B :
  JS.isFinite B = true ->
  (mag B <= 1000000000000)%Q ->
  (1 # 1000 <= mag (S754_finite sS mS eS))%Q ->
  JS.isFinite (JS.div B (S754_finite sS mS eS)) = true.
Proof.
  intros FB HB HS.
  destruct B as [sb| | |sB mB eB]; try discriminate FB; [reflexivity|].
  apply (Operations.rounded_not_infinite _ _ _
           (Operations.div_rounded sB mB eB sS mS eS)).
  apply Qle_lt_trans with (1000000000000000)%Q.
  - apply Qle_shift_div_r; lra.
  - pose proof Closeness.big_1023. lra.
Qed.

(** C1, amended: the kcal total the scaler reports is the raw kcal sum
    times the scale factor, rounded to one decimal, and not a sum over the
    rounded scaled items.  All four totals are 0 when the budget is 0.  When
    the raw kcal sum is zero the kcal total is 0 and the three other totals
    are the raw sums times the factor [B / 1], rounded to one decimal.  When
    the raw kcal sum is finite and not zero, the budget is finite and at most
    10^12 in magnitude and the scale factor is finite, which it is when the
    raw kcal sum is at least 0.001 in magnitude, the kcal total is within 0.1
    of the budget. *)
Theorem scaler_totals items targetBudget :
  let sums := rawSums items in
  let totals := snd (scaleMeal items targetBudget) in
  (is_zero targetBudget = true -> totals = zeroTotals) /\
  (is_zero (kcal sums) = true ->
   let factor := JS.div targetBudget (JS.of_Z 1) in
   kcal totals = JS.pos_zero /\
   protein totals = JS.Number (toFixedSafe (JS.mul (protein sums) factor) 1) /\
   fat totals = JS.Number (toFixedSafe (JS.mul (fat sums) factor) 1) /\
   carbs totals = JS.Number (toFixedSafe (JS.mul (carbs sums) factor) 1)) /\
  (JS.truthy (kcal sums) = true -> JS.isFinite (kcal sums) = true ->
   JS.isFinite targetBudget = true ->
   (Qabs (exact targetBudget) <= 1000000000000)%Q ->
   ((1 # 1000 <= Qabs (exact (kcal sums)))%Q ->
    JS.isFinite (scaleFactor targetBudget (kcal sums)) = true) /\
   (JS.isFinite (scaleFactor targetBudget (kcal sums)) = true ->
    (Qabs (exact (kcal totals) - exact targetBudget) <= 1 # 10)%Q)).
Proof.
  intros sums totals. subst totals. unfold scaleMeal. cbn [snd]. fold sums.
  assert (Habs : forall x, (Qabs (exact x) == mag x)%Q).
  { intros x. rewrite Operations.exact_mag.
    pose proof (Operations.mag_nonneg x).
    destruct (sign_of x); [rewrite Qabs_opp|]; now apply Qabs_pos. }
  split; [|split].
  - intros HB.
    pose proof (div_zero_by_truthy (sign_of targetBudget) _
                  (scaleBase_truthy (kcal sums))) as Hz.
    assert (Ef : scaleFactor targetBudget (kcal sums) =
                 JS.div (S754_zero (sign_of targetBudget)) (scaleBase (kcal sums))).
    { destruct targetBudget; try discriminate HB. reflexivity. }
    unfold scaledTotals, zeroTotals. rewrite Ef.
    now rewrite !rounded_product_with_zero_r by exact Hz.
  - intros HS. set (factor := JS.div targetBudget (JS.of_Z 1)).
    assert (Ef : scaleFactor targetBudget (kcal sums) = factor).
    { unfold scaleFactor, scaleBase, factor.
      destruct (kcal sums); try discriminate HS. reflexivity. }
    rewrite Ef. cbn [scaledTotals kcal protein fat carbs].
    split; [|repeat split].
    now apply rounded_product_with_zero_l.
  - intros HT HF FB HB.
    assert (VS : valid_binary JS.prec JS.emax (kcal sums) = true)
      by (apply Operations.rawSums_valid; reflexivity).
    unfold scaleFactor, scaleBase. rewrite HT.
    cbn [scaledTotals kcal].
    destruct (kcal sums) as [s|s| |sS mS eS]; try discriminate HT;
      try discriminate HF.
    rewrite Habs in HB. split.
    + intros HS. rewrite Habs in HS. now apply scaleFactor_finite.
    + intros Ff. now apply Closeness.total_close.
Qed.

Lemma scaler_totals_witness :
  (Qabs (exact (kcal (snd (scaleMeal [chicken; rice] (JS.of_Z 360))))
         - exact (JS.of_Z 360)) <= 1 # 10)%Q /\
  snd (scaleMeal [chicken; rice] JS.pos_zero) = zeroTotals /\
  kcal (snd (scaleMeal [tea] (JS.of_Z 360))) = JS.pos_zero.
Proof.
  destruct (scaler_totals [chicken; rice] (JS.of_Z 360)) as (_ & _ & Hclose).
  destruct (scaler_totals [chicken; rice] JS.pos_zero) as (Hzero & _).
  destruct (scaler_totals [tea] (JS.of_Z 360)) as (_ & Htea & _).
  split; [|split].
  - destruct Hclose as [Hfin Hc]; try reflexivity.
    + vm_compute. discriminate.
    + apply Hc, Hfin. vm_compute. discriminate.
  - apply Hzero. reflexivity.
  - apply Htea. reflexivity.
Defined.

(** ** C2: the ledger is append-only *)

(** C2: the only write to the ledger is [append]: every event of the
    component leaves the ledger as it is or appends one meal to one date and
    slot.  The updater of the source, which pushes into a day record it
    shares with the previous state, gives the ledger [append] gives, and
    every meal recorded before is still at its place also when read through
    the object of the previous state.  [append] creates the day with three
    empty slots when the date is absent and adds the meal as one new last
    element of its slot; every other slot and every other date is unchanged,
    and every meal recorded before is still at its place. *)
Theorem append_is_the_only_write :
  (forall st ev,
      dailyRecords (step st ev) = dailyRecords st \/
      exists d t meal,
        dailyRecords (step st ev) = append (dailyRecords st) d t meal) /\
  (forall (h : Heap) (prev : LedgerObject) d t meal,
      well_formed h prev ->
      let result := setDailyRecordsUpdater h prev d t meal in
      deref (fst result) (snd result) = append (deref h prev) d t meal /\
      well_formed (fst result) (snd result) /\
      (forall d' t' (i : nat) entry,
          mealsAt (deref h prev) d' t' !! i = Some entry ->
          mealsAt (deref (fst result) prev) d' t' !! i = Some entry)) /\
  (forall (L : DailyRecords) d t meal,
      (L !! d = None ->
       append L d t meal !! d = Some (push emptyDay t meal) /\
       values emptyDay = [[]; []; []]) /\
      mealsAt (append L d t meal) d t = mealsAt L d t ++ [meal] /\
      (forall d' t', d' <> d \/ t' <> t ->
                     mealsAt (append L d t meal) d' t' = mealsAt L d' t') /\
      (forall d', d' <> d -> append L d t meal !! d' = L !! d') /\
      (forall d' t' (i : nat) entry,
          mealsAt L d' t' !! i = Some entry ->
          mealsAt (append L d t meal) d' t' !! i = Some entry)).
Proof.
  split; [|split].
  - intros st ev. destruct ev as [v|v|v|v|dateKey reply]; simpl; auto.
    unfold callGPT. destruct (inputText st); simpl; auto.
    destruct reply as [| | |parsed]; simpl; auto.
    destruct (handleReply_cases st dateKey parsed) as [(items & _ & _ & ->)|(H & _)].
    + right. cbn [handleParsed fst withResult dailyRecords]. eauto.
    + now left.
  - intros h prev d t meal Hwf result.
    destruct (setDailyRecordsUpdater_append h prev d t meal Hwf)
      as (Hnew & Hwf' & Hold).
    fold result in Hnew, Hwf', Hold.
    split; [exact Hnew|]. split; [exact Hwf'|].
    intros d' t' i entry H. rewrite Hold.
    destruct (prev !! d); [|exact H].
    destruct (mealsAt_append_prefix (deref h prev) d t meal d' t') as [added ->].
    now apply lookup_app_l_Some.
  - intros L d t meal. split; [|split; [|split; [|split]]].
    + intros E. rewrite lookup_append_same, E. now split.
    + apply mealsAt_append_same.
    + intros d' t' [Hd|Ht].
      * now apply mealsAt_append_other_date.
      * destruct (decide (d' = d)) as [->|Hd].
        -- now apply mealsAt_append_other_slot.
        -- now apply mealsAt_append_other_date.
    + intros d' Hd. now apply lookup_append_other.
    + intros d' t' i entry H.
      destruct (mealsAt_append_prefix L d t meal d' t') as [added ->].
      now apply lookup_app_l_Some.
Qed.

(** The ledger after one breakfast, before a second one is appended, and
    the first update of an empty ledger on the heap. *)
Lemma append_is_the_only_write_witness :
  let L := append ∅ "2026-01-01" 朝 [chicken] in
  mealsAt (append L "2026-01-01" 朝 []) "2026-01-01" 朝 = [[chicken]; []] /\
  mealsAt (append L "2026-01-01" 朝 []) "2026-01-01" 朝 !! 0%nat = Some [chicken] /\
  (let result := setDailyRecordsUpdater ∅ ∅ "2026-01-01" 朝 [chicken] in
   deref (fst result) (snd result) = append (deref ∅ ∅) "2026-01-01" 朝 [chicken]).
Proof.
  intros L.
  destruct (append_is_the_only_write) as (_ & Hheap & H).
  destruct (H L "2026-01-01"%string 朝 []) as (_ & Hsame & _ & _ & Hkeep).
  split; [|split].
  - rewrite Hsame. reflexivity.
  - apply Hkeep. reflexivity.
  - apply (Hheap ∅ ∅ "2026-01-01"%string 朝 [chicken] well_formed_empty).
Defined.

(** ** C3: the unit parser *)

(** C3: for every input, absent or not, [numFromUnitString] returns what the
    parser of the specification returns: it discards every character other
    than the ten digits, the decimal point and the minus sign, and reads the
    token at the start of what is left (an optional minus sign, a run of
    digits, an optional decimal point and digits).  It returns 0 for an absent
    input, for an input without a digit and whenever what is left starts with
    no such token; the result is never NaN, and being a total function it
    never throws.  For a magnitude written with digits [ip], digits [fp] after
    the point and discarded characters around it, the result is the Number of
    the decimal [ip.fp] with its sign: a valid Number within half a unit in
    the last place of that decimal.  So "120kcal" gives 120, "約 12.5 g" gives
    12.5, "-3g" gives -3, "1.2.3" gives the Number of 1.2, and
    "12g (3 servings)" gives 123, the digits left after discarding being read
    as one run. *)
Theorem unit_parser_total :
  (forall v, numFromUnitString v = parseMagnitude v) /\
  numFromUnitString None = JS.pos_zero /\
  (forall s,
      Forall (fun c => digitOf c = None) (list_ascii_of_string s) ->
      numFromUnitString (Some s) = JS.pos_zero) /\
  (forall s,
      magnitudeToken
        (List.filter (fun c => negb (discarded c)) (list_ascii_of_string s)) = None ->
      numFromUnitString (Some s) = JS.pos_zero) /\
  (forall v, JS.isNaN (numFromUnitString v) = false) /\
  (forall pre neg ip fp post,
      Forall (fun c => discarded c = true) pre ->
      Forall (fun c => discarded c = true) post ->
      Forall (fun d => (d < 10)%N) ip -> ip <> [] ->
      Forall (fun d => (d < 10)%N) fp ->
      let n := numFromUnitString (Some (writtenMagnitude pre neg ip fp post)) in
      n = JS.of_decimal neg (decimal (ip ++ fp)) (- Z.of_nat (length fp)) /\
      rounded n neg (writtenValue ip fp)) /\
  (exact (numFromUnitString (Some "120kcal"%string)) == 120 /\
   exact (numFromUnitString (Some "約 12.5 g"%string)) == 25 # 2 /\
   exact (numFromUnitString (Some "-3g"%string)) == - 3 /\
   rounded (numFromUnitString (Some "1.2.3"%string)) false (12 # 10) /\
   exact (numFromUnitString (Some "12g (3 servings)"%string)) == 123 /\
   numFromUnitString (Some "."%string) = JS.pos_zero /\
   numFromUnitString (Some "-0g"%string) = JS.neg_zero)%Q.
Proof.
  split; [|split; [|split; [|split; [|split; [|split]]]]].
  - apply numFromUnitString_parseMagnitude.
  - reflexivity.
  - intros s Hs. rewrite numFromUnitString_keptMagnitude. simpl.
    rewrite keptToken_no_digit; [reflexivity|].
    apply List.Forall_forall. intros c Hc. apply filter_In in Hc as [Hc _].
    pose proof (proj1 (List.Forall_forall _ _) Hs c Hc) as H.
    unfold JS.is_digit. now rewrite <- digitOf_digit_of, H.
  - intros s Hs. rewrite numFromUnitString_parseMagnitude. simpl. now rewrite Hs.
  - intros v. rewrite numFromUnitString_keptMagnitude.
    apply keptMagnitude_not_nan.
  - intros pre neg ip fp post Hpre Hpost Hip Hne Hfp n. subst n.
    rewrite numFromUnitString_parseMagnitude.
    rewrite (parseMagnitude_written pre neg ip fp post Hpre Hpost Hip Hne Hfp).
    split; [reflexivity|]. apply Operations.of_decimal_rounded.
  - split; [vm_compute; reflexivity|].
    split; [vm_compute; reflexivity|].
    split; [vm_compute; reflexivity|].
    split; [|repeat split; vm_compute; reflexivity].
    change (numFromUnitString (Some "1.2.3"%string))
      with (JS.of_decimal false 12 (- Z.of_nat 1)).
    eapply Operations.rounded_ext; [|apply Operations.of_decimal_rounded].
    vm_compute. reflexivity.
Qed.

(** A string without a digit, a string whose kept characters "--5" start with
    no token, and the magnitude 12.5 written between discarded characters. *)
Lemma unit_parser_total_witness :
  numFromUnitString (Some "kcal"%string) = JS.pos_zero /\
  numFromUnitString (Some "--5g"%string) = JS.pos_zero /\
  writtenMagnitude (list_ascii_of_string "約 ") false [1; 2]%N [5]%N
    (list_ascii_of_string " g") = "約 12.5 g"%string /\
  (let n :=
     numFromUnitString
       (Some (writtenMagnitude (list_ascii_of_string "約 ") false [1; 2]%N [5]%N
                (list_ascii_of_string " g"))) in
   n = JS.of_decimal false (decimal ([1; 2] ++ [5])%N) (- Z.of_nat (length [5%N])) /\
   rounded n false (writtenValue [1; 2]%N [5]%N)).
Proof.
  destruct unit_parser_total as (_ & _ & Hnodigit & Hnotoken & _ & Hwritten & _).
  split; [|split; [|split]].
  - apply Hnodigit. vm_compute. repeat constructor.
  - apply Hnotoken. reflexivity.
  - reflexivity.
  - apply Hwritten.
    + repeat (first [apply List.Forall_nil | apply List.Forall_cons]); reflexivity.
    + repeat (first [apply List.Forall_nil | apply List.Forall_cons]); reflexivity.
    + repeat (first [apply List.Forall_nil | apply List.Forall_cons]); reflexivity.
    + discriminate.
    + repeat (first [apply List.Forall_nil | apply List.Forall_cons]); reflexivity.
Defined.

(** ** C4: the division guard *)

(** C4, as stated, fails on both counts: for the item list whose raw kcal
    total is -5 the total is not greater than zero and the base is -5, not 1;
    and a finite budget of 3e307 over a raw total of 0.01 gives an infinite
    scale factor. *)
Lemma base_is_not_one_for_negative_sums :
  ~ (forall items,
        let kcalSum := kcal (rawSums items) in
        scaleBase kcalSum =
        if positive_number kcalSum then kcalSum else JS.of_Z 1) /\
  ~ (forall items budget,
        JS.isFinite budget = true ->
        JS.isFinite (scaleFactor budget (kcal (rawSums items))) = true).
Proof.
  split; intros H.
  - specialize (H [caloriesOnly "-5kcal"]). vm_compute in H. discriminate H.
  - specialize (H [caloriesOnly "0.01kcal"]
                  (slotBudget (JS.of_decimal false 1 308) (splitOf 30 40 30) 朝)).
    vm_compute in H. specialize (H eq_refl). discriminate H.
Qed.

(** C4, amended: the base is the raw kcal total whenever that total is
    nonzero and not NaN, be it positive or negative, and 1 when the total is
    +0, -0 or NaN; so the base is never zero and never NaN, and for a finite
    budget the scale factor is never NaN (it is infinite when the quotient
    overflows). *)
Theorem scale_base_guards_division kcalSum :
  (JS.truthy kcalSum = true -> scaleBase kcalSum = kcalSum) /\
  (positive_number kcalSum = true -> scaleBase kcalSum = kcalSum) /\
  (JS.truthy kcalSum = false -> scaleBase kcalSum = JS.of_Z 1) /\
  JS.truthy (scaleBase kcalSum) = true /\
  (forall budget,
      JS.isFinite budget = true ->
      JS.isNaN (scaleFactor budget kcalSum) = false).
Proof.
  unfold scaleBase, scaleFactor.
  split; [|split; [|split; [|split]]].
  - now intros ->.
  - destruct kcalSum as [s|s| |s m e]; try reflexivity; discriminate.
  - now intros ->.
  - destruct kcalSum as [s|s| |s m e]; reflexivity.
  - intros budget Hb.
    change (JS.of_Z 1) with (S754_finite false 4503599627370496 (-52)).
    destruct budget as [b|b| |b mb eb]; try discriminate Hb;
      destruct kcalSum as [s|s| |s m e]; try reflexivity;
      apply JSFacts.div_finite_not_nan.
Qed.

Lemma scale_base_guards_division_witness :
  scaleBase (kcal (rawSums [caloriesOnly "-5kcal"])) = JS.of_Z (-5) /\
  scaleBase (kcal (rawSums [caloriesOnly "none"])) = JS.of_Z 1 /\
  JS.isNaN (scaleFactor (JS.of_Z 360) (kcal (rawSums [caloriesOnly "none"]))) = false.
Proof.
  destruct (scale_base_guards_division (kcal (rawSums [caloriesOnly "-5kcal"])))
    as (Hneg & _).
  destruct (scale_base_guards_division (kcal (rawSums [caloriesOnly "none"])))
    as (_ & _ & Hzero & _ & Hnan).
  split; [|split].
  - rewrite Hneg by reflexivity. reflexivity.
  - apply Hzero. reflexivity.
  - apply Hnan. reflexivity.
Defined.

(** ** C5: repeated appends *)

(** C5, as stated, fails.  [callGPT] with the rice at a budget of 360 kcal
    records an entry with 5.4 g of protein; after three such extractions the
    total is 16.2, which is not three times the total 5.4 of one append,
    neither as the product of Numbers (16.200000000000003) nor as a product
    of rationals.  Nor are the totals always multiples as decimals: with a
    goal of 4503599627370497 kcal given to the morning, the entry recorded
    for two items of 0.3 kcal and one of 4503599627370496 kcal has the total
    4503599627370497, and two appends of it have the total
    9007199254740992, the small terms being absorbed. *)
Lemma repeated_appends_are_not_exact_multiples :
  dailyRecords (run initialState riceThrice) =
    appendTimes 3 ∅ "2026-01-01" 朝 scaledRice /\
  ~ (forall d t entry (n : nat),
        SFeqb (protein (getTotalForDate (appendTimes n ∅ d t entry) d))
          (JS.mul (JS.of_Z (Z.of_nat n))
             (protein (getTotalForDate (appendTimes 1 ∅ d t entry) d))) = true) /\
  ~ (forall d t entry (n : nat),
        (exact (protein (getTotalForDate (appendTimes n ∅ d t entry) d)) ==
         inject_Z (Z.of_nat n) *
         exact (protein (getTotalForDate (appendTimes 1 ∅ d t entry) d)))%Q) /\
  dailyRecords (run initialState feastTwice) =
    appendTimes 2 ∅ "2026-01-01" 朝 scaledFeast /\
  kcal (getTotalForDate (appendTimes 1 ∅ "2026-01-01" 朝 scaledFeast) "2026-01-01") =
    tenths 45035996273704970 /\
  kcal (getTotalForDate (appendTimes 2 ∅ "2026-01-01" 朝 scaledFeast) "2026-01-01") =
    tenths 90071992547409920 /\
  ~ (forall d t entry (n : nat),
        timesInTenths n (kcal (getTotalForDate (appendTimes 1 ∅ d t entry) d))
          (kcal (getTotalForDate (appendTimes n ∅ d t entry) d))).
Proof.
  split; [vm_compute; reflexivity|].
  split.
  { intros H.
    specialize (H "2026-01-01"%string 朝 scaledRice 3%nat).
    vm_compute in H. discriminate H. }
  split.
  { intros H.
    specialize (H "2026-01-01"%string 朝 scaledRice 3%nat).
    vm_compute in H. discriminate H. }
  split; [vm_compute; reflexivity|].
  split; [vm_compute; reflexivity|].
  split; [vm_compute; reflexivity|].
  intros H.
  destruct (H "2026-01-01"%string 朝 scaledFeast 2%nat) as (k & H1 & H2).
  exact (feast_not_doubled k H1 H2).
Qed.

(** C5, amended: [n] appends of the same meal to one date and slot add [n]
    copies of the meal after what the slot held and change no other slot and
    no other date; on a date that had no entry the totals are then the
    aggregator's result on the items of the [n] copies.  When every magnitude
    of the meal is one the scaler wrote for a value of at most [10^6], the
    meal has at most 1000 items and so have the [n] copies together, each of
    the four totals is [n] times the total of one append as a decimal with
    one digit: for some integer [k] the total of one append is the Number
    written [k / 10] and the total of [n] appends the Number written
    [n * k / 10], the zeros of either sign being equal as [===] has them. *)
Theorem repeated_appends_accumulate (L : DailyRecords) d t entry (n : nat) :
  mealsAt (appendTimes n L d t entry) d t = mealsAt L d t ++ repeat entry n /\
  (forall d' t', d' <> d \/ t' <> t ->
                 mealsAt (appendTimes n L d t entry) d' t' = mealsAt L d' t') /\
  (L !! d = None ->
   itemsOn (appendTimes n L d t entry) d = concat (repeat entry n) /\
   getTotalForDate (appendTimes n L d t entry) d =
     aggregate (concat (repeat entry n)) /\
   (Forall (scalerOutputWithin 1000000) entry ->
    (length entry <= 1000)%nat -> (n * length entry <= 1000)%nat ->
    Forall2 (timesInTenths n)
      (fields (getTotalForDate (append L d t entry) d))
      (fields (getTotalForDate (appendTimes n L d t entry) d)))).
Proof.
  split; [apply mealsAt_appendTimes_same|].
  split; [intros d' t' H; now apply mealsAt_appendTimes_other|].
  intros Hd.
  assert (Hempty : forall t', mealsAt L d t' = []).
  { intros t'. unfold mealsAt. now rewrite Hd. }
  assert (Hitems : forall k,
             itemsOn (appendTimes k L d t entry) d = concat (repeat entry k)).
  { intros k. rewrite itemsOn_slots.
    destruct t;
      rewrite mealsAt_appendTimes_same,
        !(mealsAt_appendTimes_other k L d _ entry d) by (right; discriminate);
      rewrite !Hempty; simpl; now rewrite ?app_nil_r. }
  assert (Htotal : forall k,
             getTotalForDate (appendTimes k L d t entry) d =
             aggregate (concat (repeat entry k))).
  { intros k. now rewrite getTotalForDate_itemsOn, Hitems, sumItems_aggregate. }
  split; [apply Hitems|]. split; [apply Htotal|].
  intros Hentry H1 Hn.
  change (append L d t entry) with (appendTimes 1 L d t entry).
  rewrite !Htotal. cbn [repeat concat]. rewrite app_nil_r.
  unfold fields, aggregate. cbn [kcal protein fat carbs].
  apply List.Forall2_cons; [|apply List.Forall2_cons;
    [|apply List.Forall2_cons; [|apply List.Forall2_cons; [|apply List.Forall2_nil]]]].
  - apply (field_times カロリー "kcal"); [apply kcal_dropped| |exact H1|exact Hn].
    eapply List.Forall_impl; [|exact Hentry]. now intros item (H & _).
  - apply (field_times たんぱく質 "g"); [apply g_dropped| |exact H1|exact Hn].
    eapply List.Forall_impl; [|exact Hentry]. now intros item (_ & H & _).
  - apply (field_times 脂質 "g"); [apply g_dropped| |exact H1|exact Hn].
    eapply List.Forall_impl; [|exact Hentry]. now intros item (_ & _ & H & _).
  - apply (field_times 炭水化物 "g"); [apply g_dropped| |exact H1|exact Hn].
    eapply List.Forall_impl; [|exact Hentry]. now intros item (_ & _ & _ & H).
Qed.

(** Three breakfasts of the scaled rice: 360, 5.4, 0.6 and 79.5 once, and
    1080, 16.2, 1.8 and 238.5 after the third. *)
Lemma repeated_appends_accumulate_witness :
  getTotalForDate (appendTimes 3 ∅ "2026-01-01" 朝 scaledRice) "2026-01-01" =
    aggregate (scaledRice ++ scaledRice ++ scaledRice) /\
  Forall2 (timesInTenths 3)
    (fields (getTotalForDate (append ∅ "2026-01-01" 朝 scaledRice) "2026-01-01"))
    (fields (getTotalForDate (appendTimes 3 ∅ "2026-01-01" 朝 scaledRice)
               "2026-01-01")) /\
  fields (getTotalForDate (append ∅ "2026-01-01" 朝 scaledRice) "2026-01-01") =
    [tenths 3600; tenths 54; tenths 6; tenths 795] /\
  fields (getTotalForDate (appendTimes 3 ∅ "2026-01-01" 朝 scaledRice) "2026-01-01") =
    [tenths 10800; tenths 162; tenths 18; tenths 2385].
Proof.
  destruct (repeated_appends_accumulate ∅ "2026-01-01"%string 朝 scaledRice 3)
    as (_ & _ & H).
  destruct (H (lookup_empty _)) as (_ & Ht & Hlin).
  split; [exact Ht|].
  split; [|split; vm_compute; reflexivity].
  apply Hlin; [|simpl; lia|simpl; lia].
  apply List.Forall_cons; [|apply List.Forall_nil].
  split; [|split; [|split]].
  - exists (tenths 3600). split; [vm_compute; discriminate | vm_compute; reflexivity].
  - exists (tenths 54). split; [vm_compute; discriminate | vm_compute; reflexivity].
  - exists (tenths 6). split; [vm_compute; discriminate | vm_compute; reflexivity].
  - exists (tenths 795). split; [vm_compute; discriminate | vm_compute; reflexivity].
Defined.

(** ** C6: the totals of a date *)

(** C6: for a date that is absent from the ledger, and so for every date
    nothing was appended to, [getTotalForDate] returns the all-zero totals;
    for a date that is present it is the aggregator of the specification
    (each field parsed by the unit parser, added up and rounded to one
    decimal) run on every item of every meal of every slot, a function of
    the current ledger only.  After any sequence of appends to the empty
    ledger the totals of a date are the aggregator's result on the items of
    every meal appended to that date, slot by slot and each slot in the
    order of its appends; and one more append to the date inserts the items
    of the new meal into that sequence.  The rounding of a sum below [10^21]
    in magnitude is half away from zero at the tenths place. *)
Theorem totals_for_date :
  (forall (L : DailyRecords) d, L !! d = None -> getTotalForDate L d = zeroTotals) /\
  (forall L ds d, Ledger L ds -> ~ In d ds -> getTotalForDate L d = zeroTotals) /\
  (forall (L : DailyRecords) d r,
      L !! d = Some r ->
      getTotalForDate L d = aggregate (concat (concat (values r)))) /\
  (forall appends d,
      itemsOn (afterAppends ∅ appends) d = appendedItems appends d /\
      getTotalForDate (afterAppends ∅ appends) d = aggregate (appendedItems appends d)) /\
  (forall appends d,
      appendedItems appends d = [] ->
      getTotalForDate (afterAppends ∅ appends) d = zeroTotals) /\
  (forall (L : DailyRecords) d t meal,
      exists before after,
        itemsOn L d = before ++ after /\
        itemsOn (append L d t meal) d = before ++ meal ++ after /\
        getTotalForDate (append L d t meal) d = aggregate (before ++ meal ++ after)) /\
  (forall s m e,
      (mag (S754_finite s m e) < 1000000000000000000000)%Q ->
      oneDecimalOf (S754_finite s m e) =
      JS.of_decimal s (nearestTenths (mag (S754_finite s m e))) (-1)).
Proof.
  split; [|split; [|split; [|split; [|split; [|split]]]]];
    [| | | | | |apply oneDecimalOf_half_away].
  - apply getTotalForDate_absent.
  - intros L ds d HL Hn. apply getTotalForDate_absent.
    eapply lookup_ledger_absent; eauto.
  - intros L d r H. rewrite <- sumItems_aggregate. now apply getTotalForDate_present.
  - intros appends d. split; [apply itemsOn_afterAppends|].
    now rewrite getTotalForDate_itemsOn, itemsOn_afterAppends, sumItems_aggregate.
  - intros appends d H.
    now rewrite getTotalForDate_itemsOn, itemsOn_afterAppends, H.
  - intros L d t meal.
    assert (Hc : forall ms, concat (ms ++ [meal]) = concat ms ++ meal).
    { intros ms. rewrite concat_app. simpl. now rewrite app_nil_r. }
    rewrite getTotalForDate_itemsOn, sumItems_aggregate, !itemsOn_slots.
    destruct t.
    + exists (concat (mealsAt L d 朝)), (concat (mealsAt L d 昼) ++ concat (mealsAt L d 夜)).
      rewrite mealsAt_append_same, !mealsAt_append_other_slot by discriminate.
      rewrite Hc, <- !app_assoc. auto.
    + exists (concat (mealsAt L d 朝) ++ concat (mealsAt L d 昼)), (concat (mealsAt L d 夜)).
      rewrite mealsAt_append_same, !mealsAt_append_other_slot by discriminate.
      rewrite Hc, <- !app_assoc. auto.
    + exists (concat (mealsAt L d 朝) ++ concat (mealsAt L d 昼) ++ concat (mealsAt L d 夜)), [].
      rewrite mealsAt_append_same, !mealsAt_append_other_slot by discriminate.
      rewrite Hc, !app_nil_r, <- !app_assoc. auto.
Qed.

(** A date nothing was appended to, in a ledger that has another day; the
    totals of a day with a dinner and, appended later, a breakfast of two
    items: 448 kcal, 48.5 g, 10.3 g and 38.1 g; and -0.25, which is rounded
    to -0.3. *)
Lemma totals_for_date_witness :
  getTotalForDate (append ∅ "2026-01-01" 朝 [chicken]) "2026-01-02" = zeroTotals /\
  getTotalForDate (append ∅ "2026-01-01" 朝 [chicken]) "2026-01-01" =
    {| kcal := JS.of_Z 200; protein := JS.of_Z 40; fat := JS.of_Z 5;
       carbs := JS.pos_zero |} /\
  itemsOn (afterAppends ∅ twoDays) "2026-01-01" = [chicken; eggs; rice] /\
  getTotalForDate (afterAppends ∅ twoDays) "2026-01-01" =
    {| kcal := JS.of_Z 448; protein := tenths 485; fat := tenths 103;
       carbs := tenths 381 |} /\
  getTotalForDate (afterAppends ∅ twoDays) "2026-01-03" = zeroTotals /\
  oneDecimalOf (S754_finite true 4503599627370496 (-54)) = tenths (-3).
Proof.
  destruct totals_for_date as (_ & Hnever & Hpresent & Happends & Hnone & _ & Hhalf).
  split; [|split; [|split; [|split; [|split]]]];
    [| | | | |rewrite Hhalf; vm_compute; reflexivity].
  - apply (Hnever _ ["2026-01-01"%string]).
    + apply Ledger_append, Ledger_empty.
    + simpl. intros [H|[]]. discriminate H.
  - transitivity (aggregate (concat (concat (values (push emptyDay 朝 [chicken]))))).
    + apply Hpresent. reflexivity.
    + vm_compute. reflexivity.
  - rewrite (proj1 (Happends twoDays "2026-01-01"%string)). reflexivity.
  - rewrite (proj2 (Happends twoDays "2026-01-01"%string)).
    vm_compute. reflexivity.
  - apply Hnone. reflexivity.
Defined.

(** ** C7: the budget of a slot *)

(** C7: the budget of a slot is its own percentage divided by 100 and
    multiplied by the goal.  The other two percentages play no part (a split
    is not renormalized) and nothing is clamped: 30 percent of 1200 is 360,
    30 percent of 1000 is 300 in a split that sums to 90, 150 percent of 1000
    is 1500 and -10 percent of 1000 is -100.  [callGPT] scales an array to
    that budget. *)
Theorem slot_budget_is_share_of_goal :
  (forall goal split t,
      slotBudget goal split t =
      JS.mul (JS.div (percentage split t) (JS.of_Z 100)) goal) /\
  (forall goal split split' t,
      percentage split t = percentage split' t ->
      slotBudget goal split t = slotBudget goal split' t) /\
  slotBudget (JS.of_Z 1200) (splitOf 30 40 30) 朝 = JS.of_Z 360 /\
  slotBudget (JS.of_Z 1000) (splitOf 30 30 30) 朝 = JS.of_Z 300 /\
  slotBudget (JS.of_Z 1000) (splitOf 150 40 30) 朝 = JS.of_Z 1500 /\
  slotBudget (JS.of_Z 1000) (splitOf (-10) 40 30) 朝 = JS.of_Z (-100) /\
  (forall st dateKey arr,
      inputText st <> ""%string ->
      let st' := fst (callGPT st dateKey (Message (ParsedArray arr))) in
      let budget := slotBudget (goalCalories st) (calorieSplit st) (mealTime st) in
      (ingredients st', shownTotals st') = scaleMeal arr budget).
Proof.
  split; [|split; [|split; [|split; [|split; [|split]]]]].
  - intros goal split t. now destruct t.
  - intros goal split split' t H. unfold slotBudget, mealRatiosCalc.
    destruct t; simpl in H; now rewrite H.
  - vm_compute. reflexivity.
  - vm_compute. reflexivity.
  - vm_compute. reflexivity.
  - vm_compute. reflexivity.
  - intros st dateKey arr H. now rewrite callGPT_Message.
Qed.

Lemma slot_budget_is_share_of_goal_witness :
  slotBudget (JS.of_Z 1000) (splitOf 30 30 30) 朝 =
  slotBudget (JS.of_Z 1000) (splitOf 30 40 30) 朝.
Proof.
  destruct slot_budget_is_share_of_goal as (_ & H & _).
  apply H. reflexivity.
Defined.

(** ** C8: the scaled items *)

(** C8, as stated, fails: for one item of 1 kcal and a budget of 10^21 the
    product is 10^21, which [toFixed] writes with an exponent, so the scaled
    calories are "1e+21kcal" and not a one-decimal string followed by
    "kcal". *)
Lemma huge_products_are_written_with_an_exponent :
  ~ (forall items targetBudget (i : nat) item',
        fst (scaleMeal items targetBudget) !! i = Some item' ->
        exists s, カロリー item' = Some (s +:+ "kcal") /\ oneDecimal s) /\
  map カロリー (fst (scaleMeal [caloriesOnly "1kcal"] (JS.of_decimal false 1 21)))
  = [Some "1e+21kcal"%string].
Proof.
  split; [|vm_compute; reflexivity].
  intros H.
  destruct (H [caloriesOnly "1kcal"] (JS.of_decimal false 1 21) 0%nat _ eq_refl)
    as (s & Hs & neg & ip & c & _ & _ & _ & ->).
  vm_compute in Hs. injection Hs as Hs.
  apply (f_equal list_ascii_of_string) in Hs.
  rewrite list_ascii_of_string_app, list_ascii_of_string_of_list_ascii in Hs.
  apply (f_equal (@rev ascii)) in Hs.
  rewrite !rev_app_distr in Hs. simpl in Hs.
  discriminate Hs.
Qed.

(** C8, amended: scaling gives, for every item of the list and at the same
    place, a new item whose name, quantity and weight are those of the item
    and whose four magnitudes are the parsed magnitude times the scale
    factor, written by [toFixed] with one fraction digit and followed by
    "kcal" for the calories and by "g" for the three others.  The string
    written is "0.0" when the product is not finite, and it has one digit
    after the point whenever the product is below 10^21 in magnitude or is
    not finite. *)
Theorem scaling_rewrites_the_four_magnitudes items targetBudget :
  let factor := scaleFactor targetBudget (kcal (rawSums items)) in
  let scaled := fst (scaleMeal items targetBudget) in
  length scaled = length items /\
  (forall (i : nat) item,
      items !! i = Some item ->
      exists item',
        scaled !! i = Some item' /\
        材料名 item' = 材料名 item /\
        数量 item' = 数量 item /\
        重量 item' = 重量 item /\
        カロリー item' =
          Some (toFixedSafe (JS.mul (numFromUnitString (カロリー item)) factor) 1
                +:+ "kcal") /\
        たんぱく質 item' =
          Some (toFixedSafe (JS.mul (numFromUnitString (たんぱく質 item)) factor) 1
                +:+ "g") /\
        脂質 item' =
          Some (toFixedSafe (JS.mul (numFromUnitString (脂質 item)) factor) 1
                +:+ "g") /\
        炭水化物 item' =
          Some (toFixedSafe (JS.mul (numFromUnitString (炭水化物 item)) factor) 1
                +:+ "g")) /\
  (forall x, JS.isFinite x = false -> toFixedSafe x 1 = "0.0"%string) /\
  (forall x, below_1e21 x = true -> oneDecimal (toFixedSafe x 1)).
Proof.
  intros factor scaled. subst scaled. unfold scaleMeal, scaledIngredients.
  cbn [fst]. fold factor. split; [|split; [|split]].
  - apply length_map.
  - intros i item Hi. exists (scaleItem factor item). split.
    + rewrite list_lookup_fmap_Some. eauto.
    + repeat split.
  - intros x Hx. unfold toFixedSafe. now rewrite Hx.
  - apply toFixedSafe_one_decimal.
Qed.

Lemma scaling_rewrites_the_four_magnitudes_witness :
  exists item',
    fst (scaleMeal [chicken] (JS.of_Z 400)) !! 0%nat = Some item' /\
    材料名 item' = "chicken breast"%string /\
    カロリー item' = Some "400.0kcal"%string /\
    たんぱく質 item' = Some "80.0g"%string /\
    oneDecimal "400.0".
Proof.
  destruct (scaling_rewrites_the_four_magnitudes [chicken] (JS.of_Z 400))
    as (_ & H & _ & Hshape).
  destruct (H 0%nat chicken eq_refl) as (item' & H0 & H1 & _ & _ & H4 & H5 & _).
  exists item'. split; [exact H0|]. split; [exact H1|].
  split; [rewrite H4; vm_compute; reflexivity|].
  split; [rewrite H5; vm_compute; reflexivity|].
  apply (Hshape (JS.of_Z 400)). reflexivity.
Defined.

(** ** C9: the statuses of the proxy *)

(** C9, as stated, fails: a request whose method is OPTIONS is not a POST
    and is answered with status 200. *)
Lemma proxy_non_post_not_always_405 :
  ~ (forall req apiKey up,
        Proxy.method req <> "POST"%string ->
        Proxy.status (Proxy.handler req apiKey up) = 405).
Proof.
  intros H.
  specialize (H {| Proxy.method := "OPTIONS"; Proxy.body := Proxy.VUndefined |}
                None (Proxy.Throws "")).
  simpl in H. discriminate H. discriminate.
Qed.

(** C9, amended: an OPTIONS request is answered with status 200; a request
    whose method is neither OPTIONS nor POST is rejected with 405; a POST
    whose body has no truthy [prompt] is rejected with 400; a POST with a
    prompt and no (or an empty) credential is answered with 500. *)
Theorem proxy_statuses req apiKey up :
  (Proxy.method req = "OPTIONS"%string ->
   Proxy.status (Proxy.handler req apiKey up) = 200) /\
  (Proxy.method req <> "OPTIONS"%string -> Proxy.method req <> "POST"%string ->
   Proxy.status (Proxy.handler req apiKey up) = 405) /\
  (Proxy.method req = "POST"%string ->
   Proxy.truthy (Proxy.prompt_of (Proxy.body req)) = false ->
   Proxy.status (Proxy.handler req apiKey up) = 400) /\
  (Proxy.method req = "POST"%string ->
   Proxy.truthy (Proxy.prompt_of (Proxy.body req)) = true ->
   apiKey = None \/ apiKey = Some ""%string ->
   Proxy.status (Proxy.handler req apiKey up) = 500).
Proof.
  unfold Proxy.handler. repeat split.
  - intros ->. reflexivity.
  - intros H1 H2.
    apply String.eqb_neq in H1, H2. now rewrite H1, H2.
  - intros -> H. simpl. now rewrite H.
  - intros -> H [->| ->]; simpl; now rewrite H.
Qed.

Lemma proxy_statuses_witness :
  Proxy.status (Proxy.handler {| Proxy.method := "OPTIONS"; Proxy.body := Proxy.VUndefined |}
                  None (Proxy.Throws "")) = 200 /\
  Proxy.status (Proxy.handler {| Proxy.method := "GET"; Proxy.body := Proxy.VUndefined |}
                  None (Proxy.Throws "")) = 405 /\
  Proxy.status (Proxy.handler {| Proxy.method := "POST"; Proxy.body := promptBody "" |}
                  (Some "key"%string) (Proxy.Throws "")) = 400 /\
  Proxy.status (Proxy.handler {| Proxy.method := "POST"; Proxy.body := promptBody "rice" |}
                  None (Proxy.Replies 200 Proxy.VNull)) = 500.
Proof.
  split; [|split; [|split]].
  - apply (proxy_statuses {| Proxy.method := "OPTIONS"; Proxy.body := Proxy.VUndefined |}).
    reflexivity.
  - apply (proxy_statuses {| Proxy.method := "GET"; Proxy.body := Proxy.VUndefined |});
      discriminate.
  - apply (proxy_statuses {| Proxy.method := "POST"; Proxy.body := promptBody "" |});
      reflexivity.
  - apply (proxy_statuses {| Proxy.method := "POST"; Proxy.body := promptBody "rice" |});
      auto.
Defined.

(** ** C10: the shapes of the extraction result *)

(** C10, as stated, fails: an object whose [ingredients] property is an
    array is a single JSON object and not an array, and the list shown is
    that array, not the object as a one-item list. *)
Lemma object_with_ingredients_is_not_shown_alone :
  ~ (forall st dateKey ingredientsProp obj,
        inputText st <> ""%string ->
        ingredients (fst (callGPT st dateKey
                            (Message (ParsedObject ingredientsProp obj)))) = [obj]).
Proof.
  intros H.
  specialize (H typing "2026-01-01"%string (Some [chicken; eggs]) chicken).
  assert (Hin : inputText typing <> ""%string) by discriminate.
  specialize (H Hin). vm_compute in H. discriminate H.
Qed.

(** C10, amended: an object that is not an array and has no array under
    [ingredients] is shown as a one-item list and, when its calories can be
    parsed (the property is a string, is missing or is falsy), the calorie
    total shown is its parsed calories; an object with an array under
    [ingredients] has that array shown, unscaled, and, when the calories of
    every item can be parsed, the calorie total shown is their sum; in both
    cases nothing is scaled and the ledger is left as it is.  Only an array is
    scaled and recorded: whenever the ledger changes, the message was an
    array whose magnitudes can all be parsed, and for such an array the list
    shown and recorded is the scaled one.  For a message of the declared
    types every magnitude can be parsed. *)
Theorem only_arrays_are_scaled_and_recorded st dateKey :
  inputText st <> ""%string ->
  (forall properties,
      ingredientsArray properties = None ->
      let st' := fst (callGPT st dateKey (Content (JObj properties))) in
      ingredients st' = [asItem (JObj properties)] /\
      (forall v, magnitude "カロリー" (JObj properties) = Some v ->
                 totalCalories st' = v) /\
      dailyRecords st' = dailyRecords st) /\
  (forall properties items,
      ingredientsArray properties = Some items ->
      let st' := fst (callGPT st dateKey (Content (JObj properties))) in
      ingredients st' = map asItem items /\
      (forall total, sumCalories items = Some total -> totalCalories st' = total) /\
      dailyRecords st' = dailyRecords st) /\
  (forall reply,
      dailyRecords (fst (callGPT st dateKey reply)) <> dailyRecords st ->
      exists items, reply = Content (JArr items) /\ forallb readable items = true) /\
  (forall items,
      forallb readable items = true ->
      let st' := fst (callGPT st dateKey (Content (JArr items))) in
      let budget := slotBudget (goalCalories st) (calorieSplit st) (mealTime st) in
      let scaled := fst (scaleMeal (map asItem items) budget) in
      ingredients st' = scaled /\
      dailyRecords st' = append (dailyRecords st) dateKey (mealTime st) scaled) /\
  (forall obj,
      let st' := fst (callGPT st dateKey (Message (ParsedObject None obj))) in
      ingredients st' = [obj] /\
      totalCalories st' = numFromUnitString (カロリー obj) /\
      dailyRecords st' = dailyRecords st) /\
  (forall arr obj,
      let st' := fst (callGPT st dateKey (Message (ParsedObject (Some arr) obj))) in
      ingredients st' = arr /\
      totalCalories st' =
        fold_left (fun sum item => JS.add sum (numFromUnitString (カロリー item)))
          arr JS.pos_zero /\
      dailyRecords st' = dailyRecords st) /\
  (forall arr,
      let st' := fst (callGPT st dateKey (Message (ParsedArray arr))) in
      let budget := slotBudget (goalCalories st) (calorieSplit st) (mealTime st) in
      ingredients st' = fst (scaleMeal arr budget) /\
      dailyRecords st' =
        append (dailyRecords st) dateKey (mealTime st) (fst (scaleMeal arr budget))).
Proof.
  intros Hin.
  split; [|split; [|split; [|split; [|split; [|split]]]]].
  - intros properties Hnone st'. subst st'. unfold callGPT.
    destruct (inputText st) as [|c s]; [congruence|].
    cbn [handleReply]. unfold ingredientsArray in Hnone.
    destruct (magnitude "カロリー" (JObj properties)) as [v0|] eqn:Ev.
    + apply (proj1 (magnitude_asItem _)) in Ev.
      destruct (get "ingredients" properties) as [[|b|n|s0|items|ps]|];
        try discriminate Hnone;
        (split; [reflexivity|]; split; [|reflexivity]);
        intros v [= <-]; cbn; now rewrite Ev.
    + destruct (get "ingredients" properties) as [[|b|n|s0|items|ps]|];
        try discriminate Hnone;
        (split; [reflexivity|]; split; [|reflexivity]); intros v [=].
  - intros properties items Hsome st'. subst st'. unfold callGPT.
    destruct (inputText st) as [|c s]; [congruence|].
    cbn [handleReply]. unfold ingredientsArray in Hsome.
    destruct (get "ingredients" properties) as [[|b|n|s0|items0|ps]|];
      try discriminate Hsome.
    injection Hsome as ->.
    destruct (sumCalories items) as [t0|] eqn:Et.
    + apply sumCalories_asItem in Et.
      split; [reflexivity|]. split; [|reflexivity].
      intros total [= <-]. cbn. now rewrite Et.
    + split; [reflexivity|]. split; [|reflexivity]. intros total [=].
  - intros reply H. unfold callGPT in H.
    destruct (inputText st) as [|c s]; [congruence|].
    destruct reply as [| | |parsed]; cbn in H; try congruence.
    destruct (handleReply_cases st dateKey parsed)
      as [(items & -> & Hr & _)|(Hsame & _)]; [eauto | congruence].
  - intros items Hr st' budget scaled. subst st'. unfold callGPT.
    destruct (inputText st) as [|c s]; [congruence|].
    cbn [handleReply]. rewrite Hr. split; reflexivity.
  - intros obj st'. subst st'. rewrite callGPT_Message by exact Hin.
    repeat split.
  - intros arr obj st'. subst st'. rewrite callGPT_Message by exact Hin.
    repeat split.
  - intros arr st' budget. subst st'. rewrite callGPT_Message by exact Hin.
    split; reflexivity.
Qed.

Lemma only_arrays_are_scaled_and_recorded_witness :
  ingredients (fst (callGPT typing "2026-01-01" (Content (itemJSON chicken))))
  = [chicken] /\
  totalCalories (fst (callGPT typing "2026-01-01" (Content (itemJSON chicken))))
  = JS.of_Z 200 /\
  dailyRecords (fst (callGPT typing "2026-01-01" (Content (itemJSON chicken))))
  = ∅.
Proof.
  destruct (only_arrays_are_scaled_and_recorded typing "2026-01-01"%string)
    as (H & _); [discriminate|].
  destruct (H (itemProperties chicken) eq_refl) as (H1 & H2 & H3).
  split; [exact H1|]. split; [|exact H3].
  apply H2. reflexivity.
Defined.

(** * Further properties of the code *)

(** ** The totals of a day after an extraction *)

Section DayTotals.

Lemma addItem_scaleItem factor acc item :
  Forall (fun v => below_1e21 (JS.mul (numFromUnitString v) factor) = true)
    (magnitudes item) ->
  addItem acc (scaleItem factor item) = addRounded factor acc item.
Proof.
  intros H. unfold magnitudes in H.
  inversion H as [|? ? Hk H1]; subst. inversion H1 as [|? ? Hp H2]; subst.
  inversion H2 as [|? ? Hf H3]; subst. inversion H3 as [|? ? Hc _]; subst.
  unfold addItem, addRounded, scaleItem.
  cbn [カロリー たんぱく質 脂質 炭水化物].
  rewrite !numFromUnitString_toFixedSafe
    by first [assumption | repeat constructor].
  reflexivity.
Qed.

Lemma fold_scaled factor arr : forall acc,
  Forall (fun item =>
            Forall (fun v => below_1e21 (JS.mul (numFromUnitString v) factor) = true)
              (magnitudes item)) arr ->
  fold_left addItem (scaledIngredients factor arr) acc =
  fold_left (addRounded factor) arr acc.
Proof.
  induction arr as [|item arr IH]; intros acc H; [reflexivity|].
  inversion H as [|? ? Hi Hr]; subst. cbn.
  rewrite addItem_scaleItem by exact Hi. now apply IH.
Qed.

Lemma itemsOn_first_append L d t meal :
  L !! d = None -> itemsOn (append L d t meal) d = meal.
Proof.
  intros Hd.
  assert (Hempty : forall t', mealsAt L d t' = []).
  { intros t'. unfold mealsAt. now rewrite Hd. }
  rewrite itemsOn_slots.
  destruct t;
    rewrite mealsAt_append_same, !mealsAt_append_other_slot by discriminate;
    rewrite !Hempty; simpl; now rewrite ?app_nil_r.
Qed.

End DayTotals.

(** ** The ledger over the runs of the component *)

Section Runs.

Lemma scaleItem_output factor item : scalerOutput (scaleItem factor item).
Proof. repeat split; eexists; reflexivity. Qed.

Lemma dayMeals_slots r : dayMeals r = slot r 朝 ++ slot r 昼 ++ slot r 夜.
Proof. unfold dayMeals, values. simpl. now rewrite app_nil_r. Qed.

Lemma dayItems_dayMeals r : dayItems r = concat (dayMeals r).
Proof. reflexivity. Qed.

Lemma dayMeals_push r t meal :
  exists before after,
    dayMeals r = before ++ after /\
    dayMeals (push r t meal) = before ++ meal :: after.
Proof.
  rewrite !dayMeals_slots. destruct t; cbn [push slot meals朝 meals昼 meals夜].
  - exists (meals朝 r), (meals昼 r ++ meals夜 r). split; [reflexivity|].
    now rewrite <- app_assoc.
  - exists (meals朝 r ++ meals昼 r), (meals夜 r). rewrite <- !app_assoc.
    split; reflexivity.
  - exists (meals朝 r ++ meals昼 r ++ meals夜 r), []. rewrite app_nil_r, <- !app_assoc.
    split; reflexivity.
Qed.

Lemma soundLedger_append L d t meal :
  soundLedger L -> Forall scalerOutput meal -> soundLedger (append L d t meal).
Proof.
  intros HL Hm d' r' H.
  destruct (decide (d' = d)) as [->|Hne].
  - rewrite lookup_append_same in H. injection H as <-.
    set (r0 := match L !! d with Some r => r | None => emptyDay end).
    assert (H0 : Forall scalerOutput (dayItems r0)).
    { unfold r0. destruct (L !! d) as [r|] eqn:E; [apply (HL d r E)|constructor]. }
    destruct (dayMeals_push r0 t meal) as (before & after & E0 & E1).
    rewrite dayItems_dayMeals, E1. rewrite dayItems_dayMeals, E0 in H0.
    split; [now destruct before|].
    rewrite concat_app in *. cbn [concat]. apply Forall_app in H0 as [Hb Ha].
    apply Forall_app. split; [exact Hb|]. apply Forall_app. now split.
  - rewrite lookup_append_other in H by exact Hne. exact (HL _ _ H).
Qed.

Lemma soundLedger_step st ev :
  soundLedger (dailyRecords st) -> soundLedger (dailyRecords (step st ev)).
Proof.
  intros H. destruct ev as [v|v|v|v|dateKey reply]; try exact H.
  cbn [step]. unfold callGPT. destruct (inputText st); [exact H|].
  destruct reply as [| | |parsed]; try exact H.
  destruct (handleReply_cases st dateKey parsed) as [(items & _ & _ & ->)|(-> & _)];
    [|exact H].
  cbn [handleParsed fst withResult dailyRecords].
  apply soundLedger_append; [exact H|].
  unfold scaledIngredients. apply Forall_map, List.Forall_forall.
  intros item _. apply scaleItem_output.
Qed.

Lemma soundLedger_run evs : forall st,
  soundLedger (dailyRecords st) -> soundLedger (dailyRecords (run st evs)).
Proof.
  induction evs as [|ev evs IH]; intros st H; [exact H|].
  apply IH. now apply soundLedger_step.
Qed.

Lemma soundLedger_initial : soundLedger (dailyRecords initialState).
Proof. intros d r H. cbn in H. rewrite lookup_empty in H. discriminate. Qed.

End Runs.

(** ** Exponential notation read back *)

Section Exponential.
Import JS.

Lemma trim_ends a l z :
  is_space a = false -> is_space z = false ->
  trim (a :: l ++ [z]) = a :: l ++ [z].
Proof.
  intros Ha Hz. unfold trim.
  rewrite (Decimal.drop_spaces_head a _ Ha).
  change (a :: l ++ [z]) with ((a :: l) ++ [z]).
  generalize (a :: l). intros k.
  rewrite rev_app_distr. cbn [rev app].
  rewrite (Decimal.drop_spaces_head z _ Hz).
  cbn [rev]. now rewrite rev_involutive.
Qed.

Lemma scan_exponent_plus ed :
  ed <> [] -> Forall (fun a => is_digit a = true) ed ->
  scan_exponent ("e"%char :: "+"%char :: ed) = (Z.of_N (digits_value 0 ed), []).
Proof.
  intros Hne Hd. unfold scan_exponent.
  change (Ascii.eqb "e" "e") with true. cbn [orb scan_sign].
  change (Ascii.eqb "+" "-") with false. change (Ascii.eqb "+" "+") with true.
  cbv iota.
  pose proof (Decimal.span_digits_app ed [] Hd I) as Hs. rewrite app_nil_r in Hs.
  rewrite Hs. destruct ed; [congruence|reflexivity].
Qed.

Lemma scan_literal_exponential (neg : bool) c cs ed :
  is_digit c = true -> Forall (fun a => is_digit a = true) cs ->
  ed <> [] -> Forall (fun a => is_digit a = true) ed ->
  exists m x,
    scan_literal ((if neg then ["-"%char] else []) ++ exponential c cs ed) =
    Some (LitDecimal neg m x, []).
Proof.
  intros Hc Hcs Hne Hed.
  pose proof (Decimal.is_digit_cases c Hc) as (Hk & Hm & Hp).
  pose proof (keep_char_cases c Hk) as (_ & Hplus & _ & _ & HI).
  assert (Hbody : forall n, exists m x,
    match strip_prefix infinity_chars (exponential c cs ed) with
    | Some rest => Some (LitInfinity n, rest)
    | None =>
        let '(ip0, r1) := span_digits (exponential c cs ed) in
        let '(fp, r3) :=
          match r1 with
          | c0 :: r2 => if Ascii.eqb c0 "." then span_digits r2 else ([], r1)
          | [] => ([], [])
          end in
        match ip0, fp with
        | [], [] => None
        | _, _ =>
            let '(e, rest) := scan_exponent r3 in
            Some (LitDecimal n (digits_value 0 (ip0 ++ fp))
                    (e - Z.of_nat (length fp)), rest)
        end
    end = Some (LitDecimal n m x, [])).
  { intros n. unfold infinity_chars.
    change (list_ascii_of_string "Infinity")
      with ("I"%char :: list_ascii_of_string "nfinity").
    destruct cs as [|c1 cs']; cbn [exponential].
    - cbn [strip_prefix]. rewrite HI.
      change (c :: "e"%char :: "+"%char :: ed) with ([c] ++ "e"%char :: "+"%char :: ed).
      rewrite (Decimal.span_digits_app [c] _) by (repeat constructor; assumption).
      change (Ascii.eqb "e" ".") with false. cbv iota.
      rewrite (scan_exponent_plus ed Hne Hed). eauto.
    - cbn [strip_prefix]. rewrite HI.
      change (c :: "."%char :: (c1 :: cs') ++ "e"%char :: "+"%char :: ed)
        with ([c] ++ "."%char :: (c1 :: cs') ++ "e"%char :: "+"%char :: ed).
      rewrite (Decimal.span_digits_app [c] _) by (repeat constructor; assumption).
      change (Ascii.eqb "." ".") with true. cbv iota.
      rewrite (Decimal.span_digits_app (c1 :: cs') _ Hcs) by reflexivity.
      rewrite (scan_exponent_plus ed Hne Hed). eauto. }
  destruct neg; cbn [app]; unfold scan_literal, scan_sign.
  - change (Ascii.eqb "-" "-") with true. cbv iota. apply Hbody.
  - assert (E : exists r, exponential c cs ed = c :: r)
      by (destruct cs; cbn; eauto).
    destruct E as [r E]. rewrite E, Hm, Hplus, <- E. apply (Hbody false).
Qed.

Lemma show_exponential_shape x X :
  exists c cs ed,
    is_digit c = true /\ Forall (fun a => is_digit a = true) cs /\
    ed <> [] /\ Forall (fun a => is_digit a = true) ed /\
    show_exponential x X = exponential c cs ed.
Proof.
  unfold show_exponential.
  destruct (shortest _ 1 x X _) as [s n].
  destruct (show_N_digits s) as [Hne Hd].
  destruct (show_N_digits (N.of_nat (n - 1))) as [Hne' Hd'].
  destruct (show_N s) as [|c cs]; [congruence|].
  exists c, cs, (show_N (N.of_nat (n - 1))).
  inversion Hd; subst. repeat split; assumption.
Qed.

Lemma Number_exponential (neg : bool) c cs ed :
  is_digit c = true -> Forall (fun a => is_digit a = true) cs ->
  ed <> [] -> Forall (fun a => is_digit a = true) ed ->
  isNaN (JS.Number (string_of_list_ascii
                      ((if neg then ["-"%char] else []) ++ exponential c cs ed)))
  = false.
Proof.
  intros Hc Hcs Hne Hed.
  destruct (scan_literal_exponential neg c cs ed Hc Hcs Hne Hed) as (m & x & Hlit).
  unfold JS.Number. rewrite list_ascii_of_string_of_list_ascii.
  set (t := (if neg then ["-"%char] else []) ++ exponential c cs ed) in *.
  (* the last character is a digit of the exponent *)
  destruct (exists_last Hne) as (ed' & z & Eed).
  assert (Hz : is_digit z = true).
  { rewrite Eed in Hed. apply Forall_app in Hed as [_ Hz]. now inversion Hz. }
  assert (Et : exists a l, t = a :: l ++ [z] /\ is_space a = false /\
                           (a = "-"%char \/
                            (is_digit a = true /\
                             match l ++ [z] with
                             | b :: _ :: _ =>
                                 b = "."%char \/ b = "e"%char
                             | _ => False
                             end))).
  { unfold t, exponential. rewrite Eed.
    destruct neg; cbn [app].
    - destruct cs as [|c1 cs'].
      + exists "-"%char, (c :: "e"%char :: "+"%char :: ed').
        split; [reflexivity|]. split; [reflexivity|]. now left.
      + exists "-"%char, (c :: "."%char :: (c1 :: cs') ++ "e"%char :: "+"%char :: ed').
        split; [now rewrite <- !app_comm_cons, <- app_assoc|].
        split; [reflexivity|]. now left.
    - destruct cs as [|c1 cs'].
      + exists c, ("e"%char :: "+"%char :: ed').
        split; [reflexivity|]. split; [now apply Decimal.is_digit_not_space|].
        right. split; [exact Hc|]. cbn. now right.
      + exists c, ("."%char :: (c1 :: cs') ++ "e"%char :: "+"%char :: ed').
        split; [now rewrite <- !app_comm_cons, <- app_assoc|].
        split; [now apply Decimal.is_digit_not_space|].
        right. split; [exact Hc|]. cbn. now left. }
  destruct Et as (a & l & Et & Ha & Hshape).
  rewrite Et, (trim_ends a l z Ha (Decimal.is_digit_not_space z Hz)), <- Et.
  assert (Hnd : scan_nondecimal t = None).
  { rewrite Et. destruct Hshape as [->|[Hda Hb]].
    - destruct (l ++ [z]) as [|b [|b2 r]]; reflexivity.
    - destruct (l ++ [z]) as [|b [|b2 r]]; try contradiction.
      unfold scan_nondecimal. destruct (Ascii.eqb a "0"); [|reflexivity].
      destruct Hb as [->| ->]; reflexivity. }
  rewrite Hnd, Hlit.
  destruct t as [|a0 t0]; [discriminate Et|].
  cbn [literal_value]. apply JSFacts.of_decimal_not_nan.
Qed.

Lemma Number_toFixedSafe_not_nan x : isNaN (JS.Number (toFixedSafe x 1)) = false.
Proof.
  unfold toFixedSafe.
  destruct x as [s|s| |s m e]; try reflexivity.
  cbn [isFinite].
  destruct (at_least_1e21 m e) eqn:H.
  - unfold toFixed. rewrite H.
    destruct (show_exponential_shape (S754_finite false m e) (Z.to_N (Zpos m * 2 ^ e)))
      as (c & cs & ed & Hc & Hcs & Hne & Hed & ->).
    now apply Number_exponential.
  - rewrite (Decimal.Number_toFixed s m e H). apply JSFacts.of_decimal_not_nan.
Qed.

End Exponential.

(** ** The totals and their bars *)

Section Bars.
Import JS.

Lemma roundTotals_noNaN t : noNaN (roundTotals t).
Proof. repeat split; apply Number_toFixedSafe_not_nan. Qed.

Lemma scaledTotals_noNaN factor sums : noNaN (scaledTotals factor sums).
Proof. repeat split; apply Number_toFixedSafe_not_nan. Qed.

Lemma getTotalForDate_noNaN L d : noNaN (getTotalForDate L d).
Proof.
  unfold getTotalForDate. destruct (L !! d); [apply roundTotals_noNaN|].
  repeat split.
Qed.

Lemma barTotalsDefined_step st ev :
  barTotalsDefined st -> barTotalsDefined (step st ev).
Proof.
  intros H. destruct ev as [v|v|v|v|dateKey reply]; try exact H.
  cbn [step]. unfold callGPT. destruct (inputText st); [exact H|].
  destruct reply as [| | |parsed]; try exact H.
  unfold barTotalsDefined.
  destruct (handleReply_cases st dateKey parsed)
    as [(items & _ & _ & ->)|(_ & -> & -> & ->)]; [|exact H].
  cbn [handleParsed fst withResult totalProtein totalFat totalCarbs].
  repeat split; apply Number_toFixedSafe_not_nan.
Qed.

Lemma barTotalsDefined_run evs : forall st,
  barTotalsDefined st -> barTotalsDefined (run st evs).
Proof.
  induction evs as [|ev evs IH]; intros st H; [exact H|].
  apply IH. now apply barTotalsDefined_step.
Qed.

Lemma SFcompare_defined a b :
  SFcompare a b = None -> isNaN a = true \/ isNaN b = true.
Proof.
  destruct a as [sa|sa| |sa ma ea], b as [sb|sb| |sb mb eb]; cbn; auto;
    discriminate.
Qed.

Lemma percent_defined x :
  isNaN x = false -> isNaN (mul (div x (of_Z 100)) (of_Z 100)) = false.
Proof.
  intros H.
  change (of_Z 100) with (S754_finite false 7036874417766400 (-46)).
  destruct x as [s|s| |s m e]; try discriminate H; try reflexivity.
  pose proof (JSFacts.div_finite_not_nan s m e false 7036874417766400 (-46)) as Hd.
  unfold div.
  destruct (SFdiv prec emax (S754_finite s m e)
              (S754_finite false 7036874417766400 (-46)))
    as [s'|s'| |s' m' e']; try discriminate Hd; try reflexivity.
  apply JSFacts.mul_finite_not_nan.
Qed.

Lemma totalBarWidth_capped x :
  isNaN x = false -> SFleb (totalBarWidth x) (of_Z 100) = true.
Proof.
  intros H. unfold totalBarWidth, Math_min.
  pose proof (percent_defined x H) as Ha.
  set (a := mul (div x (of_Z 100)) (of_Z 100)) in *.
  destruct (SFcompare a (of_Z 100)) as [[| |]|] eqn:E.
  - assert (Er : match a, of_Z 100 with
                 | S754_zero true, _ => a
                 | _, S754_zero true => of_Z 100
                 | _, _ => a
                 end = a).
    { change (of_Z 100) with (S754_finite false 7036874417766400 (-46)).
      destruct a as [[]|[]| |]; reflexivity. }
    rewrite Er. unfold SFleb. now rewrite E.
  - unfold SFleb. now rewrite E.
  - vm_compute. reflexivity.
  - apply SFcompare_defined in E as [E|E]; [congruence|discriminate E].
Qed.

End Bars.

(** ** Products with a factor that is not finite *)

Section NotFinite.
Import JS.

Lemma mul_not_finite x f : isFinite f = false -> isFinite (mul x f) = false.
Proof. destruct f as [s|s| |s m e]; try discriminate; intros _; destruct x as [sx|sx| |sx mx ex]; reflexivity. Qed.

Lemma div_not_finite b y :
  isFinite b = false -> truthy y = true -> isFinite (div b y) = false.
Proof.
  destruct b as [s|s| |s m e]; try discriminate; intros _;
    destruct y as [sy|sy| |sy my ey]; try discriminate; reflexivity.
Qed.

Lemma toFixedSafe_not_finite x : isFinite x = false -> toFixedSafe x 1 = "0.0"%string.
Proof. intros H. unfold toFixedSafe. now rewrite H. Qed.

Lemma written_product_with_zero x z :
  is_zero z = true -> toFixedSafe (mul x z) 1 = "0.0"%string.
Proof.
  destruct z as [s| | |]; try discriminate. intros _.
  destruct x as [[]|[]| |[] m e], s; reflexivity.
Qed.

Lemma scaleMeal_without_finite_factor items targetBudget :
  isFinite (scaleFactor targetBudget (kcal (rawSums items))) = false ->
  snd (scaleMeal items targetBudget) = zeroTotals /\
  Forall blankItem (fst (scaleMeal items targetBudget)).
Proof.
  intros H. unfold scaleMeal. cbn [fst snd].
  set (f := scaleFactor targetBudget (kcal (rawSums items))) in *.
  split.
  - unfold scaledTotals.
    now rewrite !toFixedSafe_not_finite by (apply mul_not_finite; exact H).
  - unfold scaledIngredients. apply Forall_map. apply List.Forall_forall.
    intros item _. unfold blankItem, scaleItem. cbn.
    now rewrite !toFixedSafe_not_finite by (apply mul_not_finite; exact H).
Qed.

Lemma scaleMeal_with_zero_budget items targetBudget :
  is_zero targetBudget = true ->
  snd (scaleMeal items targetBudget) = zeroTotals /\
  Forall blankItem (fst (scaleMeal items targetBudget)).
Proof.
  intros H. unfold scaleMeal. cbn [fst snd].
  assert (Hz : is_zero (scaleFactor targetBudget (kcal (rawSums items))) = true).
  { destruct targetBudget as [s| | |]; try discriminate H.
    apply div_zero_by_truthy, scaleBase_truthy. }
  split.
  - unfold scaledTotals, zeroTotals.
    now rewrite !rounded_product_with_zero_r by exact Hz.
  - unfold scaledIngredients. apply Forall_map. apply List.Forall_forall.
    intros item _. unfold blankItem, scaleItem. cbn.
    now rewrite !written_product_with_zero by exact Hz.
Qed.

(** A product with +0 is a zero or NaN. *)
Lemma mul_pos_zero x :
  is_zero (mul x pos_zero) = true \/ isFinite (mul x pos_zero) = false.
Proof. destruct x as [[]|[]| |[] m e]; cbn; auto. Qed.

End NotFinite.

(** ** The recipe list *)

Section RecipeFacts.
Import Recipes.

Lemma withRecipes_same rs : withRecipes rs (registeredRecipes rs) = rs.
Proof. now destruct rs. Qed.

Lemma registerRecipe_cases app rs gpt :
  let '(app', rs', notice) := registerRecipe app rs gpt in
  (notice <> None /\ rs' = rs) \/
  (exists parsed,
      gpt registerPrompt = Message (ParsedArray parsed) /\
      recipeName rs <> ""%string /\ inputText app <> ""%string /\
      notice = None /\
      rs' = withRecipes rs (registeredRecipes rs ++
                              [{| name := recipeName rs; ingredients := parsed |}])).
Proof.
  unfold registerRecipe.
  destruct (recipeName rs) as [|a n] eqn:En; [left; split; [discriminate|reflexivity]|].
  destruct (inputText app) as [|b t] eqn:Et; [left; split; [discriminate|reflexivity]|].
  destruct (gpt registerPrompt) as [| | |[parsed|o obj|]];
    try (left; split; [discriminate|reflexivity]).
  right. exists parsed. repeat split; discriminate.
Qed.

Lemma act_named c a c' : named (snd c) -> act c a = Some c' -> named (snd c').
Proof.
  destruct c as [app rs]. unfold named. cbn [snd]. intros Hn H.
  destruct a; cbn [act] in H.
  - injection H as <-. exact Hn.
  - injection H as <-. exact Hn.
  - destruct (loading app); [discriminate|]. injection H as <-.
    pose proof (registerRecipe_cases app rs gpt) as Hc.
    destruct (registerRecipe app rs gpt) as [[app' rs'] notice]. cbn [fst snd].
    destruct Hc as [[_ ->]|(parsed & _ & Hname & _ & _ & ->)]; [exact Hn|].
    cbn. apply Forall_app. split; [exact Hn|]. constructor; [exact Hname|constructor].
  - destruct (shown rs idx); [|discriminate]. unfold startEditRecipe in H.
    destruct (registeredRecipes rs !! idx); [|discriminate].
    injection H as <-. exact Hn.
  - destruct (editing rs); [|discriminate]. injection H as <-. exact Hn.
  - destruct (editing rs); [|discriminate]. injection H as <-. exact Hn.
  - destruct (editing rs); [|discriminate]. unfold saveEditedRecipe in H.
    destruct (editingIndex rs) as [i|]; [|injection H as <-; exact Hn].
    destruct (editedName rs) as [|a n] eqn:En; [injection H as <-; exact Hn|].
    destruct (editedIngredients rs) as [|b t]; [injection H as <-; exact Hn|].
    destruct (registeredRecipes rs !! i) as [r|]; [|discriminate].
    injection H as <-. cbn. apply Forall_insert; [exact Hn|]. cbn. discriminate.
  - destruct (editing rs); [|discriminate]. injection H as <-. exact Hn.
  - destruct (shown rs idx); [|discriminate]. injection H as <-.
    cbn. now apply Forall_delete.
Qed.

Lemma acts_named l : forall c c',
  named (snd c) -> acts c l = Some c' -> named (snd c').
Proof.
  induction l as [|a l IH]; intros c c' Hn H; simpl in H.
  - now injection H as <-.
  - destruct (act c a) as [c1|] eqn:E; [|discriminate].
    eapply IH; [|exact H]. eapply act_named; eauto.
Qed.

End RecipeFacts.

Section RecipeText.
Import Recipes.

Lemma append_empty (a b : string) : a +:+ b = ""%string -> a = ""%string /\ b = ""%string.
Proof. destruct a; simpl; [auto | discriminate]. Qed.

Lemma ingredientText_empty ing :
  ingredientText ing = ""%string <->
  材料名 ing = ""%string /\ (数量 ing = None \/ 数量 ing = Some ""%string).
Proof.
  unfold ingredientText. split.
  - intros H. apply append_empty in H as [H1 H2]. split; [exact H1|].
    destruct (数量 ing) as [[|c q]|]; auto. discriminate H2.
  - intros [-> [-> | ->]]; reflexivity.
Qed.

Lemma concat_empty (parts : list string) :
  String.concat "、" parts = ""%string <->
  parts = [] \/ parts = [""%string].
Proof.
  split.
  - destruct parts as [|p [|q rest]]; simpl.
    + now left.
    + intros ->. now right.
    + intros H. apply append_empty in H as [_ H]. discriminate H.
  - intros [-> | ->]; reflexivity.
Qed.

Lemma editedIngredients_empty r :
  String.concat "、" (map ingredientText (ingredients r)) = ""%string <->
  ingredients r = [] \/
  exists ing, ingredients r = [ing] /\ 材料名 ing = ""%string /\
              (数量 ing = None \/ 数量 ing = Some ""%string).
Proof.
  rewrite concat_empty. split.
  - intros [H|H].
    + left. now destruct (ingredients r).
    + right. destruct (ingredients r) as [|ing [|ing2 rest]]; try discriminate H.
      exists ing. split; [reflexivity|]. apply ingredientText_empty.
      now injection H.
  - intros [->|(ing & -> & H)]; [now left|]. right. simpl.
    now rewrite (proj2 (ingredientText_empty ing) H).
Qed.

End RecipeText.

Section RecipeLists.
Import Recipes.

Lemma shown_spec rs idx :
  shown rs idx = true <->
  (idx < length (registeredRecipes rs))%nat /\ editingIndex rs <> Some idx.
Proof.
  unfold shown. rewrite andb_true_iff, Nat.ltb_lt, negb_true_iff, bool_decide_eq_false.
  reflexivity.
Qed.

Lemma ingredientLists_insert (l : list RegisteredRecipe) i r v :
  l !! i = Some r ->
  map ingredients (<[i := {| name := v; ingredients := ingredients r |}]> l)
  = map ingredients l.
Proof.
  intros H. change (map ingredients) with (fmap (M := list) ingredients).
  rewrite list_fmap_insert. apply list_insert_id.
  rewrite list_lookup_fmap, H. reflexivity.
Qed.

Lemma ingredientLists_delete (l : list RegisteredRecipe) i :
  map ingredients (delete i l) = delete i (map ingredients l).
Proof.
  change (map ingredients) with (fmap (M := list) ingredients).
  apply list_fmap_delete.
Qed.

End RecipeLists.

Lemma delete_past_the_end {A} (l : list A) : forall idx,
  (length l <= idx)%nat -> delete idx l = l.
Proof.
  induction l as [|x l IH]; intros idx H; [now destruct idx|].
  destruct idx as [|k]; cbn in *; [lia|]. f_equal. apply IH. lia.
Qed.

(** ** The properties *)

(** X1: what the scaler writes is read back as the rounded value.  For a
    product below 10^21 in magnitude, or one that is not finite,
    [numFromUnitString] reads the string [toFixedSafe] wrote, followed by any
    unit made of discarded characters, as [Number] reads the digits alone; so
    the four magnitudes of a scaled item read back as the products rounded to
    one decimal.  Exponent notation does not read back: the string written
    for 10^21 reads as 121. *)
Theorem scaled_strings_read_back :
  (forall x unit,
      below_1e21 x = true ->
      Forall (fun c => keep_char c = false) (list_ascii_of_string unit) ->
      numFromUnitString (Some (toFixedSafe x 1 +:+ unit)) =
      JS.Number (toFixedSafe x 1)) /\
  (forall factor item,
      Forall (fun v => below_1e21 (JS.mul (numFromUnitString v) factor) = true)
        (magnitudes item) ->
      map numFromUnitString (magnitudes (scaleItem factor item)) =
      map (fun v => JS.Number (toFixedSafe (JS.mul (numFromUnitString v) factor) 1))
        (magnitudes item)) /\
  numFromUnitString (Some (toFixedSafe (JS.of_decimal false 1 21) 1 +:+ "kcal"))
  = JS.of_Z 121.
Proof.
  split; [apply numFromUnitString_toFixedSafe|]. split; [|vm_compute; reflexivity].
  intros factor item H. unfold magnitudes in *.
  cbn [map scaleItem カロリー たんぱく質 脂質 炭水化物].
  inversion H as [|? ? Hk H']; subst. inversion H' as [|? ? Hp H'']; subst.
  inversion H'' as [|? ? Hf H''']; subst. inversion H''' as [|? ? Hc _]; subst.
  rewrite !numFromUnitString_toFixedSafe
    by first [assumption | exact kcal_dropped | exact g_dropped].
  reflexivity.
Qed.

Lemma scaled_strings_read_back_witness :
  numFromUnitString (Some (toFixedSafe (JS.of_Z 400) 1 +:+ "kcal")) =
  JS.Number (toFixedSafe (JS.of_Z 400) 1).
Proof.
  destruct scaled_strings_read_back as (H & _).
  apply H; [reflexivity | repeat constructor].
Defined.

(** X2: the totals of a day after its first extraction are the sums of the
    item values as written: each product is rounded to one decimal, the
    rounded values are summed and the sum is rounded again.  This is not the
    total the extraction shows, which rounds the product of the raw sum
    once. *)
Theorem day_totals_sum_the_rounded_items st dateKey arr :
  let factor :=
    scaleFactor (slotBudget (goalCalories st) (calorieSplit st) (mealTime st))
      (kcal (rawSums arr)) in
  inputText st <> ""%string ->
  dailyRecords st !! dateKey = None ->
  Forall (fun item =>
            Forall (fun v => below_1e21 (JS.mul (numFromUnitString v) factor) = true)
              (magnitudes item)) arr ->
  getTotalForDate
    (dailyRecords (fst (callGPT st dateKey (Message (ParsedArray arr))))) dateKey
  = roundTotals (fold_left (addRounded factor) arr zeroTotals).
Proof.
  intros factor Hin Hd Hsmall. rewrite callGPT_Message by exact Hin.
  cbn [handleParsed fst withResult dailyRecords]. fold factor.
  rewrite getTotalForDate_itemsOn, itemsOn_first_append by exact Hd.
  unfold sumItems. now rewrite fold_scaled.
Qed.

Lemma day_totals_sum_the_rounded_items_witness :
  getTotalForDate
    (dailyRecords (fst (callGPT typing "2026-01-01"
                          (Message (ParsedArray [chicken; eggs]))))) "2026-01-01"
  = roundTotals
      (fold_left
         (addRounded
            (scaleFactor
               (slotBudget (goalCalories typing) (calorieSplit typing) (mealTime typing))
               (kcal (rawSums [chicken; eggs]))))
         [chicken; eggs] zeroTotals).
Proof.
  apply (day_totals_sum_the_rounded_items typing "2026-01-01"%string [chicken; eggs]).
  - discriminate.
  - apply lookup_empty.
  - repeat (first [apply List.Forall_nil | apply List.Forall_cons]);
      vm_compute; reflexivity.
Defined.

(** X3: over every run of the component from its initial state, every item
    in the ledger is one the scaler wrote: its four magnitudes are strings
    written by [toFixedSafe] followed by "kcal" or "g".  A reply is never
    recorded as it came. *)
Theorem ledger_holds_only_scaler_output evs d item :
  In item (itemsOn (dailyRecords (run initialState evs)) d) -> scalerOutput item.
Proof.
  intros H. pose proof (soundLedger_run evs _ soundLedger_initial) as HL.
  unfold itemsOn in H.
  destruct (dailyRecords (run initialState evs) !! d) as [r|] eqn:E; [|destruct H].
  destruct (HL d r E) as [_ Hall].
  now apply (proj1 (List.Forall_forall _ _) Hall).
Qed.

Lemma ledger_holds_only_scaler_output_witness :
  scalerOutput
    (scaleItem
       (scaleFactor (slotBudget (JS.of_Z 1200) (splitOf 30 40 30) 朝)
          (kcal (rawSums [rice])))
       rice).
Proof.
  apply (ledger_holds_only_scaler_output recordRice "2026-01-01"%string).
  vm_compute. left. reflexivity.
Defined.

(** X4: over every run of the component from its initial state, a date is
    absent from the ledger exactly when none of its three slots holds a
    meal: a day record is created only by the append that puts a meal into
    it, so no day record is ever empty. *)
Theorem recorded_days_are_never_empty evs d :
  (dailyRecords (run initialState evs) !! d = None <->
   forall t, mealsAt (dailyRecords (run initialState evs)) d t = []) /\
  (forall r, dailyRecords (run initialState evs) !! d = Some r -> dayMeals r <> []).
Proof.
  pose proof (soundLedger_run evs _ soundLedger_initial) as HL.
  split.
  - unfold mealsAt. split.
    + intros ->. reflexivity.
    + intros H. destruct (dailyRecords (run initialState evs) !! d) as [r|] eqn:E;
        [|reflexivity].
      destruct (HL d r E) as [Hne _]. exfalso. apply Hne.
      rewrite dayMeals_slots. now rewrite !H.
  - intros r E. apply (HL d r E).
Qed.

Lemma recorded_days_are_never_empty_witness :
  dailyRecords (run initialState recordRice) !! "2026-01-02" = None /\
  dayMeals (push emptyDay 朝
              [scaleItem
                 (scaleFactor (slotBudget (JS.of_Z 1200) (splitOf 30 40 30) 朝)
                    (kcal (rawSums [rice])))
                 rice]) <> [].
Proof.
  destruct (recorded_days_are_never_empty recordRice "2026-01-02"%string) as [Habsent _].
  destruct (recorded_days_are_never_empty recordRice "2026-01-01"%string) as [_ Hday].
  split.
  - apply Habsent. intros t. destruct t; reflexivity.
  - apply Hday. vm_compute. reflexivity.
Defined.

(** An object is shown as its items; its calories are set when they can be
    parsed, and otherwise the notice for a message that is not JSON is
    raised. *)
Lemma handleReply_object st dateKey properties :
  (parses (JObj properties) = true /\
   exists total,
     handleReply st dateKey (JObj properties) =
     (withResult st (shownFor properties)
        {| kcal := total; protein := totalProtein st;
           fat := totalFat st; carbs := totalCarbs st |}
        (dailyRecords st), None)) \/
  (parses (JObj properties) = false /\
   handleReply st dateKey (JObj properties) =
   (withResult st (shownFor properties) (shownTotals st) (dailyRecords st),
    Some NotJSONReply)).
Proof.
  cbn [handleReply parses]. unfold shownFor, ingredientsArray.
  destruct (get "ingredients" properties) as [[|b|n|s|items|ps]|];
    try (destruct (magnitude "カロリー" (JObj properties));
         [left; split; [reflexivity|]; eexists; reflexivity
         |right; split; reflexivity]).
  destruct (sumCalories items);
    [left; split; [reflexivity|]; eexists; reflexivity
    |right; split; reflexivity].
Qed.

(** X5: a failed extraction keeps the totals and the ledger.  With an
    empty input the state is left as it is and the user is asked for input.
    Whatever the outcome, the input text, the goal, the split and the slot
    are kept, and after a request the loading flag is off.  Whenever a notice
    is raised the four totals and the ledger are those of before, and so is
    the list shown unless the message was an object whose calories could not
    be parsed: the list is then already the one the object is shown as.  No
    notice is raised exactly when the message was an array or an object and
    every magnitude its branch reads could be parsed. *)
Theorem failed_extraction_keeps_totals_and_ledger st dateKey reply :
  let st' := fst (callGPT st dateKey reply) in
  let notice := snd (callGPT st dateKey reply) in
  (inputText st = ""%string -> st' = st /\ notice = Some AskForInput) /\
  (inputText st' = inputText st /\ goalCalories st' = goalCalories st /\
   calorieSplit st' = calorieSplit st /\ mealTime st' = mealTime st) /\
  (inputText st <> ""%string -> loading st' = false) /\
  (notice <> None ->
   shownTotals st' = shownTotals st /\ dailyRecords st' = dailyRecords st /\
   (ingredients st' = ingredients st \/
    exists properties,
      reply = Content (JObj properties) /\ parses (JObj properties) = false /\
      ingredients st' = shownFor properties)) /\
  (inputText st <> ""%string ->
   (notice = None <-> exists parsed, reply = Content parsed /\ parses parsed = true)).
Proof.
  intros st' notice. subst st' notice. unfold callGPT.
  destruct (inputText st) as [|c t] eqn:Ei.
  - cbn [fst snd]. rewrite Ei. repeat split; try congruence. now left.
  - split; [discriminate|].
    assert (Hsame : forall n : Notice,
      let r := (withResult st (ingredients st) (shownTotals st) (dailyRecords st),
                Some n) in
      (inputText (fst r) = String c t /\ goalCalories (fst r) = goalCalories st /\
       calorieSplit (fst r) = calorieSplit st /\ mealTime (fst r) = mealTime st) /\
      (String c t <> ""%string -> loading (fst r) = false) /\
      (snd r <> None ->
       shownTotals (fst r) = shownTotals st /\
       dailyRecords (fst r) = dailyRecords st /\
       (ingredients (fst r) = ingredients st \/
        exists properties,
          reply = Content (JObj properties) /\ parses (JObj properties) = false /\
          ingredients (fst r) = shownFor properties))).
    { intros n. cbn. rewrite Ei. repeat split. now left. }
    destruct reply as [| | |parsed].
    + destruct (Hsame RequestError) as (H1 & H2 & H3).
      split; [exact H1|]. split; [exact H2|]. split; [exact H3|].
      intros _. split; [discriminate|]. intros (p & [=] & _).
    + destruct (Hsame NoApiResponse) as (H1 & H2 & H3).
      split; [exact H1|]. split; [exact H2|]. split; [exact H3|].
      intros _. split; [discriminate|]. intros (p & [=] & _).
    + destruct (Hsame NotJSONReply) as (H1 & H2 & H3).
      split; [exact H1|]. split; [exact H2|]. split; [exact H3|].
      intros _. split; [discriminate|]. intros (p & [=] & _).
    + assert (Hp : forall P : json -> Prop,
                (exists p, Content parsed = Content p /\ P p) <-> P parsed).
      { intros P. split; [intros (p & [= <-] & H); exact H | eauto]. }
      rewrite (Hp (fun p => parses p = true)).
      destruct parsed as [|b|n|s|items|properties].
      1-5: cbn [handleReply parses].
      * destruct (Hsame UnexpectedShape) as (H1 & H2 & H3).
        split; [exact H1|]. split; [exact H2|]. split; [exact H3|].
        intros _. split; discriminate.
      * destruct (Hsame UnexpectedShape) as (H1 & H2 & H3).
        split; [exact H1|]. split; [exact H2|]. split; [exact H3|].
        intros _. split; discriminate.
      * destruct (Hsame UnexpectedShape) as (H1 & H2 & H3).
        split; [exact H1|]. split; [exact H2|]. split; [exact H3|].
        intros _. split; discriminate.
      * destruct (Hsame UnexpectedShape) as (H1 & H2 & H3).
        split; [exact H1|]. split; [exact H2|]. split; [exact H3|].
        intros _. split; discriminate.
      * destruct (forallb readable items).
        -- cbn. rewrite Ei. repeat split; congruence.
        -- destruct (Hsame NotJSONReply) as (H1 & H2 & H3).
           split; [exact H1|]. split; [exact H2|]. split; [exact H3|].
           intros _. split; discriminate.
      * destruct (handleReply_object st dateKey properties)
          as [(Hp1 & total & ->)|(Hp0 & ->)]; rewrite ?Hp1, ?Hp0;
          cbn [fst snd withResult inputText goalCalories calorieSplit mealTime
               loading dailyRecords ingredients]; rewrite Ei.
        -- repeat split; congruence.
        -- split; [repeat split|]. split; [reflexivity|].
           split; [|intros _; split; discriminate].
           intros _. split; [reflexivity|]. split; [reflexivity|].
           right. exists properties. repeat split. exact Hp0.
Qed.

Lemma failed_extraction_keeps_totals_and_ledger_witness :
  fst (callGPT initialState "2026-01-01" NotParsable) = initialState /\
  dailyRecords (fst (callGPT typing "2026-01-01"
                       (Content (JObj [("カロリー"%string, JNum (JS.of_Z 120))]))))
  = dailyRecords typing /\
  totalCalories (fst (callGPT typing "2026-01-01"
                        (Content (JObj [("カロリー"%string, JNum (JS.of_Z 120))]))))
  = totalCalories typing.
Proof.
  destruct (failed_extraction_keeps_totals_and_ledger initialState
              "2026-01-01"%string NotParsable) as (Hempty & _).
  destruct (failed_extraction_keeps_totals_and_ledger typing "2026-01-01"%string
              (Content (JObj [("カロリー"%string, JNum (JS.of_Z 120))])))
    as (_ & _ & _ & Hkeep & _).
  split; [apply Hempty; reflexivity|].
  destruct Hkeep as (Ht & Hl & _); [discriminate|].
  split; [exact Hl|]. exact (f_equal kcal Ht).
Defined.

(** X6: a budget or a scale factor that is not finite, or a budget of zero,
    blanks the result.  A budget that is NaN or infinite gives a scale
    factor that is not finite; with such a factor, and with a budget of
    zero, every scaled magnitude is written "0.0" with its unit and the four
    totals are 0. *)
Theorem scaling_without_a_finite_factor items targetBudget :
  (JS.isFinite targetBudget = false ->
   JS.isFinite (scaleFactor targetBudget (kcal (rawSums items))) = false) /\
  (JS.isFinite (scaleFactor targetBudget (kcal (rawSums items))) = false ->
   snd (scaleMeal items targetBudget) = zeroTotals /\
   Forall blankItem (fst (scaleMeal items targetBudget))) /\
  (is_zero targetBudget = true ->
   snd (scaleMeal items targetBudget) = zeroTotals /\
   Forall blankItem (fst (scaleMeal items targetBudget))).
Proof.
  split; [|split].
  - intros H. unfold scaleFactor. apply div_not_finite; [exact H|].
    apply scaleBase_truthy.
  - apply scaleMeal_without_finite_factor.
  - apply scaleMeal_with_zero_budget.
Qed.

Lemma scaling_without_a_finite_factor_witness :
  snd (scaleMeal [chicken; rice] (S754_infinity false)) = zeroTotals /\
  Forall blankItem (fst (scaleMeal [chicken; rice] JS.pos_zero)).
Proof.
  destruct (scaling_without_a_finite_factor [chicken; rice] (S754_infinity false))
    as (Hf & Hblank & _).
  destruct (scaling_without_a_finite_factor [chicken; rice] JS.pos_zero)
    as (_ & _ & Hzero).
  split.
  - apply Hblank, Hf. reflexivity.
  - apply Hzero. reflexivity.
Defined.

(** X7: the totals are never NaN.  The four totals an array extraction
    shows and the four totals of any date of any ledger are Numbers other
    than NaN, and over every run of the component from its initial state the
    protein, fat and carbohydrate totals shown are never NaN. *)
Theorem totals_are_never_NaN :
  (forall factor sums, noNaN (scaledTotals factor sums)) /\
  (forall L d, noNaN (getTotalForDate L d)) /\
  (forall evs, barTotalsDefined (run initialState evs)).
Proof.
  split; [apply scaledTotals_noNaN|]. split; [apply getTotalForDate_noNaN|].
  intros evs. apply barTotalsDefined_run. repeat split.
Qed.

(** X8: over every run of the component from its initial state, the bars
    of the protein, fat and carbohydrate totals are at most 100 percent
    wide.  The bar of an item has no such cap: for an item of 150 g it is
    150 percent wide. *)
Theorem total_bars_stop_at_100_percent evs :
  let st := run initialState evs in
  SFleb (totalBarWidth (totalProtein st)) (JS.of_Z 100) = true /\
  SFleb (totalBarWidth (totalFat st)) (JS.of_Z 100) = true /\
  SFleb (totalBarWidth (totalCarbs st)) (JS.of_Z 100) = true /\
  itemBarWidth (numFromUnitString (Some "150g"%string)) = JS.of_Z 150.
Proof.
  intros st.
  destruct (barTotalsDefined_run evs initialState) as (Hp & Hf & Hc);
    [repeat split|].
  split; [|split; [|split]]; try now apply totalBarWidth_capped.
  vm_compute. reflexivity.
Qed.

(** X9: over every run of the page from its initial state, every
    registered recipe has a name that is not empty: a recipe is registered
    and renamed only under a name that was checked. *)
Theorem registered_recipes_have_names l c :
  Recipes.acts (initialState, Recipes.initial) l = Some c ->
  Forall (fun r => Recipes.name r <> ""%string) (Recipes.registeredRecipes (snd c)).
Proof. apply acts_named. constructor. Qed.

Lemma registered_recipes_have_names_witness :
  exists c,
    Recipes.acts (initialState, Recipes.initial) registerSalad = Some c /\
    Forall (fun r => Recipes.name r <> ""%string)
      (Recipes.registeredRecipes (snd c)).
Proof.
  eexists. split.
  - vm_compute. reflexivity.
  - apply (registered_recipes_have_names registerSalad). vm_compute. reflexivity.
Defined.

(** X10: an edit is saved at the index it was started at, not onto the
    recipe it was started on.  When a recipe is being edited and an earlier
    row is deleted, the save renames the recipe that followed the edited
    one, and the edited recipe keeps its name. *)
Theorem edit_is_saved_at_its_index app rs (i j : nat) v r :
  Recipes.shown rs j = true ->
  (i < j)%nat -> (S j < length (Recipes.registeredRecipes rs))%nat ->
  Recipes.registeredRecipes rs !! j = Some r ->
  String.concat "、" (map Recipes.ingredientText (Recipes.ingredients r)) <> ""%string ->
  v <> ""%string ->
  exists rs',
    Recipes.acts (app, rs)
      [Recipes.StartEdit j; Recipes.SetEditedName v; Recipes.Delete i; Recipes.Save]
    = Some (app, rs') /\
    Recipes.registeredRecipes rs' !! j =
      Recipes.rename v <$> Recipes.registeredRecipes rs !! S j /\
    Recipes.registeredRecipes rs' !! (j - 1)%nat = Some r /\
    length (Recipes.registeredRecipes rs') =
      (length (Recipes.registeredRecipes rs) - 1)%nat /\
    Recipes.editingIndex rs' = None.
Proof.
  intros Hs Hij Hj Hr Htext Hv.
  destruct (lookup_lt_is_Some_2 (Recipes.registeredRecipes rs) (S j) Hj) as [r' Hr'].
  assert (Hlen : length (delete i (Recipes.registeredRecipes rs))
                 = (length (Recipes.registeredRecipes rs) - 1)%nat).
  { apply length_delete. apply lookup_lt_is_Some_2. lia. }
  assert (Hdel : delete i (Recipes.registeredRecipes rs) !! j = Some r').
  { rewrite list_lookup_delete_ge by lia. exact Hr'. }
  cbn [Recipes.acts Recipes.act]. rewrite Hs.
  unfold Recipes.startEditRecipe. rewrite Hr. cbn [fmap option_fmap option_map].
  cbn [Recipes.act]. unfold Recipes.editing at 1.
  cbn [Recipes.editingIndex Recipes.registeredRecipes].
  assert (E1 : (j <? length (Recipes.registeredRecipes rs))%nat = true)
    by (apply Nat.ltb_lt; lia).
  rewrite E1. cbn [Recipes.act].
  assert (E2 : forall n t, Recipes.shown
            {| Recipes.recipeName := Recipes.recipeName rs;
               Recipes.registeredRecipes := Recipes.registeredRecipes rs;
               Recipes.editingIndex := Some j; Recipes.editedName := n;
               Recipes.editedIngredients := t |} i = true).
  { intros n t. apply shown_spec. cbn. split; [lia|]. intros [=]. lia. }
  rewrite E2. cbn [Recipes.act].
  unfold Recipes.editing, Recipes.deleteRecipe, Recipes.withRecipes.
  cbn [Recipes.editingIndex Recipes.registeredRecipes Recipes.recipeName
       Recipes.editedName Recipes.editedIngredients].
  assert (E3 : (j <? length (delete i (Recipes.registeredRecipes rs)))%nat = true)
    by (apply Nat.ltb_lt; lia).
  rewrite E3. unfold Recipes.saveEditedRecipe.
  cbn [Recipes.editingIndex Recipes.registeredRecipes Recipes.recipeName
       Recipes.editedName Recipes.editedIngredients].
  destruct v as [|c v]; [congruence|].
  destruct (String.concat "、" (map Recipes.ingredientText (Recipes.ingredients r)))
    as [|c2 t2] eqn:Et; [congruence|].
  rewrite Hdel. eexists. split; [reflexivity|].
  cbn [Recipes.editingIndex Recipes.registeredRecipes].
  split; [|split; [|split]].
  - rewrite list_lookup_insert_eq by lia. rewrite Hr'. reflexivity.
  - rewrite list_lookup_insert_ne by lia.
    rewrite list_lookup_delete_ge by lia.
    replace (S (j - 1)) with j by lia. exact Hr.
  - rewrite length_insert. exact Hlen.
  - reflexivity.
Qed.

Lemma edit_is_saved_at_its_index_witness :
  exists rs',
    Recipes.acts (initialState, threeRecipes)
      [Recipes.StartEdit 1; Recipes.SetEditedName "stew"; Recipes.Delete 0;
       Recipes.Save]
    = Some (initialState, rs') /\
    Recipes.registeredRecipes rs' !! 1%nat = Some (Recipes.rename "stew" curry) /\
    Recipes.registeredRecipes rs' !! 0%nat = Some omelette.
Proof.
  destruct (edit_is_saved_at_its_index initialState threeRecipes 0 1 "stew" omelette)
    as (rs' & H1 & H2 & H3 & _).
  - reflexivity.
  - lia.
  - simpl. lia.
  - reflexivity.
  - discriminate.
  - discriminate.
  - exists rs'. split; [exact H1|]. split; [exact H2 | exact H3].
Defined.

(** X11: a recipe without ingredient text cannot be renamed.  The text the
    form starts with is empty exactly when the recipe has no ingredient, or
    a single one with an empty name and no quantity; for a recipe registered
    from an empty array, a save under any name leaves the list as it is and
    the form open. *)
Theorem recipe_without_ingredients_keeps_its_name app rs idx r :
  Recipes.shown rs idx = true ->
  Recipes.registeredRecipes rs !! idx = Some r ->
  (forall rs1,
      Recipes.startEditRecipe rs idx = Some rs1 ->
      (Recipes.editedIngredients rs1 = ""%string <->
       Recipes.ingredients r = [] \/
       exists ing, Recipes.ingredients r = [ing] /\ 材料名 ing = ""%string /\
                   (数量 ing = None \/ 数量 ing = Some ""%string))) /\
  (Recipes.ingredients r = [] ->
   forall v,
   exists rs',
     Recipes.acts (app, rs)
       [Recipes.StartEdit idx; Recipes.SetEditedName v; Recipes.Save]
     = Some (app, rs') /\
     Recipes.registeredRecipes rs' = Recipes.registeredRecipes rs /\
     Recipes.editingIndex rs' = Some idx).
Proof.
  intros Hs Hr. split.
  - intros rs1 H. unfold Recipes.startEditRecipe in H. rewrite Hr in H.
    injection H as <-. cbn [Recipes.editedIngredients].
    apply editedIngredients_empty.
  - intros Hnil v.
    assert (Hlt : (idx <? length (Recipes.registeredRecipes rs))%nat = true).
    { apply Nat.ltb_lt. eapply lookup_lt_Some; eauto. }
    cbn [Recipes.acts Recipes.act]. rewrite Hs.
    unfold Recipes.startEditRecipe. rewrite Hr, Hnil.
    cbn [fmap option_fmap option_map map String.concat].
    cbn [Recipes.act]. unfold Recipes.editing at 1.
    cbn [Recipes.editingIndex Recipes.registeredRecipes]. rewrite Hlt.
    cbn [Recipes.act]. unfold Recipes.editing, Recipes.saveEditedRecipe.
    cbn [Recipes.editingIndex Recipes.registeredRecipes Recipes.recipeName
         Recipes.editedName Recipes.editedIngredients].
    rewrite Hlt. eexists. split; [destruct v; reflexivity|]. split; reflexivity.
Qed.

Lemma recipe_without_ingredients_keeps_its_name_witness :
  exists rs',
    Recipes.acts (initialState, Recipes.withRecipes Recipes.initial [water])
      [Recipes.StartEdit 0; Recipes.SetEditedName "tea"; Recipes.Save]
    = Some (initialState, rs') /\
    Recipes.registeredRecipes rs' = [water].
Proof.
  destruct (recipe_without_ingredients_keeps_its_name initialState
              (Recipes.withRecipes Recipes.initial [water]) 0 water)
    as (_ & H); [reflexivity | reflexivity |].
  destruct (H eq_refl "tea"%string) as (rs' & H1 & H2 & _).
  exists rs'. split; [exact H1 | exact H2].
Defined.

(** X12: no action of the page changes the ingredients of a registered
    recipe.  A registration adds one ingredient list at the end or none, a
    deletion removes the list of its row, and every other action, the save
    of an edit included, leaves the ingredient lists as they are: the
    ingredients text of the edit form is never applied. *)
Theorem editing_never_changes_ingredients app rs a app' rs' :
  Recipes.act (app, rs) a = Some (app', rs') ->
  match a with
  | Recipes.Register gpt =>
      Recipes.ingredientLists rs' = Recipes.ingredientLists rs \/
      exists parsed,
        gpt Recipes.registerPrompt = Message (ParsedArray parsed) /\
        Recipes.ingredientLists rs' = Recipes.ingredientLists rs ++ [parsed]
  | Recipes.Delete idx =>
      Recipes.ingredientLists rs' = delete idx (Recipes.ingredientLists rs)
  | _ => Recipes.ingredientLists rs' = Recipes.ingredientLists rs
  end.
Proof.
  intros H. unfold Recipes.ingredientLists.
  destruct a; cbn [Recipes.act] in H.
  - now injection H as <- <-.
  - now injection H as <- <-.
  - destruct (loading app); [discriminate|].
    pose proof (registerRecipe_cases app rs gpt) as Hc.
    destruct (Recipes.registerRecipe app rs gpt) as [[app1 rs1] notice].
    cbn [fst] in H. injection H as <- <-.
    destruct Hc as [[_ ->]|(parsed & Hg & _ & _ & _ & ->)]; [now left|].
    right. exists parsed. split; [exact Hg|].
    cbn [Recipes.withRecipes Recipes.registeredRecipes].
    now rewrite map_app.
  - destruct (Recipes.shown rs idx); [|discriminate].
    unfold Recipes.startEditRecipe in H.
    destruct (Recipes.registeredRecipes rs !! idx); [|discriminate].
    now injection H as <- <-.
  - destruct (Recipes.editing rs); [|discriminate]. now injection H as <- <-.
  - destruct (Recipes.editing rs); [|discriminate]. now injection H as <- <-.
  - destruct (Recipes.editing rs); [|discriminate].
    unfold Recipes.saveEditedRecipe in H.
    destruct (Recipes.editingIndex rs) as [i|]; [|now injection H as <- <-].
    destruct (Recipes.editedName rs) as [|c n]; [now injection H as <- <-|].
    destruct (Recipes.editedIngredients rs) as [|c2 t]; [now injection H as <- <-|].
    destruct (Recipes.registeredRecipes rs !! i) as [r|] eqn:Er; [|discriminate].
    injection H as <- <-. cbn [Recipes.registeredRecipes].
    now apply ingredientLists_insert.
  - destruct (Recipes.editing rs); [|discriminate]. now injection H as <- <-.
  - destruct (Recipes.shown rs idx); [|discriminate]. injection H as <- <-.
    apply ingredientLists_delete.
Qed.

Lemma editing_never_changes_ingredients_witness :
  Recipes.ingredientLists (Recipes.deleteRecipe threeRecipes 1) =
  delete 1%nat (Recipes.ingredientLists threeRecipes).
Proof.
  apply (editing_never_changes_ingredients initialState threeRecipes
           (Recipes.Delete 1) initialState (Recipes.deleteRecipe threeRecipes 1)).
  reflexivity.
Defined.

(** X13: a deletion removes the row of its index and nothing else: the rows
    before it stay, the rows after it move up by one, the list is one
    shorter, and an index past the end changes nothing.  It leaves the index
    of the edit form as it is.  Deleting the last row after a registration
    gives back the state before the registration. *)
Theorem deleteRecipe_removes_one_row rs idx :
  (forall j, (j < idx)%nat ->
     Recipes.registeredRecipes (Recipes.deleteRecipe rs idx) !! j
     = Recipes.registeredRecipes rs !! j) /\
  (forall j, (idx <= j)%nat ->
     Recipes.registeredRecipes (Recipes.deleteRecipe rs idx) !! j
     = Recipes.registeredRecipes rs !! S j) /\
  ((idx < length (Recipes.registeredRecipes rs))%nat ->
   length (Recipes.registeredRecipes (Recipes.deleteRecipe rs idx))
   = (length (Recipes.registeredRecipes rs) - 1)%nat) /\
  ((length (Recipes.registeredRecipes rs) <= idx)%nat ->
   Recipes.deleteRecipe rs idx = rs) /\
  Recipes.editingIndex (Recipes.deleteRecipe rs idx) = Recipes.editingIndex rs /\
  (forall app gpt parsed,
      Recipes.recipeName rs <> ""%string -> inputText app <> ""%string ->
      gpt Recipes.registerPrompt = Message (ParsedArray parsed) ->
      Recipes.deleteRecipe (snd (fst (Recipes.registerRecipe app rs gpt)))
        (length (Recipes.registeredRecipes rs)) = rs).
Proof.
  unfold Recipes.deleteRecipe.
  split; [|split; [|split; [|split; [|split]]]].
  - intros j Hj. cbn. now apply list_lookup_delete_lt.
  - intros j Hj. cbn. now apply list_lookup_delete_ge.
  - intros H. cbn. apply length_delete. now apply lookup_lt_is_Some_2.
  - intros H. rewrite delete_past_the_end by exact H. apply withRecipes_same.
  - reflexivity.
  - intros app gpt parsed Hn Ht Hg. unfold Recipes.registerRecipe.
    destruct (Recipes.recipeName rs) as [|c n] eqn:En; [congruence|].
    destruct (inputText app) as [|c2 t]; [congruence|].
    rewrite Hg. rewrite <- En. clear En Hn. destruct rs as [rn l ei en et].
    cbn [fst snd Recipes.withRecipes Recipes.registeredRecipes Recipes.recipeName
         Recipes.editingIndex Recipes.editedName Recipes.editedIngredients].
    now rewrite delete_middle, app_nil_r.
Qed.

Lemma deleteRecipe_removes_one_row_witness :
  length (Recipes.registeredRecipes (Recipes.deleteRecipe threeRecipes 1)) = 2%nat /\
  Recipes.deleteRecipe threeRecipes 5 = threeRecipes.
Proof.
  destruct (deleteRecipe_removes_one_row threeRecipes 1) as (_ & _ & Hlen & _).
  destruct (deleteRecipe_removes_one_row threeRecipes 5) as (_ & _ & _ & Hpast & _).
  split.
  - apply Hlen. simpl. lia.
  - apply Hpast. simpl. lia.
Defined.

(** X14: a registration stores the reply, not the text typed.  With an
    empty recipe name or an empty text nothing changes and the user is asked
    for both.  Whenever a notice is raised the recipes are as before; without
    a notice the reply to the prompt was an array, and it is registered under
    the recipe name at the end of the list.  The prompt is a constant, so for
    two texts that are not empty the recipes and the notice are the same. *)
Theorem registerRecipe_registers_the_reply app rs gpt :
  let result := Recipes.registerRecipe app rs gpt in
  let rs' := snd (fst result) in
  let notice := snd result in
  (Recipes.recipeName rs = ""%string \/ inputText app = ""%string ->
   result = (app, rs, Some Recipes.AskForNameAndText)) /\
  (notice <> None -> rs' = rs) /\
  (notice = None ->
   exists parsed,
     gpt Recipes.registerPrompt = Message (ParsedArray parsed) /\
     rs' = Recipes.withRecipes rs
             (Recipes.registeredRecipes rs ++
              [{| Recipes.name := Recipes.recipeName rs;
                  Recipes.ingredients := parsed |}])) /\
  (forall app2,
      inputText app <> ""%string -> inputText app2 <> ""%string ->
      snd (fst (Recipes.registerRecipe app2 rs gpt)) = rs' /\
      snd (Recipes.registerRecipe app2 rs gpt) = notice).
Proof.
  intros result rs' notice. subst rs' notice result.
  split; [|split; [|split]].
  - unfold Recipes.registerRecipe. intros [-> | ->]; [reflexivity|].
    now destruct (Recipes.recipeName rs).
  - pose proof (registerRecipe_cases app rs gpt) as Hc.
    destruct (Recipes.registerRecipe app rs gpt) as [[app1 rs1] notice].
    cbn [fst snd]. intros Hn.
    destruct Hc as [[_ ->]|(p & _ & _ & _ & -> & _)]; [reflexivity|congruence].
  - pose proof (registerRecipe_cases app rs gpt) as Hc.
    destruct (Recipes.registerRecipe app rs gpt) as [[app1 rs1] notice].
    cbn [fst snd]. intros ->.
    destruct Hc as [[Hn _]|(p & Hg & _ & _ & _ & ->)]; [congruence|eauto].
  - intros app2 H1 H2. unfold Recipes.registerRecipe.
    destruct (inputText app) as [|c t]; [congruence|].
    destruct (inputText app2) as [|c2 t2]; [congruence|].
    destruct (Recipes.recipeName rs) as [|c3 n]; [split; reflexivity|].
    destruct (gpt Recipes.registerPrompt) as [| | |[p|o obj|]]; split; reflexivity.
Qed.

Lemma registerRecipe_registers_the_reply_witness :
  Recipes.registerRecipe typing Recipes.initial (replies (ParsedArray [chicken]))
  = (typing, Recipes.initial, Some Recipes.AskForNameAndText).
Proof.
  destruct (registerRecipe_registers_the_reply typing Recipes.initial
              (replies (ParsedArray [chicken]))) as (H & _).
  apply H. left. reflexivity.
Defined.

(** X15: the proxy passes on accepted requests only.  Every response
    carries the three CORS headers.  A request that is not a POST with a
    truthy prompt, or that meets no credential, is answered without the
    upstream service being consulted.  A request that is passed on carries
    the prompt of the body as it came and the credential as a bearer token,
    and the status and the body of the upstream reply are returned as they
    are; when the call throws the status is 500. *)
Theorem proxy_passes_on_accepted_requests_only req apiKey :
  (forall fetch,
      Proxy.headers (ProxyCall.serve req apiKey fetch) = Proxy.cors) /\
  (forall fetch,
      ProxyCall.serve req apiKey fetch =
      Proxy.handler req apiKey
        (fetch (ProxyCall.upstreamRequest (default ""%string apiKey)
                  (Proxy.prompt_of (Proxy.body req))))) /\
  (ProxyCall.passedOn req apiKey = false ->
   forall fetch fetch',
     ProxyCall.serve req apiKey fetch = ProxyCall.serve req apiKey fetch') /\
  (ProxyCall.passedOn req apiKey = true ->
   forall fetch,
   exists key,
     apiKey = Some key /\
     let sent := ProxyCall.upstreamRequest key (Proxy.prompt_of (Proxy.body req)) in
     ProxyCall.authorization sent = ("Bearer " +:+ key)%string /\
     ProxyCall.content sent = Proxy.prompt_of (Proxy.body req) /\
     match fetch sent with
     | Proxy.Replies code data =>
         Proxy.status (ProxyCall.serve req apiKey fetch) = code /\
         Proxy.payload (ProxyCall.serve req apiKey fetch) = Proxy.Json data
     | Proxy.Throws message =>
         Proxy.status (ProxyCall.serve req apiKey fetch) = 500
     end).
Proof.
  unfold ProxyCall.serve, ProxyCall.passedOn, Proxy.handler.
  split; [|split; [|split]].
  - intros fetch.
    destruct (String.eqb (Proxy.method req) "OPTIONS"); [reflexivity|].
    destruct (String.eqb (Proxy.method req) "POST"); [|reflexivity]. cbn [negb].
    destruct (Proxy.truthy _); [|reflexivity]. cbn [negb].
    destruct apiKey as [[|c k]|]; try reflexivity.
    destruct (fetch _); reflexivity.
  - intros fetch.
    destruct (String.eqb (Proxy.method req) "OPTIONS"); [reflexivity|].
    destruct (String.eqb (Proxy.method req) "POST"); [|reflexivity]. cbn [negb].
    destruct (Proxy.truthy _); [|reflexivity]. cbn [negb].
    destruct apiKey as [[|c k]|]; reflexivity.
  - intros H fetch fetch'.
    destruct (String.eqb (Proxy.method req) "OPTIONS"); [reflexivity|].
    destruct (String.eqb (Proxy.method req) "POST"); [|reflexivity]. cbn [negb].
    destruct (Proxy.truthy _); [|reflexivity]. cbn [negb].
    destruct apiKey as [[|c k]|]; try reflexivity. discriminate H.
  - intros H fetch.
    destruct (String.eqb (Proxy.method req) "POST") eqn:Em; [|discriminate H].
    assert (Eo : String.eqb (Proxy.method req) "OPTIONS" = false).
    { apply String.eqb_eq in Em. now rewrite Em. }
    rewrite Eo. cbn [negb].
    destruct (Proxy.truthy _); [|discriminate H]. cbn [negb].
    destruct apiKey as [[|c k]|]; try discriminate H.
    exists (String c k). split; [reflexivity|]. cbn zeta.
    split; [reflexivity|]. split; [reflexivity|].
    destruct (fetch _); [reflexivity | split; reflexivity].
Qed.

Lemma proxy_passes_on_accepted_requests_only_witness :
  Proxy.status
    (ProxyCall.serve {| Proxy.method := "POST"; Proxy.body := promptBody "rice" |}
       (Some "key"%string) (fun _ => Proxy.Replies 429 Proxy.VNull)) = 429 /\
  ProxyCall.serve {| Proxy.method := "POST"; Proxy.body := promptBody "rice" |}
    None (fun _ => Proxy.Replies 429 Proxy.VNull)
  = ProxyCall.serve {| Proxy.method := "POST"; Proxy.body := promptBody "rice" |}
      None (fun _ => Proxy.Throws "down").
Proof.
  destruct (proxy_passes_on_accepted_requests_only
              {| Proxy.method := "POST"; Proxy.body := promptBody "rice" |}
              (Some "key"%string)) as (_ & _ & _ & Hon).
  destruct (proxy_passes_on_accepted_requests_only
              {| Proxy.method := "POST"; Proxy.body := promptBody "rice" |}
              None) as (_ & _ & Hoff & _).
  split.
  - destruct (Hon eq_refl (fun _ => Proxy.Replies 429 Proxy.VNull))
      as (key & _ & _ & _ & Hs & _).
    exact Hs.
  - apply Hoff. reflexivity.
Defined.

(** X16: with the goal field cleared, every extraction is blank.  The
    handler of the field stores [Number] of its text, which is 0 for the
    empty text.  Whatever the split and the slot, an array extracted then
    has every magnitude written "0.0" with its unit, and the four totals
    shown are 0. *)
Theorem cleared_goal_blanks_every_extraction st dateKey arr :
  inputText st <> ""%string ->
  let st' := fst (callGPT (onGoalChange st "") dateKey (Message (ParsedArray arr))) in
  goalCalories (onGoalChange st "") = JS.pos_zero /\
  shownTotals st' = zeroTotals /\
  Forall blankItem (ingredients st').
Proof.
  intros Hin st'. split; [reflexivity|].
  assert (E : (ingredients st', shownTotals st') =
              scaleMeal arr
                (slotBudget JS.pos_zero (calorieSplit st) (mealTime st))).
  { subst st'. rewrite callGPT_Message by exact Hin. reflexivity. }
  pose proof (f_equal fst E) as E1. pose proof (f_equal snd E) as E2.
  cbn [fst snd] in E1, E2. rewrite E1, E2. clear E E1 E2. unfold slotBudget.
  destruct (mul_pos_zero (mealRatiosCalc (calorieSplit st) (mealTime st)))
    as [Hz|Hn].
  - destruct (scaleMeal_with_zero_budget arr _ Hz) as [-> H]. now split.
  - apply (scaleMeal_without_finite_factor arr).
    unfold scaleFactor. apply div_not_finite; [exact Hn | apply scaleBase_truthy].
Qed.

Lemma cleared_goal_blanks_every_extraction_witness :
  shownTotals
    (fst (callGPT (onGoalChange typing "") "2026-01-01"
            (Message (ParsedArray [chicken; eggs])))) = zeroTotals.
Proof.
  destruct (cleared_goal_blanks_every_extraction typing "2026-01-01"%string
              [chicken; eggs]) as (_ & H & _); [discriminate|].
  exact H.
Defined.
